(** * Product cache coordination layer: a shallow embedding

    This development embeds the cache engine
    ([src/services/redis-cache.service.ts], class [RedisCacheService]) and the
    catalog service that orchestrates it ([ProductService]) and states the
    properties of the specification as theorems about that embedding.

    Layout:
    - [JS]: the fragment of the JavaScript runtime the services rely on
      (number to string conversion, [parseInt], [parseFloat], [trim]);
    - [Float64]: the binary64 arithmetic of the hit rate;
    - [Backend]: the key-value store behind the Redis client;
    - [Cache]: the cache engine, in a state-and-exception monad;
    - [Catalog]: the catalog service over a cache and a repository interface;
    - [Helpers]: the retry helper of [utils/helpers.ts];
    - the theorems: the properties of the specification, then further
      properties of the same code. *)

From Stdlib Require Import ZArith QArith String Ascii List Lia Bool.
From Stdlib Require Import SpecFloat.
From Stdlib Require Import Decimal DecimalN.
From stdpp Require Import base option list strings gmap.

Local Open Scope string_scope.
Local Open Scope Z_scope.

(** ** The JavaScript runtime fragment *)

Module JS.

(** A string is a sequence of code units; the model keeps the code units
    below 256. *)

Inductive digit := d0 | d1 | d2 | d3 | d4 | d5 | d6 | d7 | d8 | d9.

Definition digit_char (d : digit) : ascii :=
  match d with
  | d0 => "0" | d1 => "1" | d2 => "2" | d3 => "3" | d4 => "4"
  | d5 => "5" | d6 => "6" | d7 => "7" | d8 => "8" | d9 => "9"
  end%char.

Definition char_digit (c : ascii) : option digit :=
  if Ascii.eqb c "0" then Some d0 else if Ascii.eqb c "1" then Some d1
  else if Ascii.eqb c "2" then Some d2 else if Ascii.eqb c "3" then Some d3
  else if Ascii.eqb c "4" then Some d4 else if Ascii.eqb c "5" then Some d5
  else if Ascii.eqb c "6" then Some d6 else if Ascii.eqb c "7" then Some d7
  else if Ascii.eqb c "8" then Some d8 else if Ascii.eqb c "9" then Some d9
  else None.

Definition is_d0 (d : digit) : bool := match d with d0 => true | _ => false end.

Fixpoint string_of_digits (ds : list digit) : string :=
  match ds with
  | [] => ""
  | d :: ds' => String (digit_char d) (string_of_digits ds')
  end.

(** Digit sequences of the Standard Library's decimal numbers, for printing
    and reading the exponent. *)
Fixpoint uint_digits (u : uint) : list digit :=
  match u with
  | Nil => []
  | D0 u' => d0 :: uint_digits u' | D1 u' => d1 :: uint_digits u'
  | D2 u' => d2 :: uint_digits u' | D3 u' => d3 :: uint_digits u'
  | D4 u' => d4 :: uint_digits u' | D5 u' => d5 :: uint_digits u'
  | D6 u' => d6 :: uint_digits u' | D7 u' => d7 :: uint_digits u'
  | D8 u' => d8 :: uint_digits u' | D9 u' => d9 :: uint_digits u'
  end.

Fixpoint digits_uint (ds : list digit) : uint :=
  match ds with
  | [] => Nil
  | d :: ds' =>
      let u := digits_uint ds' in
      match d with
      | d0 => D0 u | d1 => D1 u | d2 => D2 u | d3 => D3 u | d4 => D4 u
      | d5 => D5 u | d6 => D6 u | d7 => D7 u | d8 => D8 u | d9 => D9 u
      end
  end.

Definition digits_of_N (n : N) : list digit := uint_digits (N.to_uint n).
Definition N_of_digits (ds : list digit) : N := N.of_uint (digits_uint ds).

(** *** Numbers

    A JavaScript number is kept in the form the language definition uses to
    print it (Number::toString): a finite non-zero number is a sign, the
    digits [sig] of its shortest decimal representation (no leading and no
    trailing zero) and the position [pt] of the decimal point, and stands for
    [0.sig * 10^pt].  Precision and range are unbounded in the model: the
    rounding of binary64, overflow to Infinity, underflow to zero and the
    sign of zero are left out. *)
Inductive number :=
| NaN
| Infinity (neg : bool)
| Zero
| Finite (neg : bool) (sig : list digit) (pt : Z).

Definition canonical (sig : list digit) : bool :=
  match sig with
  | [] => false
  | d :: _ => negb (is_d0 d) && negb (is_d0 (List.last sig d1))
  end.

(** Well-formed numbers: the significant digits are canonical. *)
Definition wf_number (x : number) : bool :=
  match x with
  | Finite _ sig _ => canonical sig
  | _ => true
  end.

Definition isNaN (x : number) : bool :=
  match x with NaN => true | _ => false end.

(** [x < 0] and [x <= 0]; every comparison with NaN is false. *)
Definition lt0 (x : number) : bool :=
  match x with
  | Infinity neg | Finite neg _ _ => neg
  | NaN | Zero => false
  end.

Definition le0 (x : number) : bool :=
  match x with
  | Infinity neg | Finite neg _ _ => neg
  | Zero => true
  | NaN => false
  end.

(** A positive integer, and such an integer below 10^21. *)
Definition positive_integer (x : number) : bool :=
  match x with
  | Finite false sig pt => canonical sig && (Z.of_nat (length sig) <=? pt)
  | _ => false
  end.

Definition below_1e21 (x : number) : bool :=
  match x with
  | Finite _ _ pt => pt <=? 21
  | Infinity _ => false
  | _ => true
  end.

(** A finite number that is not negative. *)
Definition nonnegative_finite (x : number) : bool :=
  match x with
  | Zero => true
  | Finite false sig _ => canonical sig
  | _ => false
  end.

(** [Number.isInteger] on the model. *)
Definition isInteger (x : number) : bool :=
  match x with
  | Zero => true
  | Finite _ sig pt => Z.of_nat (length sig) <=? pt
  | _ => false
  end.

Fixpoint drop_zeros (ds : list digit) : list digit :=
  match ds with
  | d0 :: ds' => drop_zeros ds'
  | _ => ds
  end.

Definition drop_trailing_zeros (ds : list digit) : list digit :=
  rev (drop_zeros (rev ds)).

(** The number [0.ds * 10^pt], for any digit sequence. *)
Definition make_number (neg : bool) (ds : list digit) (pt : Z) : number :=
  let sig := drop_zeros ds in
  match sig with
  | [] => Zero
  | _ => Finite neg (drop_trailing_zeros sig)
                (pt - Z.of_nat (length ds - length sig))
  end.

Definition number_of_N (n : N) : number :=
  let ds := digits_of_N n in make_number false ds (Z.of_nat (length ds)).

Definition number_of_Z (z : Z) : number :=
  let ds := digits_of_N (Z.abs_N z) in
  make_number (z <? 0) ds (Z.of_nat (length ds)).

(** *** Number::toString (radix 10) *)

Definition zeros (n : nat) : string := string_of_digits (repeat d0 n).

Definition exponent_string (e : Z) : string :=
  (if e <? 0 then "-" else "+") ++ string_of_digits (digits_of_N (Z.abs_N e)).

Definition digits_toString (sig : list digit) (n : Z) : string :=
  let k := Z.of_nat (length sig) in
  if (k <=? n) && (n <=? 21) then
    string_of_digits sig ++ zeros (Z.to_nat (n - k))
  else if (0 <? n) && (n <=? 21) then
    string_of_digits (take (Z.to_nat n) sig) ++ "."
      ++ string_of_digits (drop (Z.to_nat n) sig)
  else if (-6 <? n) && (n <=? 0) then
    "0." ++ zeros (Z.to_nat (- n)) ++ string_of_digits sig
  else
    match sig with
    | [] => ""
    | [d] => String (digit_char d) ("e" ++ exponent_string (n - 1))
    | d :: rest =>
        String (digit_char d)
          ("." ++ string_of_digits rest ++ "e" ++ exponent_string (n - 1))
    end.

Definition toString (x : number) : string :=
  match x with
  | NaN => "NaN"
  | Zero => "0"
  | Infinity neg => (if neg then "-" else "") ++ "Infinity"
  | Finite neg sig pt => (if neg then "-" else "") ++ digits_toString sig pt
  end.

(** *** Reading numbers *)

(** StrWhiteSpaceChar, restricted to the code units of the model: TAB, LF,
    VT, FF, CR, SP and NBSP. *)
Definition is_whitespace (c : ascii) : bool :=
  let n := nat_of_ascii c in
  ((9 <=? n) && (n <=? 13) || (n =? 32) || (n =? 160))%nat.

Fixpoint skip_whitespace (s : string) : string :=
  match s with
  | String c r => if is_whitespace c then skip_whitespace r else s
  | EmptyString => s
  end.

Definition read_sign (s : string) : bool * string :=
  match s with
  | String "-" r => (true, r)
  | String "+" r => (false, r)
  | _ => (false, s)
  end.

Fixpoint read_digits (s : string) : list digit * string :=
  match s with
  | String c r =>
      match char_digit c with
      | Some d => let '(ds, rest) := read_digits r in (d :: ds, rest)
      | None => ([], s)
      end
  | EmptyString => ([], s)
  end.

(** ExponentPart: [e] or [E], an optional sign and at least one digit; when
    it is not complete nothing of it is consumed. *)
Definition read_exponent (s : string) : Z :=
  match s with
  | String c r =>
      if Ascii.eqb c "e" || Ascii.eqb c "E" then
        let '(neg, r') := read_sign r in
        match read_digits r' with
        | ([], _) => 0
        | (ds, _) => let e := Z.of_N (N_of_digits ds) in if neg then - e else e
        end
      else 0
  | EmptyString => 0
  end.

(** The StrDecimalLiteral at the start of [s], past the sign; NaN when there
    is none. *)
Definition read_decimal (neg : bool) (s : string) : number :=
  if String.prefix "Infinity" s then Infinity neg
  else
    let '(ip, s1) := read_digits s in
    let '(fp, s2) :=
      match s1 with
      | String "." r => read_digits r
      | _ => ([], s1)
      end in
    match ip, fp with
    | [], [] => NaN
    | _, _ =>
        make_number neg (ip ++ fp) (Z.of_nat (length ip) + read_exponent s2)
    end.

(** [parseFloat]: the longest prefix of the trimmed input that is a
    StrDecimalLiteral. *)
Definition parseFloat (input : string) : number :=
  let '(neg, s) := read_sign (skip_whitespace input) in read_decimal neg s.

Definition char_hex (c : ascii) : option N :=
  let n := N_of_ascii c in
  (if (48 <=? n) && (n <=? 57) then Some (n - 48)
   else if (97 <=? n) && (n <=? 102) then Some (n - 87)
   else if (65 <=? n) && (n <=? 70) then Some (n - 55)
   else None)%N.

(** The value of the longest prefix of hexadecimal digits, if it has one. *)
Fixpoint read_hex (s : string) (acc : option N) : option N :=
  match s with
  | String c r =>
      match char_hex c with
      | Some h => read_hex r (Some (16 * default 0%N acc + h)%N)
      | None => acc
      end
  | EmptyString => acc
  end.

(** The integer at the start of [s], past the sign: radix 16 after a [0x] or
    [0X] prefix, radix 10 otherwise. *)
Definition read_integer (neg : bool) (s : string) : number :=
  match s with
  | String "0" (String x r) =>
      if Ascii.eqb x "x" || Ascii.eqb x "X" then
        match read_hex r None with
        | Some n =>
            let ds := digits_of_N n in make_number neg ds (Z.of_nat (length ds))
        | None => NaN
        end
      else
        let '(ds, _) := read_digits s in make_number neg ds (Z.of_nat (length ds))
  | _ =>
      match read_digits s with
      | ([], _) => NaN
      | (ds, _) => make_number neg ds (Z.of_nat (length ds))
      end
  end.

(** [parseInt] without a radix argument. *)
Definition parseInt (input : string) : number :=
  let '(neg, s) := read_sign (skip_whitespace input) in read_integer neg s.

(** *** String.prototype.trim *)

Definition string_rev (s : string) : string :=
  string_of_list_ascii (rev (list_ascii_of_string s)).

Definition trim (s : string) : string :=
  string_rev (skip_whitespace (string_rev (skip_whitespace s))).

(** A string with no white space at either end; the empty string is one. *)
Definition trimmed (s : string) : bool :=
  match list_ascii_of_string s with
  | [] => true
  | c :: l => negb (is_whitespace c) && negb (is_whitespace (List.last (c :: l) c))
  end.

(** Truthiness of a string: every string but the empty one. *)
Definition truthy (s : string) : bool :=
  match s with EmptyString => false | _ => true end.

End JS.

(** ** Binary64 arithmetic

    The arithmetic the services do on numbers (the hit rate of the
    statistics) is that of IEEE 754 binary64, every operation rounded to
    nearest, ties to even: the operations are those of the Standard
    Library's [SpecFloat] at precision 53 and maximal exponent 1024. *)

Module Float64.

Definition prec : Z := 53.
Definition emax : Z := 1024.

(** The number a counter holds: exact below 2^53, rounded from there on. *)
Definition of_N (n : N) : spec_float :=
  binary_normalize prec emax (Z.of_N n) 0 false.

Definition div (x y : spec_float) : spec_float := SFdiv prec emax x y.
Definition mul (x y : spec_float) : spec_float := SFmul prec emax x y.

Definition zero : spec_float := S754_zero false.

(** The rational number a finite value stands for. *)
Definition value (x : spec_float) : option Q :=
  match x with
  | S754_zero _ => Some 0%Q
  | S754_finite s m e =>
      Some ((if s then inject_Z (Z.neg m) else inject_Z (Z.pos m)) * Qpower 2 e)%Q
  | S754_infinity _ | S754_nan => None
  end.

End Float64.

(** ** Entities, errors and the world the services run in *)

Record Product := mkProduct {
  id : JS.number;
  name : string;
  price : JS.number;
  category : string;
}.

(** [Partial<Product>]: every property may be absent. *)
Record PartialProduct := mkPartial {
  id_opt : option JS.number;
  name_opt : option string;
  price_opt : option JS.number;
  category_opt : option string;
}.

Definition partial_of (p : Product) : PartialProduct :=
  mkPartial (Some (id p)) (Some (name p)) (Some (price p)) (Some (category p)).

(** The entities the round-trip property speaks of: a positive integer id,
    a finite price that is not negative, a name and a category that are not
    empty and carry no white space at their ends. *)
Definition valid_product (p : Product) : bool :=
  JS.positive_integer (id p) && JS.nonnegative_finite (price p)
  && JS.truthy (name p) && JS.trimmed (name p)
  && JS.truthy (category p) && JS.trimmed (category p).

(** The values the program throws: the cache error classes of
    [utils/cache-errors.ts], the application errors used by the catalog
    service, and what the runtime and the drivers raise. *)
Inductive JsError :=
| Error (message : string)
| SyntaxError (message : string)
| ReplyError (message : string)
| QueryFailedError (code message : string)
| CacheConnectionError (message : string)
| CacheOperationError (message operation : string) (originalError : JsError)
| CacheDataError (message : string)
| ConflictError (message : string)
| DatabaseError (message details : string)
| Undefined.

Definition message (e : JsError) : string :=
  match e with
  | Error m | SyntaxError m | ReplyError m | QueryFailedError _ m
  | CacheConnectionError m | CacheOperationError m _ _ | CacheDataError m
  | ConflictError m | DatabaseError m _ => m
  | Undefined => ""
  end.

Definition code (e : JsError) : option string :=
  match e with
  | QueryFailedError c _ => Some c
  | _ => None
  end.

Inductive Res (A : Type) :=
| Ok (a : A)
| Throw (e : JsError).
Arguments Ok {A} a.
Arguments Throw {A} e.

(** [CacheStats]: the counters, and the hit rate they give, a binary64
    number. *)
Record CacheStats := mkStats {
  hits : N;
  misses : N;
  operations : N;
  errors : N;
  retries : N;
  hitRate : spec_float;
}.

Record RetryConfig := mkRetry {
  maxRetries : Z;
  initialDelay : Z;
  backoffFactor : Z;
  maxDelay : Z;
}.

Record CacheOptions := mkOptions {
  ttl : option Z;
  prefix : option string;
  useHash : option bool;
}.

(** A call without an options argument. *)
Definition no_options : CacheOptions := mkOptions None None None.

(** [config/cache.config.ts] and [config/product.config.ts], read from the
    environment when the process starts. *)
Class Config := mkConfig {
  productTTL : Z;
  productListTTL : Z;
  defaultPage : Z;
  defaultLimit : Z;
  maxLimit : Z;
}.

(** [JSON.stringify] and [JSON.parse] at the types the cache stores; [parse]
    is [None] where [JSON.parse] throws a SyntaxError.  A text that parses
    to a value of another shape (null, a number, an object without the
    entity's properties) is outside this model: the code casts the value
    without a check. *)
Class JSON (A : Type) := mkJSON {
  stringify : A -> string;
  parse : string -> option A;
}.

(** *** The key-value backend *)

Module Backend.

Inductive value :=
| VString (s : string)
| VHash (h : gmap string string).

(** A key holds a value and, when one was set, a time to live in seconds. *)
Record entry := mkEntry {
  val : value;
  expiry : option Z;
}.

(** The commands the client sent, as a test double records them. *)
Inductive command :=
| HSET (key : string) (fields : list (string * string))
| EXPIRE (key : string) (seconds : Z)
| SETEX (key : string) (seconds : Z) (v : string)
| GET (key : string)
| HGETALL (key : string)
| DEL (keys : list string)
| SCAN (cursor : nat) (pattern : string) (count : nat).

Definition wrongtype : JsError :=
  ReplyError "WRONGTYPE Operation against a key holding the wrong kind of value".

Definition set_fields (fields : list (string * string)) (h : gmap string string)
  : gmap string string :=
  foldl (fun acc kv => <[kv.1 := kv.2]> acc) h fields.

(** HSET creates the hash when the key is absent and merges into it
    otherwise; the time to live of the key is not touched. *)
Definition hSet (key : string) (fields : list (string * string))
    (st : gmap string entry) : Res N * gmap string entry :=
  match fields with
  | [] => (Throw (ReplyError "ERR wrong number of arguments for 'hset' command"), st)
  | _ =>
      match st !! key with
      | None =>
          (Ok (N.of_nat (size (set_fields fields ∅))),
           <[key := mkEntry (VHash (set_fields fields ∅)) None]> st)
      | Some (mkEntry (VHash h) e) =>
          (Ok (N.of_nat (size (set_fields fields h) - size h)),
           <[key := mkEntry (VHash (set_fields fields h)) e]> st)
      | Some (mkEntry (VString _) _) => (Throw wrongtype, st)
      end
  end.

(** EXPIRE on a missing key does nothing; a time to live that is not
    positive deletes the key at once. *)
Definition expire (key : string) (seconds : Z) (st : gmap string entry)
  : Res bool * gmap string entry :=
  match st !! key with
  | None => (Ok false, st)
  | Some en =>
      if seconds <=? 0 then (Ok true, delete key st)
      else (Ok true, <[key := mkEntry (val en) (Some seconds)]> st)
  end.

Definition setEx (key : string) (seconds : Z) (v : string)
    (st : gmap string entry) : Res unit * gmap string entry :=
  if seconds <=? 0 then
    (Throw (ReplyError "ERR invalid expire time in 'setex' command"), st)
  else (Ok tt, <[key := mkEntry (VString v) (Some seconds)]> st).

Definition get (key : string) (st : gmap string entry) : Res (option string) :=
  match st !! key with
  | None => Ok None
  | Some (mkEntry (VString s) _) => Ok (Some s)
  | Some (mkEntry (VHash _) _) => Throw wrongtype
  end.

(** HGETALL answers the empty object for a missing key. *)
Definition hGetAll (key : string) (st : gmap string entry)
  : Res (gmap string string) :=
  match st !! key with
  | None => Ok ∅
  | Some (mkEntry (VHash h) _) => Ok h
  | Some (mkEntry (VString _) _) => Throw wrongtype
  end.

Definition present (st : gmap string entry) (key : string) : bool :=
  bool_decide (is_Some (st !! key)).

(** DEL of several keys at once; absent keys are skipped and the answer is
    the number of keys removed. *)
Definition del (keys : list string) (st : gmap string entry)
  : N * gmap string entry :=
  (N.of_nat (length (filter (fun k => is_Some (st !! k)) (remove_dups keys))),
   foldr delete st keys).

(** Glob patterns of MATCH, for the patterns the engine builds: literal
    characters, [?] and [*]. *)
Fixpoint glob (fuel : nat) (pat s : string) : bool :=
  match fuel with
  | O => false
  | S fuel' =>
      match pat with
      | EmptyString => match s with EmptyString => true | _ => false end
      | String "*" pat' =>
          glob fuel' pat' s
          || match s with String _ s' => glob fuel' pat s' | _ => false end
      | String "?" pat' =>
          match s with String _ s' => glob fuel' pat' s' | _ => false end
      | String c pat' =>
          match s with
          | String c' s' => Ascii.eqb c c' && glob fuel' pat' s'
          | _ => false
          end
      end
  end.

Definition matches (pat s : string) : bool :=
  glob (S (String.length pat + String.length s)) pat s.

(** SCAN walks the keys in the order of the map, [count] keys a call; the
    cursor is the position to resume from and 0 when the walk is over. *)
Definition scan (cursor : nat) (pat : string) (count : nat)
    (st : gmap string entry) : nat * list string :=
  let ks := (map_to_list st).*1 in
  let batch := take count (drop cursor ks) in
  let next := (cursor + count)%nat in
  ((if (next <? length ks)%nat then next else 0%nat),
   filter (fun k => matches pat k = true) batch).

End Backend.

(** *** The world *)

Inductive log_line :=
| Log (text : string)
| Warn (text : string) (cause : option JsError)
| LogError (text : string) (cause : JsError).

(** The connection flag of [RedisConnection] is set by the client's connect,
    ready, error and end events, so what [isClientConnected()] answers
    depends on when it is asked: [link n] is the answer to the [n]-th
    question, and [checks] counts the questions asked so far. *)
Record World := mkWorld {
  link : nat -> bool;                     (* RedisConnection.isClientConnected() *)
  checks : nat;
  store : gmap string Backend.entry;      (* the keys of the backend *)
  stats : CacheStats;                     (* RedisCacheService.stats *)
  now : string;                           (* new Date().toISOString() *)
  sleeps : list Z;                        (* the delays slept, oldest first *)
  console : list log_line;                (* console output, oldest first *)
  calls : list Backend.command;           (* client commands, oldest first *)
  table : list Product;                   (* the rows of the product relation *)
}.

Definition set_store (st : gmap string Backend.entry) (w : World) : World :=
  mkWorld (link w) (checks w) st (stats w) (now w) (sleeps w) (console w)
          (calls w) (table w).
Definition set_stats (s : CacheStats) (w : World) : World :=
  mkWorld (link w) (checks w) (store w) s (now w) (sleeps w) (console w)
          (calls w) (table w).
Definition add_sleep (ms : Z) (w : World) : World :=
  mkWorld (link w) (checks w) (store w) (stats w) (now w) (sleeps w ++ [ms])
          (console w) (calls w) (table w).
Definition add_line (l : log_line) (w : World) : World :=
  mkWorld (link w) (checks w) (store w) (stats w) (now w) (sleeps w)
          (console w ++ [l]) (calls w) (table w).
Definition add_call (c : Backend.command) (w : World) : World :=
  mkWorld (link w) (checks w) (store w) (stats w) (now w) (sleeps w) (console w)
          (calls w ++ [c]) (table w).
Definition set_table (t : list Product) (w : World) : World :=
  mkWorld (link w) (checks w) (store w) (stats w) (now w) (sleeps w) (console w)
          (calls w) t.
Definition asked (w : World) : World :=
  mkWorld (link w) (S (checks w)) (store w) (stats w) (now w) (sleeps w)
          (console w) (calls w) (table w).

(** What [isClientConnected()] answers now. *)
Definition connected (w : World) : bool := link w (checks w).

(** *** Computations: state passing with exceptions *)

Definition M (A : Type) : Type := World -> Res A * World.

Definition ret {A} (a : A) : M A := fun w => (Ok a, w).
Definition throw {A} (e : JsError) : M A := fun w => (Throw e, w).
Definition bind {A B} (m : M A) (k : A -> M B) : M B :=
  fun w =>
    match m w with
    | (Ok a, w') => k a w'
    | (Throw e, w') => (Throw e, w')
    end.

(** [try { m } catch (e) { handler e }] *)
Definition try_catch {A} (m : M A) (handler : JsError -> M A) : M A :=
  fun w =>
    match m w with
    | (Ok a, w') => (Ok a, w')
    | (Throw e, w') => handler e w'
    end.

Definition modify (f : World -> World) : M unit := fun w => (Ok tt, f w).
Definition lift {A} (r : Res A) : M A := fun w => (r, w).

Declare Scope js_scope.
Delimit Scope js_scope with js.
Notation "x <- m ;; k" := (bind m (fun x => k))
  (at level 100, m at next level, right associativity) : js_scope.
Notation "m ;;; k" := (bind m (fun _ => k))
  (at level 100, right associativity) : js_scope.

Definition console_log (text : string) : M unit := modify (add_line (Log text)).
Definition console_warn (text : string) (cause : option JsError) : M unit :=
  modify (add_line (Warn text cause)).
Definition console_error (text : string) (cause : JsError) : M unit :=
  modify (add_line (LogError text cause)).

(** [delay(ms)] of [utils/helpers.ts]: the sleep is recorded, not timed. *)
Definition delay (ms : Z) : M unit := modify (add_sleep ms).

(** A text between double quotes. *)
Definition quoted (s : string) : string :=
  String (ascii_of_nat 34) (s ++ String (ascii_of_nat 34) EmptyString).

Definition Z_toString (z : Z) : string := JS.toString (JS.number_of_Z z).
Definition N_toString (n : N) : string := JS.toString (JS.number_of_N n).

(** [a || b] on an optional string: the empty string is falsy too. *)
Definition or_string (a : option string) (b : string) : string :=
  match a with
  | Some s => if JS.truthy s then s else b
  | None => b
  end.

(** [a || b] on an optional number of seconds: 0 is falsy too. *)
Definition or_Z (a : option Z) (b : Z) : Z :=
  match a with
  | Some z => if z =? 0 then b else z
  | None => b
  end.

(** ** The cache engine ([RedisCacheService]) *)

Module Cache.
Section Engine.

Context `{Config} `{JSON Product} `{JSON (list Product)}.
Local Open Scope js_scope.

Definition CACHE_PREFIX : string := "product".
Definition HASH_PREFIX : string := "products_hash".
Definition LIST_PREFIX : string := "products_list".

Definition retryConfig : RetryConfig :=
  {| maxRetries := 3; initialDelay := 100; backoffFactor := 2; maxDelay := 1000 |}.

Definition initial_stats : CacheStats :=
  {| hits := 0; misses := 0; operations := 0; errors := 0; retries := 0;
     hitRate := Float64.zero |}.

Definition generateKey (key : string) (prefix : option string) : string :=
  or_string prefix CACHE_PREFIX ++ ":" ++ key.

Definition getProductTTL (customTTL : option Z) : Z := or_Z customTTL productTTL.

Definition getProductListTTL (customTTL : option Z) : Z :=
  or_Z customTTL productListTTL.

Definition generateHashKey (id : JS.number) (prefix : option string) : string :=
  or_string prefix HASH_PREFIX ++ ":" ++ JS.toString id.

(** [(hits / operations) * 100], the quotient rounded and then the product. *)
Definition rate (hits operations : N) : spec_float :=
  Float64.mul (Float64.div (Float64.of_N hits) (Float64.of_N operations))
              (Float64.of_N 100).

Definition bump (b : bool) (n : N) : N := if b then (n + 1)%N else n.

(** [updateStats(hit, error = false, retry = false)] on the counters. *)
Definition updated_stats (hit error retry : bool) (s : CacheStats) : CacheStats :=
  let operations' := (operations s + 1)%N in
  let hits' := bump hit (hits s) in
  {| hits := hits';
     misses := bump (negb hit) (misses s);
     operations := operations';
     errors := bump error (errors s);
     retries := bump retry (retries s);
     hitRate :=
       if (0 <? operations')%N then rate hits' operations' else Float64.zero |}.

Definition updateStats (hit error retry : bool) : M unit :=
  modify (fun w => set_stats (updated_stats hit error retry (stats w)) w).

(** The texts of the retry wrapper: the warning after a failed attempt and
    the error that gives up. *)
Definition retry_warning (operationName : string) (attempt : Z)
    (config : RetryConfig) (error : JsError) : string :=
  "Cache operation " ++ operationName ++ " failed, attempt "
  ++ Z_toString (attempt + 1) ++ "/" ++ Z_toString (maxRetries config + 1)
  ++ ": " ++ message error.

Definition retries_exhausted (operationName : string) (config : RetryConfig)
    (error : JsError) : JsError :=
  CacheOperationError
    ("Operation " ++ operationName ++ " failed after "
     ++ Z_toString (maxRetries config) ++ " retries: " ++ message error)
    operationName error.

(** The loop of [executeWithRetry]: [fuel] counts the iterations the
    condition [attempt <= config.maxRetries] still allows. *)
Fixpoint attempts {T} (operation : M T) (operationName : string)
    (config : RetryConfig) (fuel : nat) (attempt : Z) (delayMs : Z)
    (lastError : option JsError) : M T :=
  match fuel with
  | O => throw (default Undefined lastError)
  | S fuel' =>
      let retrying := 0 <? attempt in
      let delayMs' :=
        if retrying then Z.min (delayMs * backoffFactor config) (maxDelay config)
        else delayMs in
      try_catch
        ((if retrying then updateStats false false true ;;; delay delayMs
          else ret tt) ;;;
         operation)
        (fun error =>
           if attempt =? maxRetries config then
             updateStats false true false ;;;
             throw (retries_exhausted operationName config error)
           else
             console_warn (retry_warning operationName attempt config error) None ;;;
             attempts operation operationName config fuel' (attempt + 1)
                      delayMs' (Some error))
  end.

Definition executeWithRetry {T} (operation : M T) (operationName : string)
    (config : RetryConfig) : M T :=
  attempts operation operationName config (Z.to_nat (maxRetries config + 1)) 0
           (initialDelay config) None.

Definition ensureConnection : M unit :=
  fun w =>
    if connected w then (Ok tt, asked w)
    else (Throw (CacheConnectionError "Redis client is not connected"), asked w).

(** The client: every command is recorded and run against the store. *)
Definition client_hSet (key : string) (fields : list (string * string)) : M N :=
  fun w =>
    let '(r, st) := Backend.hSet key fields (store w) in
    (r, add_call (Backend.HSET key fields) (set_store st w)).

Definition client_expire (key : string) (seconds : Z) : M bool :=
  fun w =>
    let '(r, st) := Backend.expire key seconds (store w) in
    (r, add_call (Backend.EXPIRE key seconds) (set_store st w)).

Definition client_setEx (key : string) (seconds : Z) (v : string) : M unit :=
  fun w =>
    let '(r, st) := Backend.setEx key seconds v (store w) in
    (r, add_call (Backend.SETEX key seconds v) (set_store st w)).

Definition client_get (key : string) : M (option string) :=
  fun w => (Backend.get key (store w), add_call (Backend.GET key) w).

Definition client_hGetAll (key : string) : M (gmap string string) :=
  fun w => (Backend.hGetAll key (store w), add_call (Backend.HGETALL key) w).

Definition client_del (keys : list string) : M N :=
  fun w =>
    let '(n, st) := Backend.del keys (store w) in
    (Ok n, add_call (Backend.DEL keys) (set_store st w)).

Definition client_scan (cursor : nat) (pattern : string) (count : nat)
  : M (nat * list string) :=
  fun w =>
    (Ok (Backend.scan cursor pattern count (store w)),
     add_call (Backend.SCAN cursor pattern count) w).

Definition date_now : M string := fun w => (Ok (now w), w).

(** The [do ... while (cursor !== 0)] loop of [scanKeys]; the backend's
    cursor comes back to 0 within [fuel] rounds (one more than the number of
    keys). *)
Fixpoint scan_rounds (fuel : nat) (pattern : string) (cursor : nat)
    (keys : list string) : M (list string) :=
  match fuel with
  | O => ret keys
  | S fuel' =>
      result <- client_scan cursor pattern 100 ;;
      let keys' := (keys ++ result.2)%list in
      if (result.1 =? 0)%nat then ret keys'
      else scan_rounds fuel' pattern result.1 keys'
  end.

Definition scanKeys (pattern : string) : M (list string) :=
  fun w => scan_rounds (S (size (store w))) pattern 0 [] w.

(** A property of the hash object: [undefined] when the field is absent. *)
Definition falsy (v : option string) : bool :=
  match v with
  | Some s => negb (JS.truthy s)
  | None => true
  end.

Definition field (productHash : gmap string string) (f : string) : string :=
  default "" (productHash !! f).

Definition reconstructProductFromHash (productHash : gmap string string)
  : Res Product :=
  if falsy (productHash !! "id") || falsy (productHash !! "name")
     || falsy (productHash !! "price") || falsy (productHash !! "category")
  then Throw (Error "Invalid product hash data: missing required fields")
  else
    let id := JS.parseInt (field productHash "id") in
    let price := JS.parseFloat (field productHash "price") in
    if JS.isNaN id || JS.le0 id then
      Throw (Error "Invalid product hash data: invalid ID")
    else if JS.isNaN price || JS.lt0 price then
      Throw (Error "Invalid product hash data: invalid price")
    else
      Ok {| id := id;
            name := JS.trim (field productHash "name");
            price := price;
            category := JS.trim (field productHash "category") |}.

(** One attempt of [cacheProduct]: the function handed to the retry. *)
Definition cacheProduct_attempt (product : Product) (options : CacheOptions)
  : M unit :=
  ensureConnection ;;;
  let hash := default true (useHash options) in
  let seconds := getProductTTL (ttl options) in
  if hash then
    let hashKey := generateHashKey (id product) (prefix options) in
    cachedAt <- date_now ;;
    let productHash :=
      [("id", JS.toString (id product));
       ("name", name product);
       ("price", JS.toString (price product));
       ("category", category product);
       ("cachedAt", cachedAt)] in
    client_hSet hashKey productHash ;;;
    client_expire hashKey seconds ;;;
    console_log ("Cached product " ++ JS.toString (id product)
                 ++ " as hash with TTL " ++ Z_toString seconds ++ "s")
  else
    let key := generateKey ("single:" ++ JS.toString (id product)) (prefix options) in
    client_setEx key seconds (stringify product) ;;;
    console_log ("Cached product " ++ JS.toString (id product)
                 ++ " as string with TTL " ++ Z_toString seconds ++ "s").

Definition cacheProduct (product : Product) (options : CacheOptions) : M unit :=
  executeWithRetry (cacheProduct_attempt product options) "cacheProduct" retryConfig.

Definition getCachedProduct_attempt (id : JS.number) (options : CacheOptions)
  : M (option Product) :=
  let miss :=
    updateStats false false false ;;;
    console_log ("Cache miss for product " ++ JS.toString id) ;;;
    ret None in
  ensureConnection ;;;
  let hash := default true (useHash options) in
  if hash then
    let hashKey := generateHashKey id (prefix options) in
    productHash <- client_hGetAll hashKey ;;
    if (0 <? size productHash)%nat then
      updateStats true false false ;;;
      console_log ("Cache hit for product " ++ JS.toString id ++ " (hash)") ;;;
      product <- lift (reconstructProductFromHash productHash) ;;
      ret (Some product)
    else miss
  else
    let key := generateKey ("single:" ++ JS.toString id) (prefix options) in
    cached <- client_get key ;;
    match cached with
    | Some text =>
        if JS.truthy text then
          updateStats true false false ;;;
          console_log ("Cache hit for product " ++ JS.toString id ++ " (string)") ;;;
          match parse text with
          | Some product => ret (Some product)
          | None => throw (SyntaxError "Unexpected token in JSON")
          end
        else miss
    | None => miss
    end.

Definition getCachedProduct (id : JS.number) (options : CacheOptions)
  : M (option Product) :=
  executeWithRetry (getCachedProduct_attempt id options) "getCachedProduct"
                   retryConfig.

Definition cacheProducts_attempt (products : list Product) (cacheKey : string)
    (options : CacheOptions) : M unit :=
  ensureConnection ;;;
  let key := generateKey ("list:" ++ cacheKey) (prefix options) in
  let seconds := getProductListTTL (ttl options) in
  client_setEx key seconds (stringify products) ;;;
  console_log ("Cached " ++ N_toString (N.of_nat (length products))
               ++ " products with key " ++ quoted cacheKey ++ " TTL "
               ++ Z_toString seconds ++ "s").

Definition cacheProducts (products : list Product) (cacheKey : string)
    (options : CacheOptions) : M unit :=
  executeWithRetry (cacheProducts_attempt products cacheKey options)
                   "cacheProducts" retryConfig.

Definition getCachedProducts_attempt (cacheKey : string) (options : CacheOptions)
  : M (option (list Product)) :=
  let miss :=
    updateStats false false false ;;;
    console_log ("Cache miss for products list " ++ quoted cacheKey) ;;;
    ret None in
  ensureConnection ;;;
  let key := generateKey ("list:" ++ cacheKey) (prefix options) in
  cached <- client_get key ;;
  match cached with
  | Some text =>
      if JS.truthy text then
        updateStats true false false ;;;
        console_log ("Cache hit for products list " ++ quoted cacheKey) ;;;
        match parse text with
        | Some products => ret (Some products)
        | None => throw (SyntaxError "Unexpected token in JSON")
        end
      else miss
  | None => miss
  end.

Definition getCachedProducts (cacheKey : string) (options : CacheOptions)
  : M (option (list Product)) :=
  executeWithRetry (getCachedProducts_attempt cacheKey options)
                   "getCachedProducts" retryConfig.

Definition invalidateProduct_attempt (id : JS.number) (options : CacheOptions)
  : M unit :=
  ensureConnection ;;;
  let hashKey := generateHashKey id (prefix options) in
  let stringKey := generateKey ("single:" ++ JS.toString id) (prefix options) in
  let keysToDelete := [hashKey; stringKey] in
  deletedCount <- client_del keysToDelete ;;
  console_log ("Invalidated cache for product " ++ JS.toString id ++ ", deleted "
               ++ N_toString deletedCount ++ " keys").

Definition invalidateProduct (id : JS.number) (options : CacheOptions) : M unit :=
  executeWithRetry (invalidateProduct_attempt id options) "invalidateProduct"
                   retryConfig.

(** The [for (const pattern of patterns)] loop of [invalidateProductLists]. *)
Fixpoint delete_patterns (patterns : list string) (totalDeleted : N) : M N :=
  match patterns with
  | [] => ret totalDeleted
  | pattern :: rest =>
      keys <- scanKeys pattern ;;
      if (0 <? length keys)%nat then
        deleted <- client_del keys ;;
        delete_patterns rest (totalDeleted + deleted)%N
      else delete_patterns rest totalDeleted
  end.

Definition invalidateProductLists_attempt (options : CacheOptions) : M unit :=
  ensureConnection ;;;
  let patterns :=
    [or_string (prefix options) CACHE_PREFIX ++ ":list:*";
     or_string (prefix options) LIST_PREFIX ++ ":*"] in
  totalDeleted <- delete_patterns patterns 0%N ;;
  console_log ("Invalidated " ++ N_toString totalDeleted
               ++ " product list cache entries").

Definition invalidateProductLists (options : CacheOptions) : M unit :=
  executeWithRetry (invalidateProductLists_attempt options)
                   "invalidateProductLists" retryConfig.

(** The [updates] object of [updateProductHash], in the order its
    properties are set. *)
Definition updates_of (fields : PartialProduct) (cachedAt : string)
  : list (string * string) :=
  ((match name_opt fields with Some n => [("name", n)] | None => [] end)
   ++ (match price_opt fields with
       | Some p => [("price", JS.toString p)]
       | None => []
       end)
   ++ (match category_opt fields with Some c => [("category", c)] | None => [] end)
   ++ [("cachedAt", cachedAt)])%list.

Definition join (sep : string) (l : list string) : string := String.concat sep l.

Definition updateProductHash_attempt (id : JS.number) (fields : PartialProduct)
    (options : CacheOptions) : M unit :=
  ensureConnection ;;;
  let hashKey := generateHashKey id (prefix options) in
  cachedAt <- date_now ;;
  let updates := updates_of fields cachedAt in
  if (0 <? length updates)%nat then
    client_hSet hashKey updates ;;;
    console_log ("Updated hash fields for product " ++ JS.toString id ++ ": "
                 ++ join ", " updates.*1)
  else ret tt.

Definition updateProductHash (id : JS.number) (fields : PartialProduct)
    (options : CacheOptions) : M unit :=
  executeWithRetry (updateProductHash_attempt id fields options)
                   "updateProductHash" retryConfig.

(** [getCacheStats] returns a copy of the counters. *)
Definition getCacheStats (w : World) : CacheStats := stats w.

End Engine.
End Cache.

(** ** The catalog service ([ProductService]) *)

Module Catalog.

Record ProductCreateData := mkCreate {
  new_name : string;
  new_price : JS.number;
  new_category : string;
}.

Record ProductUpdateData := mkUpdate {
  upd_name : option string;
  upd_price : option JS.number;
  upd_category : option string;
}.

Record ProductQueryOptions := mkQuery {
  q_page : option Z;
  q_limit : option Z;
  q_category : option string;
  q_name : option string;
}.

(** What [Math.ceil(a / b)] gives on integers. *)
Inductive pages :=
| PagesNaN
| PagesInfinity (neg : bool)
| Pages (n : Z).

Definition ceil_div (a b : Z) : pages :=
  if b =? 0 then (if a =? 0 then PagesNaN else PagesInfinity (a <? 0))
  else Pages (- ((- a) / b)).

Record ProductListResponse := mkResponse {
  products : list Product;
  total : Z;
  page : Z;
  limit : Z;
  totalPages : pages;
}.

(** The query [buildProductQuery] assembles: the category to match, the
    pattern the name is compared with (ILIKE), ordered by id descending. *)
Record ProductQuery := mkSelect {
  where_category : option string;
  where_name_ilike : option string;
}.

(** The operations of the cache engine the service calls. *)
Class CacheService := mkCacheService {
  cacheProduct : Product -> CacheOptions -> M unit;
  getCachedProduct : JS.number -> CacheOptions -> M (option Product);
  cacheProducts : list Product -> string -> CacheOptions -> M unit;
  getCachedProducts : string -> CacheOptions -> M (option (list Product));
  invalidateProduct : JS.number -> CacheOptions -> M unit;
  invalidateProductLists : CacheOptions -> M unit;
  updateProductHash : JS.number -> PartialProduct -> CacheOptions -> M unit;
}.

(** The persistence collaborator (a TypeORM repository), by the calls the
    service makes: [save(create(data))], [save(product)],
    [findOne({ where: { id } })], [delete(id)] with its [affected] count, and
    [skip(..).take(..).getManyAndCount()] on a query. *)
Class Repository := mkRepository {
  repository_create_save : ProductCreateData -> M Product;
  repository_save : Product -> M Product;
  repository_findOne : JS.number -> M (option Product);
  repository_delete : JS.number -> M (option Z);
  repository_getManyAndCount : ProductQuery -> Z -> Z -> M (list Product * Z);
}.

Section Service.

Context `{Config} `{CacheService} `{Repository}.
Local Open Scope js_scope.

Definition PRODUCTS_TTL : Z := productTTL.
Definition PRODUCTS_KEY_PREFIX : string := "products".

Definition unique_violation (error : JsError) : bool :=
  bool_decide (code error = Some "23505").

Definition createProduct (data : ProductCreateData) : M Product :=
  try_catch
    (savedProduct <- repository_create_save data ;;
     try_catch
       (cacheProduct savedProduct (mkOptions None None (Some true)) ;;;
        invalidateProductLists no_options)
       (fun cacheError =>
          console_warn "Cache operation failed during product creation:"
                       (Some cacheError)) ;;;
     ret savedProduct)
    (fun error =>
       console_error "Error creating product:" error ;;;
       if unique_violation error then
         throw (ConflictError ("Product with name '" ++ new_name data
                               ++ "' already exists"))
       else
         throw (DatabaseError "Could not create product due to a database error"
                              (message error))).

Definition generateProductsCacheKey (page limit : Z) (category name : option string)
  : string :=
  PRODUCTS_KEY_PREFIX ++ ":list:" ++ Z_toString page ++ ":" ++ Z_toString limit
  ++ ":" ++ or_string category "" ++ ":" ++ or_string name "".

Definition nonempty (s : option string) : option string :=
  match s with
  | Some t => if JS.truthy t then Some t else None
  | None => None
  end.

Definition buildProductQuery (category name : option string) : ProductQuery :=
  {| where_category := nonempty category;
     where_name_ilike :=
       match nonempty name with
       | Some n => Some ("%" ++ n ++ "%")
       | None => None
       end |}.

Definition getProducts (options : ProductQueryOptions) : M ProductListResponse :=
  let page := default defaultPage (q_page options) in
  let limit := default defaultLimit (q_limit options) in
  let category := q_category options in
  let name := q_name options in
  let actualLimit := Z.min limit maxLimit in
  let skip := (page - 1) * actualLimit in
  let cacheKey := generateProductsCacheKey page actualLimit category name in
  try_catch
    (cachedResult <-
       try_catch (getCachedProducts cacheKey no_options)
         (fun cacheError =>
            console_warn "Cache read failed for product list:" (Some cacheError) ;;;
            ret None) ;;
     match cachedResult with
     | Some cached =>
         console_log "Cache hit for product list" ;;;
         ret {| products := cached;
                total := Z.of_nat (length cached);
                page := page;
                limit := actualLimit;
                totalPages := ceil_div (Z.of_nat (length cached)) actualLimit |}
     | None =>
         let queryBuilder := buildProductQuery category name in
         found <- repository_getManyAndCount queryBuilder skip actualLimit ;;
         let result :=
           {| products := found.1;
              total := found.2;
              page := page;
              limit := actualLimit;
              totalPages := ceil_div found.2 actualLimit |} in
         try_catch
           (cacheProducts found.1 cacheKey (mkOptions (Some PRODUCTS_TTL) None None) ;;;
            console_log "Cached product list")
           (fun cacheError =>
              console_warn "Cache write failed for product list:" (Some cacheError)) ;;;
         ret result
     end)
    (fun error =>
       console_error "Error getting product list:" error ;;;
       throw (DatabaseError "Could not retrieve product list due to a database error"
                            (message error))).

(** The limit and the cache key [getProducts] works with. *)
Definition actual_limit (options : ProductQueryOptions) : Z :=
  Z.min (default defaultLimit (q_limit options)) maxLimit.

Definition list_key (options : ProductQueryOptions) : string :=
  generateProductsCacheKey
    (default defaultPage (q_page options)) (actual_limit options)
    (q_category options) (q_name options).

Definition getProductById (id : JS.number) : M (option Product) :=
  try_catch
    (cachedProduct <-
       try_catch (getCachedProduct id (mkOptions None None (Some true)))
         (fun cacheError =>
            console_warn ("Cache read failed for product ID " ++ JS.toString id ++ ":")
                         (Some cacheError) ;;;
            ret None) ;;
     match cachedProduct with
     | Some cached =>
         console_log ("Cache hit for product ID: " ++ JS.toString id) ;;;
         ret (Some cached)
     | None =>
         product <- repository_findOne id ;;
         match product with
         | Some found =>
             try_catch
               (cacheProduct found (mkOptions (Some PRODUCTS_TTL) None (Some true)) ;;;
                console_log ("Cached product ID: " ++ JS.toString id))
               (fun cacheError =>
                  console_warn ("Cache write failed for product ID "
                                ++ JS.toString id ++ ":") (Some cacheError))
         | None => ret tt
         end ;;;
         ret product
     end)
    (fun error =>
       console_error "Error getting product by ID:" error ;;;
       throw (DatabaseError "Could not retrieve product due to a database error"
                            (message error))).

(** [Object.assign(product, data)] *)
Definition assign (product : Product) (data : ProductUpdateData) : Product :=
  {| id := id product;
     name := default (name product) (upd_name data);
     price := default (price product) (upd_price data);
     category := default (category product) (upd_category data) |}.

Definition updateProduct (id : JS.number) (data : ProductUpdateData)
  : M (option Product) :=
  try_catch
    (product <- repository_findOne id ;;
     match product with
     | None => ret None
     | Some found =>
         updatedProduct <- repository_save (assign found data) ;;
         try_catch
           (updateProductHash id (partial_of updatedProduct) no_options ;;;
            invalidateProductLists no_options)
           (fun cacheError =>
              console_warn "Cache operation failed during product update:"
                           (Some cacheError)) ;;;
         ret (Some updatedProduct)
     end)
    (fun error =>
       console_error "Error updating product:" error ;;;
       if unique_violation error then
         throw (ConflictError ("Product with name '"
                               ++ default "undefined" (upd_name data)
                               ++ "' already exists"))
       else
         throw (DatabaseError "Could not update product due to a database error"
                              (message error))).

Definition deleteProduct (id : JS.number) : M bool :=
  try_catch
    (affected <- repository_delete id ;;
     if match affected with Some n => 0 <? n | None => false end then
       try_catch
         (invalidateProduct id no_options ;;;
          invalidateProductLists no_options)
         (fun cacheError =>
            console_warn "Cache operation failed during product deletion:"
                         (Some cacheError)) ;;;
       ret true
     else ret false)
    (fun error =>
       console_error "Error deleting product:" error ;;;
       throw (DatabaseError "Could not delete product due to a database error"
                            (message error))).

End Service.

(** The service's cache is the engine itself. *)
#[export] Instance redis_cache `{Config} `{JSON Product} `{JSON (list Product)}
  : CacheService :=
  {| cacheProduct := Cache.cacheProduct;
     getCachedProduct := Cache.getCachedProduct;
     cacheProducts := Cache.cacheProducts;
     getCachedProducts := Cache.getCachedProducts;
     invalidateProduct := Cache.invalidateProduct;
     invalidateProductLists := Cache.invalidateProductLists;
     updateProductHash := Cache.updateProductHash |}.

End Catalog.

(** ** The retry helper of [utils/helpers.ts] *)

Module Helpers.

(** The loop of [retryWithBackoff] of [utils/helpers.ts]: [fuel] counts the
    iterations the condition [attempt <= maxRetries] still allows. *)
Fixpoint backoff_attempts {T} (fn : M T) (maxRetries initialDelay backoffFactor : Z)
    (fuel : nat) (attempt : Z) (lastError : option JsError) : M T :=
  match fuel with
  | O => throw (default Undefined lastError)
  | S fuel' =>
      try_catch fn
        (fun error =>
           if attempt =? maxRetries then throw error
           else
             let delayMs := initialDelay * backoffFactor ^ attempt in
             bind (delay delayMs)
               (fun _ => backoff_attempts fn maxRetries initialDelay backoffFactor
                           fuel' (attempt + 1) (Some error)))
  end.

Definition retryWithBackoff {T} (fn : M T) (maxRetries initialDelay backoffFactor : Z)
  : M T :=
  backoff_attempts fn maxRetries initialDelay backoffFactor
                   (Z.to_nat (maxRetries + 1)) 0 None.

End Helpers.

(** ** The vocabulary of the statements *)

(** The connection stays up. *)
Definition steady (w : World) : Prop := forall n, link w n = true.

(** Two worlds over the same backend: the same connection, keys and clock. *)
Definition same_backend (w v : World) : Prop :=
  link w = link v /\ store w = store v /\ now w = now v.

(** An operation whose failed attempts leave the backend as it was. *)
Definition keeps_backend {T} (op : M T) : Prop :=
  forall w e w', op w = (Throw e, w') -> same_backend w w'.

(** An operation whose failure, while the connection is up, is decided by
    the backend alone. *)
Definition stable {T} (op : M T) : Prop :=
  forall w e w', steady w -> op w = (Throw e, w') ->
    forall v, same_backend w v -> exists v', op v = (Throw e, v').

(** The hash a key holds; the empty object when it holds none. *)
Definition hash_at (st : gmap string Backend.entry) (key : string)
  : gmap string string :=
  match st !! key with
  | Some (Backend.mkEntry (Backend.VHash h) _) => h
  | _ => ∅
  end.

(** The value a partial update supplies for a field of the hash, if any. *)
Definition written (fields : PartialProduct) (cachedAt : string) (f : string)
  : option string :=
  if String.eqb f "cachedAt" then Some cachedAt
  else if String.eqb f "category" then category_opt fields
  else if String.eqb f "price" then JS.toString <$> price_opt fields
  else if String.eqb f "name" then name_opt fields
  else None.

(** A hash that misses a required field, or whose id does not read as a
    positive number, or whose price does not read as a number that is not
    negative. *)
Definition malformed (h : gmap string string) : bool :=
  Cache.falsy (h !! "id") || Cache.falsy (h !! "name")
  || Cache.falsy (h !! "price") || Cache.falsy (h !! "category")
  || JS.isNaN (JS.parseInt (Cache.field h "id"))
  || JS.le0 (JS.parseInt (Cache.field h "id"))
  || JS.isNaN (JS.parseFloat (Cache.field h "price"))
  || JS.lt0 (JS.parseFloat (Cache.field h "price")).

Definition invalid_hash_message (m : string) : Prop :=
  m = "Invalid product hash data: missing required fields"
  \/ m = "Invalid product hash data: invalid ID"
  \/ m = "Invalid product hash data: invalid price".

Definition is_operation_error (e : JsError) : bool :=
  match e with CacheOperationError _ _ _ => true | _ => false end.

Definition is_data_error (e : JsError) : bool :=
  match e with CacheDataError _ => true | _ => false end.

(** The bookkeeping of the retry wrapper between two attempts (the warning
    about the failed attempt, the retry counted, the sleep) and when it
    gives up. *)
Definition between (name : string) (attempt : Z) (delayMs : Z) (e : JsError)
    (w : World) : World :=
  add_sleep delayMs
    (set_stats (Cache.updated_stats false false true (stats w))
       (add_line (Warn (Cache.retry_warning name attempt Cache.retryConfig e) None) w)).

Definition gave_up (w : World) : World :=
  set_stats (Cache.updated_stats false true false (stats w)) w.

(** An operation that fails in every world: with the error [errf w], leaving
    the world [step w]. *)
Definition failing {T} (errf : World -> JsError) (step : World -> World) : M T :=
  fun w => (Throw (errf w), step w).

(** A text that does not begin with a digit. *)
Definition no_digit_ahead (s : string) : Prop :=
  match s with
  | String c _ => JS.char_digit c = None
  | EmptyString => True
  end.

(** The product under another name, and the update that supplies only a
    name. *)
Definition rename (p : Product) (n : string) : Product :=
  {| id := id p; name := n; price := price p; category := category p |}.

Definition only_name (n : string) : PartialProduct :=
  {| id_opt := None; name_opt := Some n; price_opt := None; category_opt := None |}.

(** An operation that leaves the retry counter alone. *)
Definition no_retry_count {T} (op : M T) : Prop :=
  forall w r w', op w = (r, w') -> retries (stats w') = retries (stats w).

(** The counters after [k] hits and [m] misses and nothing else. *)
Definition counted (s : CacheStats) (k m : N) : Prop :=
  hits s = k /\ misses s = m /\ operations s = (k + m)%N
  /\ errors s = 0%N /\ retries s = 0%N
  /\ hitRate s = if (k + m =? 0)%N then Float64.zero else Cache.rate k (k + m).

(** Cache reads, and the count of their outcomes: [Some (k, m, w')] when
    every read of the sequence returns, [k] of them with a hit and [m] with
    a miss. *)
Inductive read :=
| ReadProduct (id : JS.number) (options : CacheOptions)
| ReadList (cacheKey : string) (options : CacheOptions).

Section Reads.
Context `{Config} `{JSON Product} `{JSON (list Product)}.

Definition perform (r : read) (w : World) : Res bool * World :=
  match r with
  | ReadProduct i o =>
      match Cache.getCachedProduct i o w with
      | (Ok found, w') => (Ok (bool_decide (is_Some found)), w')
      | (Throw e, w') => (Throw e, w')
      end
  | ReadList k o =>
      match Cache.getCachedProducts k o w with
      | (Ok found, w') => (Ok (bool_decide (is_Some found)), w')
      | (Throw e, w') => (Throw e, w')
      end
  end.

Fixpoint tally (rs : list read) (w : World) : option (N * N * World) :=
  match rs with
  | [] => Some (0%N, 0%N, w)
  | r :: rs' =>
      match perform r w with
      | (Ok hit, w1) =>
          match tally rs' w1 with
          | Some (k, m, w') =>
              Some (if hit then (k + 1)%N else k, if hit then m else (m + 1)%N, w')
          | None => None
          end
      | (Throw _, _) => None
      end
  end.

End Reads.

(** ** The vocabulary of the further properties *)

(** The sleeps of [n] retries in a row, the first after [delayMs]. *)
Fixpoint schedule (config : RetryConfig) (n : nat) (delayMs : Z) : list Z :=
  match n with
  | O => []
  | S n' =>
      delayMs :: schedule config n' (Z.min (delayMs * backoffFactor config) (maxDelay config))
  end.

(** Worlds that differ in the record of client commands only. *)
Definition only_calls (w w' : World) : Prop :=
  link w' = link w ∧ checks w' = checks w ∧ store w' = store w
  ∧ stats w' = stats w ∧ now w' = now w ∧ sleeps w' = sleeps w
  ∧ console w' = console w ∧ table w' = table w.

(** The keys of the store that match a pattern, in the order SCAN walks. *)
Definition matching (pat : string) (st : gmap string Backend.entry) : list string :=
  filter (λ k, Backend.matches pat k = true) (map_to_list st).*1.

(** The patterns [invalidateProductLists] scans for. *)
Definition list_patterns (o : CacheOptions) : list string :=
  [or_string (prefix o) Cache.CACHE_PREFIX ++ ":list:*";
   or_string (prefix o) Cache.LIST_PREFIX ++ ":*"].

(** The counters as the engine keeps them: every operation counted is a hit
    or a miss, the errors and the retries are among the misses, and the hit
    rate is that of the counters as they are now: the binary64 number
    [(hits / operations) * 100], and 0 while nothing is counted. *)
Definition coherent (s : CacheStats) : Prop :=
  operations s = (hits s + misses s)%N
  ∧ (errors s + retries s ≤ misses s)%N
  ∧ hitRate s
    = if (operations s =? 0)%N then Float64.zero
      else Float64.mul (Float64.div (Float64.of_N (hits s)) (Float64.of_N (operations s)))
                       (Float64.of_N 100).

(** An operation that touches the counters only to count hits and misses. *)
Definition counts_only {T} (op : M T) : Prop :=
  ∀ P : CacheStats → Prop,
    (∀ hit s, P s → P (Cache.updated_stats hit false false s)) →
    ∀ w r w', op w = (r, w') → P (stats w) → P (stats w').

(** A property of the counters that every update of the engine keeps. *)
Definition kept (P : CacheStats → Prop) : Prop :=
  (∀ hit s, P s → P (Cache.updated_stats hit false false s))
  ∧ (∀ s, P s → P (Cache.updated_stats false false true s))
  ∧ (∀ s, P s → P (Cache.updated_stats false true false s)).

(** The calls of the engine's public operations. *)
Inductive request :=
| CacheProduct (product : Product) (options : CacheOptions)
| GetCachedProduct (id : JS.number) (options : CacheOptions)
| CacheProducts (products : list Product) (cacheKey : string) (options : CacheOptions)
| GetCachedProducts (cacheKey : string) (options : CacheOptions)
| InvalidateProduct (id : JS.number) (options : CacheOptions)
| InvalidateProductLists (options : CacheOptions)
| UpdateProductHash (id : JS.number) (fields : PartialProduct) (options : CacheOptions).

Definition method (r : request) : string :=
  match r with
  | CacheProduct _ _ => "cacheProduct"
  | GetCachedProduct _ _ => "getCachedProduct"
  | CacheProducts _ _ _ => "cacheProducts"
  | GetCachedProducts _ _ => "getCachedProducts"
  | InvalidateProduct _ _ => "invalidateProduct"
  | InvalidateProductLists _ => "invalidateProductLists"
  | UpdateProductHash _ _ _ => "updateProductHash"
  end.

(** What a call raised, if anything, and the world it left. *)
Definition outcome {A} (x : Res A * World) : option JsError * World :=
  match x with
  | (Ok _, w) => (None, w)
  | (Throw e, w) => (Some e, w)
  end.

Section Requests.
Context `{Config} `{JSON Product} `{JSON (list Product)}.

Definition call (r : request) (w : World) : option JsError * World :=
  match r with
  | CacheProduct p o => outcome (Cache.cacheProduct p o w)
  | GetCachedProduct i o => outcome (Cache.getCachedProduct i o w)
  | CacheProducts l k o => outcome (Cache.cacheProducts l k o w)
  | GetCachedProducts k o => outcome (Cache.getCachedProducts k o w)
  | InvalidateProduct i o => outcome (Cache.invalidateProduct i o w)
  | InvalidateProductLists o => outcome (Cache.invalidateProductLists o w)
  | UpdateProductHash i f o => outcome (Cache.updateProductHash i f o w)
  end.

Fixpoint session (rs : list request) (w : World) : World :=
  match rs with
  | [] => w
  | r :: rs' => session rs' (call r w).2
  end.

(** One attempt of a call: the function the operation hands to
    [executeWithRetry]. *)
Definition attempt (r : request) (w : World) : option JsError * World :=
  match r with
  | CacheProduct p o => outcome (Cache.cacheProduct_attempt p o w)
  | GetCachedProduct i o => outcome (Cache.getCachedProduct_attempt i o w)
  | CacheProducts l k o => outcome (Cache.cacheProducts_attempt l k o w)
  | GetCachedProducts k o => outcome (Cache.getCachedProducts_attempt k o w)
  | InvalidateProduct i o => outcome (Cache.invalidateProduct_attempt i o w)
  | InvalidateProductLists o => outcome (Cache.invalidateProductLists_attempt o w)
  | UpdateProductHash i f o => outcome (Cache.updateProductHash_attempt i f o w)
  end.

End Requests.

(** An operation that asks once whether the client is connected. *)
Definition asks_once {T} (op : M T) : Prop :=
  ∀ w r w', op w = (r, w') → checks w' = S (checks w).

(** A text without the characters a glob pattern gives a meaning to: the
    star, the question mark, the brackets and the backslash. *)
Fixpoint plain (s : string) : bool :=
  match s with
  | EmptyString => true
  | String c r =>
      negb (Ascii.eqb c "*") && negb (Ascii.eqb c "?") && negb (Ascii.eqb c "[")
      && negb (Ascii.eqb c "]") && negb (Ascii.eqb c (ascii_of_nat 92)) && plain r
  end.

(** Options whose prefix, if they have one, is such a text. *)
Definition plain_prefix (o : CacheOptions) : Prop :=
  ∀ p, prefix o = Some p → plain p = true.

(** A text without a colon. *)
Fixpoint colon_free (s : string) : bool :=
  match s with
  | EmptyString => true
  | String c r => negb (Ascii.eqb c ":") && colon_free r
  end.

(** A computation that leaves the backend of the cache alone. *)
Definition beside_cache {A} (m : M A) : Prop :=
  ∀ w r w', m w = (r, w') → same_backend w w'.

(** The options the catalog service reads a product with. *)
Definition by_id : CacheOptions := mkOptions None None (Some true).

(** The sleeps of [n] retries of [retryWithBackoff], the first of them the
    retry number [attempt]. *)
Fixpoint powers (initialDelay backoffFactor : Z) (n : nat) (attempt : Z) : list Z :=
  match n with
  | O => []
  | S n' =>
      initialDelay * backoffFactor ^ attempt
      :: powers initialDelay backoffFactor n' (attempt + 1)
  end.

(** ** Fixtures: a configuration, a JSON codec and a repository to run the
    services on *)

Module Fixture.

(** The values the configuration falls back to when the environment sets
    none. *)
#[export] Instance defaults : Config :=
  {| productTTL := 60; productListTTL := 300;
     defaultPage := 1; defaultLimit := 10; maxLimit := 100 |}.

(** *** JSON text of products, in the layout [JSON.stringify] writes: no
    blanks, the properties in the order of the entity. *)

Definition quote_char : ascii := ascii_of_nat 34.
Definition backslash : ascii := ascii_of_nat 92.

Fixpoint escape (s : string) : string :=
  match s with
  | EmptyString => EmptyString
  | String c r =>
      if Ascii.eqb c quote_char || Ascii.eqb c backslash
      then String backslash (String c (escape r))
      else String c (escape r)
  end.

Definition json_string (s : string) : string :=
  String quote_char (escape s ++ String quote_char EmptyString).

Definition json_product (p : Product) : string :=
  "{" ++ json_string "id" ++ ":" ++ JS.toString (id p)
  ++ "," ++ json_string "name" ++ ":" ++ json_string (name p)
  ++ "," ++ json_string "price" ++ ":" ++ JS.toString (price p)
  ++ "," ++ json_string "category" ++ ":" ++ json_string (category p) ++ "}".

Definition json_products (l : list Product) : string :=
  "[" ++ String.concat "," (map json_product l) ++ "]".

Definition expect (lit s : string) : option string :=
  if String.prefix lit s
  then Some (String.substring (String.length lit)
                              (String.length s - String.length lit) s)
  else None.

(** The text of a string literal after its opening quote, and what follows
    the closing quote. *)
Fixpoint read_chars (s : string) : option (string * string) :=
  match s with
  | EmptyString => None
  | String c r =>
      if Ascii.eqb c quote_char then Some (EmptyString, r)
      else if Ascii.eqb c backslash then
        match r with
        | String c' r' =>
            match read_chars r' with
            | Some (t, rest) => Some (String c' t, rest)
            | None => None
            end
        | EmptyString => None
        end
      else
        match read_chars r with
        | Some (t, rest) => Some (String c t, rest)
        | None => None
        end
  end.

Definition read_string (s : string) : option (string * string) :=
  match s with
  | String c r => if Ascii.eqb c quote_char then read_chars r else None
  | EmptyString => None
  end.

Definition number_char (c : ascii) : bool :=
  match JS.char_digit c with
  | Some _ => true
  | None =>
      Ascii.eqb c "-" || Ascii.eqb c "+" || Ascii.eqb c "." || Ascii.eqb c "e"
      || Ascii.eqb c "E"
  end.

Fixpoint read_number_text (s : string) : string * string :=
  match s with
  | String c r =>
      if number_char c
      then let '(t, rest) := read_number_text r in (String c t, rest)
      else (EmptyString, s)
  | EmptyString => (EmptyString, s)
  end.

Definition read_product (s : string) : option (Product * string) :=
  s1 ← expect ("{" ++ json_string "id" ++ ":") s;
  let '(i, s2) := read_number_text s1 in
  s3 ← expect ("," ++ json_string "name" ++ ":") s2;
  '(n, s4) ← read_string s3;
  s5 ← expect ("," ++ json_string "price" ++ ":") s4;
  let '(p, s6) := read_number_text s5 in
  s7 ← expect ("," ++ json_string "category" ++ ":") s6;
  '(c, s8) ← read_string s7;
  s9 ← expect "}" s8;
  Some (mkProduct (JS.parseFloat i) n (JS.parseFloat p) c, s9).

Fixpoint read_products (fuel : nat) (s : string) : option (list Product * string) :=
  match fuel with
  | O => None
  | S fuel' =>
      '(p, s1) ← read_product s;
      match s1 with
      | String "," s2 =>
          '(l, s3) ← read_products fuel' s2; Some (p :: l, s3)
      | _ => Some ([p], s1)
      end
  end.

#[export] Instance product_json : JSON Product :=
  {| stringify := json_product;
     parse := fun s =>
       match read_product s with
       | Some (p, EmptyString) => Some p
       | _ => None
       end |}.

#[export] Instance products_json : JSON (list Product) :=
  {| stringify := json_products;
     parse := fun s =>
       match s with
       | String "[" (String "]" EmptyString) => Some []
       | String "[" r =>
           match read_products (String.length r) r with
           | Some (l, String "]" EmptyString) => Some l
           | _ => None
           end
       | _ => None
       end |}.

(** The service's cache is the engine, over this codec. *)
#[export] Existing Instance Catalog.redis_cache.

(** *** A repository over the rows of the world's table *)

Definition next_id (rows : list Product) : JS.number :=
  JS.number_of_N (N.of_nat (S (length rows))).

Definition same_id (i : JS.number) (p : Product) : bool :=
  String.eqb (JS.toString (id p)) (JS.toString i).

Definition contains (needle hay : string) : bool :=
  match String.index 0 needle hay with
  | Some _ => true
  | None => match needle with EmptyString => true | _ => false end
  end.

Definition selects (q : Catalog.ProductQuery) (p : Product) : bool :=
  match Catalog.where_category q with
  | Some c => String.eqb c (category p)
  | None => true
  end
  && match Catalog.where_name_ilike q with
     | Some pat =>
         contains (String.substring 1 (String.length pat - 2) pat) (name p)
     | None => true
     end.

#[export] Instance table_repository : Catalog.Repository :=
  {| Catalog.repository_create_save := fun data w =>
       let p := mkProduct (next_id (table w)) (Catalog.new_name data)
                          (Catalog.new_price data) (Catalog.new_category data) in
       (Ok p, set_table (table w ++ [p]) w);
     Catalog.repository_save := fun p w =>
       (Ok p, set_table (map (fun r => if same_id (id p) r then p else r) (table w)) w);
     Catalog.repository_findOne := fun i w =>
       (Ok (List.find (same_id i) (table w)), w);
     Catalog.repository_delete := fun i w =>
       let kept := List.filter (fun r => negb (same_id i r)) (table w) in
       (Ok (Some (Z.of_nat (length (table w) - length kept))), set_table kept w);
     Catalog.repository_getManyAndCount := fun q skip take_ w =>
       let found := rev (List.filter (selects q) (table w)) in
       (Ok (take (Z.to_nat take_) (drop (Z.to_nat skip) found),
            Z.of_nat (length found)), w) |}.


(** *** Sample data *)

Definition digits_of_nat (n : nat) : list JS.digit := JS.digits_of_N (N.of_nat n).

(** The product of the unit tests: id 1, price 99.99. *)
Definition mockProduct : Product :=
  {| id := JS.Finite false [JS.d1] 1;
     name := "Test Product";
     price := JS.Finite false [JS.d9; JS.d9; JS.d9; JS.d9] 2;
     category := "Electronics" |}.

(** A product whose id is 10^21. *)
Definition hugeProduct : Product :=
  {| id := JS.Finite false [JS.d1] 22;
     name := "Test Product";
     price := JS.Finite false [JS.d9; JS.d9; JS.d9; JS.d9] 2;
     category := "Electronics" |}.

Definition empty_stats : CacheStats := Cache.initial_stats.

(** A service over an empty backend whose connection stays up; the same with
    the connection down; and with a connection that is down for the first
    two checks and up from the third. *)
Definition fresh : World :=
  {| link := fun _ => true; checks := 0; store := ∅; stats := empty_stats;
     now := "2024-01-01T00:00:00.000Z"; sleeps := []; console := [];
     calls := []; table := [] |}.

Definition offline : World :=
  {| link := fun _ => false; checks := 0; store := ∅; stats := empty_stats;
     now := "2024-01-01T00:00:00.000Z"; sleeps := []; console := [];
     calls := []; table := [] |}.

Definition flaky : World :=
  {| link := fun n => (2 <=? n)%nat; checks := 0; store := ∅; stats := empty_stats;
     now := "2024-01-01T00:00:00.000Z"; sleeps := []; console := [];
     calls := []; table := [] |}.

(** A backend whose hash for product 1 carries the id [abc]. *)
Definition corrupted_hash : gmap string string :=
  Backend.set_fields
    [("id", "abc"); ("name", "Test Product"); ("price", "99.99");
     ("category", "Electronics")] ∅.

Definition corrupted : World :=
  set_store
    {[ "products_hash:1" := Backend.mkEntry (Backend.VHash corrupted_hash) (Some 60) ]}
    fresh.

(** The backend after [mockProduct] was cached, and after its hash was then
    renamed. *)
Definition cached : World :=
  (Cache.cacheProduct mockProduct no_options fresh).2.

Definition renamed : World :=
  (Cache.updateProductHash (id mockProduct) (only_name "X") no_options cached).2.

(** Three reads of the cache: a product that is cached, one that is not, and
    a list that is not. *)
Definition three_reads : list read :=
  [ReadProduct (id mockProduct) no_options;
   ReadProduct (JS.Finite false [JS.d2] 1) no_options;
   ReadList "products:list:1:10::" no_options].

Definition after_reads : World :=
  match tally three_reads cached with
  | Some (_, _, w) => w
  | None => cached
  end.

(** A catalog of three products, asked for two products a page: before the
    first list query and after it. *)
Definition widget (n : JS.digit) (title : string) : Product :=
  {| id := JS.Finite false [n] 1; name := title;
     price := JS.Finite false [JS.d5] 1; category := "Tools" |}.

Definition stocked : World :=
  set_table [widget JS.d1 "Hammer"; widget JS.d2 "Saw"; widget JS.d3 "Drill"] fresh.

Definition two_a_page : Catalog.ProductQueryOptions :=
  {| Catalog.q_page := Some 1; Catalog.q_limit := Some 2;
     Catalog.q_category := None; Catalog.q_name := None |}.

Definition listed : World := (Catalog.getProducts two_a_page stocked).2.

Definition widget_data : Catalog.ProductCreateData :=
  {| Catalog.new_name := "Widget";
     Catalog.new_price := JS.Finite false [JS.d9; JS.d9; JS.d9] 1;
     Catalog.new_category := "Tools" |}.

(** *** Samples for the further properties *)

(** A policy of five retries whose delays reach the cap. *)
Definition patient : RetryConfig :=
  {| maxRetries := 5; initialDelay := 300; backoffFactor := 3; maxDelay := 1000 |}.

(** Options: the string representation, a prefix of the caller's, a time to
    live of 0. *)
Definition as_string : CacheOptions := mkOptions None None (Some false).
Definition in_shop : CacheOptions := mkOptions None (Some "shop") None.
Definition no_ttl : CacheOptions := mkOptions (Some 0) None None.

(** The id 1, the product of the catalog that has it, and that product
    renamed. *)
Definition one : JS.number := JS.Finite false [JS.d1] 1.
Definition hammer : Product := widget JS.d1 "Hammer".
Definition mallet : Product := widget JS.d1 "Mallet".

(** The backend after [mockProduct] was cached as a string, after it was
    cached under the prefix, after the product 1 of the catalog was
    requested, and after a list was cached. *)
Definition written_as_string : World := (Cache.cacheProduct mockProduct as_string fresh).2.
Definition shelved : World := (Cache.cacheProduct mockProduct in_shop fresh).2.
Definition served : World := (Catalog.getProductById one stocked).2.
Definition mock_list : World :=
  (Cache.cacheProducts [mockProduct] "products:list:1:10::" no_options fresh).2.

(** The update that renames a product. *)
Definition to_mallet : Catalog.ProductUpdateData :=
  {| Catalog.upd_name := Some "Mallet"; Catalog.upd_price := None;
     Catalog.upd_category := None |}.

(** A repository whose every call is refused with the error [e], and the
    error of a unique violation. *)
Definition refusing (e : JsError) : Catalog.Repository :=
  {| Catalog.repository_create_save := fun _ w => (Throw e, w);
     Catalog.repository_save := fun _ w => (Throw e, w);
     Catalog.repository_findOne := fun _ w => (Throw e, w);
     Catalog.repository_delete := fun _ w => (Throw e, w);
     Catalog.repository_getManyAndCount := fun _ _ _ w => (Throw e, w) |}.

Definition taken : JsError :=
  QueryFailedError "23505" "duplicate key value violates unique constraint".

(** One call of each operation of the engine, and a read that misses. *)
Definition busy_day : list request :=
  [CacheProduct mockProduct no_options;
   GetCachedProduct (id mockProduct) no_options;
   GetCachedProduct (JS.Finite false [JS.d2] 1) no_options;
   UpdateProductHash (id mockProduct) (only_name "X") no_options;
   GetCachedProducts "products:list:1:10::" no_options;
   CacheProducts [mockProduct] "products:list:1:10::" no_options;
   InvalidateProductLists no_options;
   InvalidateProduct (id mockProduct) no_options].

End Fixture.

(** * Properties *)

(** ** Reading back what [toString] prints *)

Lemma char_digit_digit_char d : JS.char_digit (JS.digit_char d) = Some d.
Proof. by destruct d. Qed.

Lemma read_digits_app ds rest :
  no_digit_ahead rest →
  JS.read_digits (JS.string_of_digits ds ++ rest) = (ds, rest).
Proof.
  intros Hrest. induction ds as [|d ds IH]; simpl.
  - destruct rest as [|c r]; simpl in *; [done | by rewrite Hrest].
  - by rewrite char_digit_digit_char, IH.
Qed.

Lemma read_digits_all ds : JS.read_digits (JS.string_of_digits ds) = (ds, "").
Proof.
  induction ds as [|d ds IH]; simpl; [done |].
  by rewrite char_digit_digit_char, IH.
Qed.

Lemma string_of_digits_app ds1 ds2 :
  JS.string_of_digits (ds1 ++ ds2)
  = JS.string_of_digits ds1 ++ JS.string_of_digits ds2.
Proof. induction ds1 as [|d ds1 IH]; simpl; [done | by rewrite IH]. Qed.

Lemma digits_uint_uint_digits u : JS.digits_uint (JS.uint_digits u) = u.
Proof. induction u; simpl; congruence. Qed.

Lemma N_of_digits_of_N n : JS.N_of_digits (JS.digits_of_N n) = n.
Proof.
  unfold JS.N_of_digits, JS.digits_of_N.
  rewrite digits_uint_uint_digits. apply DecimalN.Unsigned.of_to.
Qed.

Lemma drop_zeros_pad a ds : JS.drop_zeros (repeat JS.d0 a ++ ds) = JS.drop_zeros ds.
Proof. induction a; simpl; auto. Qed.

Lemma drop_zeros_head d ds : JS.is_d0 d = false → JS.drop_zeros (d :: ds) = d :: ds.
Proof. by destruct d. Qed.

Lemma canonical_inv sig :
  JS.canonical sig = true →
  ∃ d ds, sig = d :: ds ∧ JS.is_d0 d = false ∧ JS.is_d0 (List.last sig JS.d1) = false.
Proof.
  destruct sig as [|d ds]; simpl; [done |].
  intros [H1 H2]%andb_prop. exists d, ds.
  by rewrite !negb_true_iff in *.
Qed.

Lemma rev_head_last {A} (c : A) l : ∃ r, rev (c :: l) = List.last (c :: l) c :: r.
Proof.
  destruct (exists_last (l := c :: l)) as (l' & x & E); [done |].
  rewrite E, rev_app_distr, last_last. simpl. eauto.
Qed.

Lemma last_cons_default {A} (x : A) l d d' :
  List.last (x :: l) d = List.last (x :: l) d'.
Proof. revert x. induction l as [|y l IH]; intros x; [done |]. exact (IH y). Qed.

Lemma drop_trailing_zeros_pad sig b :
  JS.canonical sig = true →
  JS.drop_trailing_zeros (sig ++ repeat JS.d0 b) = sig.
Proof.
  intros (d & ds & -> & _ & Hl)%canonical_inv.
  unfold JS.drop_trailing_zeros.
  rewrite rev_app_distr, rev_repeat, drop_zeros_pad.
  destruct (rev_head_last d ds) as [r Er].
  rewrite Er, drop_zeros_head by (by rewrite (last_cons_default d ds d JS.d1)).
  by rewrite <- Er, rev_involutive.
Qed.

(** Zeros before and after the significant digits do not change the number. *)
Lemma make_number_pad neg a sig b pt :
  JS.canonical sig = true →
  JS.make_number neg (repeat JS.d0 a ++ sig ++ repeat JS.d0 b) pt
  = JS.Finite neg sig (pt - Z.of_nat a).
Proof.
  intros Hc. unfold JS.make_number.
  rewrite drop_zeros_pad.
  destruct (canonical_inv _ Hc) as (d & ds & -> & Hd & _).
  rewrite <- app_comm_cons, drop_zeros_head by done.
  rewrite app_comm_cons, drop_trailing_zeros_pad by done.
  f_equal. rewrite !length_app, repeat_length. simpl. lia.
Qed.

Lemma make_number_canonical neg sig pt :
  JS.canonical sig = true → JS.make_number neg sig pt = JS.Finite neg sig pt.
Proof.
  intros Hc. pose proof (make_number_pad neg 0 sig 0 pt Hc) as E.
  simpl in E. rewrite app_nil_r in E. rewrite E. f_equal. lia.
Qed.

Lemma append_empty_l (s : string) : "" ++ s = s.
Proof. reflexivity. Qed.

Lemma read_exponent_string e :
  JS.read_exponent (String "e" (JS.exponent_string e)) = e.
Proof.
  unfold JS.exponent_string.
  assert (Hv : Z.of_N (JS.N_of_digits (JS.digits_of_N (Z.abs_N e))) = Z.abs e).
  { rewrite N_of_digits_of_N. lia. }
  destruct (Z.ltb_spec e 0); simpl; rewrite append_empty_l, read_digits_all;
    destruct (JS.digits_of_N (Z.abs_N e)) eqn:E;
    solve [ unfold JS.N_of_digits in Hv; simpl in Hv; lia | lia ].
Qed.

(** The printed digits begin with a digit. *)
Lemma digits_toString_head sig pt :
  JS.canonical sig = true →
  ∃ d r, JS.digits_toString sig pt = String (JS.digit_char d) r.
Proof.
  intros (d & ds & -> & _ & _)%canonical_inv. unfold JS.digits_toString.
  repeat case_match; simpl; eauto.
  - destruct (Z.to_nat pt) eqn:E; [|simpl; eauto].
    apply andb_prop in H0 as [?%Z.ltb_lt _]. lia.
  - exists JS.d0. eauto.
Qed.

Lemma no_infinity d r : String.prefix "Infinity" (String (JS.digit_char d) r) = false.
Proof. by destruct d. Qed.

(** How [read_decimal] splits a literal: integer part, fraction, exponent. *)
Lemma read_decimal_parts neg s ip s1 fp s2 :
  String.prefix "Infinity" s = false →
  JS.read_digits s = (ip, s1) →
  match s1 with String "." r => JS.read_digits r | _ => ([], s1) end = (fp, s2) →
  (ip ++ fp)%list ≠ [] →
  JS.read_decimal neg s
  = JS.make_number neg (ip ++ fp) (Z.of_nat (length ip) + JS.read_exponent s2).
Proof.
  intros Hinf Hip Hfp Hne. unfold JS.read_decimal.
  rewrite Hinf, Hip, Hfp. by destruct ip, fp.
Qed.

Lemma digits_toString_no_infinity sig pt :
  JS.canonical sig = true →
  String.prefix "Infinity" (JS.digits_toString sig pt) = false.
Proof.
  intros Hc. destruct (digits_toString_head sig pt Hc) as (d & r & ->).
  apply no_infinity.
Qed.

(** [read_decimal] reads the digits [digits_toString] printed. *)
Lemma read_decimal_digits_toString neg sig pt :
  JS.canonical sig = true →
  JS.read_decimal neg (JS.digits_toString sig pt) = JS.Finite neg sig pt.
Proof.
  intros Hc.
  pose proof (digits_toString_no_infinity sig pt Hc) as Hinf.
  destruct (canonical_inv _ Hc) as (d0 & ds0 & Esig & _).
  assert (Hlen : (0 < length sig)%nat) by (rewrite Esig; simpl; lia).
  assert (Hne : sig ≠ []) by (rewrite Esig; done).
  clear d0 ds0 Esig.
  revert Hinf. unfold JS.digits_toString.
  destruct ((Z.of_nat (length sig) <=? pt) && (pt <=? 21)) eqn:H1; intros Hinf.
  { (* an integer: the digits, then zeros *)
    apply andb_prop in H1 as [H1%Z.leb_le H2].
    set (b := Z.to_nat (pt - Z.of_nat (length sig))) in *.
    rewrite (read_decimal_parts neg _ (sig ++ repeat JS.d0 b) "" [] "").
    - rewrite app_nil_r. pose proof (make_number_pad neg 0 sig b) as M.
      cbn [repeat app] in M. rewrite M by done. f_equal.
      rewrite length_app, repeat_length. simpl. lia.
    - done.
    - unfold JS.zeros. by rewrite <- string_of_digits_app, read_digits_all.
    - done.
    - rewrite app_nil_r. destruct sig; done. }
  destruct ((0 <? pt) && (pt <=? 21)) eqn:H2.
  { (* the point inside the digits *)
    apply andb_prop in H2 as [H2%Z.ltb_lt H3].
    apply andb_false_iff in H1 as [H1%Z.leb_gt | H1]; [| congruence].
    erewrite (read_decimal_parts neg _ (take (Z.to_nat pt) sig) _
               (drop (Z.to_nat pt) sig) "").
    - rewrite take_drop, make_number_canonical by done. f_equal.
      rewrite length_take. simpl. lia.
    - done.
    - by rewrite read_digits_app.
    - simpl. apply read_digits_all.
    - by rewrite take_drop. }
  destruct ((-6 <? pt) && (pt <=? 0)) eqn:H3.
  { (* zeros after the point, then the digits *)
    apply andb_prop in H3 as [H3%Z.ltb_lt H4%Z.leb_le].
    erewrite (read_decimal_parts neg _ [JS.d0] _
               (repeat JS.d0 (Z.to_nat (- pt)) ++ sig) "").
    - pose proof (make_number_pad neg (S (Z.to_nat (- pt))) sig 0) as M.
      rewrite app_nil_r in M. cbn [repeat app] in M. cbn [app].
      rewrite M by done. f_equal. simpl. lia.
    - done.
    - reflexivity.
    - simpl. unfold JS.zeros.
      by rewrite <- string_of_digits_app, read_digits_all.
    - done. }
  (* exponent notation *)
  destruct sig as [|d [|d' ds]]; [done | |].
  - rewrite (read_decimal_parts neg _ [d] (String "e" (JS.exponent_string (pt - 1)))
               [] (String "e" (JS.exponent_string (pt - 1)))).
    + rewrite read_exponent_string, make_number_canonical by done.
      f_equal. simpl. lia.
    + done.
    + simpl. by rewrite char_digit_digit_char.
    + done.
    + done.
  - erewrite (read_decimal_parts neg _ [d] _ (d' :: ds)
               (String "e" (JS.exponent_string (pt - 1)))).
    + rewrite read_exponent_string. cbn [app].
      rewrite make_number_canonical by done. f_equal. simpl. lia.
    + done.
    + simpl. by rewrite char_digit_digit_char.
    + simpl. apply (read_digits_app (d' :: ds)). done.
    + done.
Qed.

Lemma digit_not_whitespace d : JS.is_whitespace (JS.digit_char d) = false.
Proof. by destruct d. Qed.

Lemma read_sign_digit d r :
  JS.read_sign (String (JS.digit_char d) r) = (false, String (JS.digit_char d) r).
Proof. by destruct d. Qed.

(** Printing a number and reading it with [parseFloat] gives the number. *)
Lemma parseFloat_toString x :
  JS.wf_number x = true → JS.parseFloat (JS.toString x) = x.
Proof.
  destruct x as [|neg| |neg sig pt]; simpl; intros Hc;
    [done | by destruct neg | done |].
  unfold JS.parseFloat. destruct neg; simpl.
  - by apply read_decimal_digits_toString.
  - rewrite append_empty_l.
    destruct (digits_toString_head sig pt Hc) as (d & r & E). rewrite E.
    simpl. rewrite digit_not_whitespace, read_sign_digit, <- E.
    by apply read_decimal_digits_toString.
Qed.

Lemma read_integer_digits neg d ds :
  JS.is_d0 d = false →
  JS.read_integer neg (JS.string_of_digits (d :: ds))
  = JS.make_number neg (d :: ds) (Z.of_nat (length (d :: ds))).
Proof.
  intros Hd. unfold JS.read_integer.
  rewrite read_digits_all.
  by destruct d.
Qed.

(** Printing a positive integer below 10^21 and reading it with [parseInt]
    gives the integer. *)
Lemma parseInt_toString x :
  JS.positive_integer x = true → JS.below_1e21 x = true →
  JS.parseInt (JS.toString x) = x.
Proof.
  destruct x as [|neg| |[] sig pt]; simpl; try done.
  intros [Hc Hk%Z.leb_le]%andb_prop Hpt.
  unfold JS.parseInt, JS.digits_toString. simpl.
  rewrite append_empty_l.
  apply Z.leb_le in Hk as Hk'. rewrite Hk', Hpt. simpl.
  unfold JS.zeros. rewrite <- string_of_digits_app.
  destruct (canonical_inv _ Hc) as (d & ds & E & Hd & _).
  set (b := Z.to_nat (pt - Z.of_nat (length sig))).
  assert (Es : (sig ++ repeat JS.d0 b)%list = d :: (ds ++ repeat JS.d0 b)%list)
    by (by rewrite E).
  rewrite Es. cbn [JS.string_of_digits JS.skip_whitespace].
  rewrite digit_not_whitespace, read_sign_digit.
  change (String (JS.digit_char d) (JS.string_of_digits (ds ++ repeat JS.d0 b)))
    with (JS.string_of_digits (d :: (ds ++ repeat JS.d0 b)%list)).
  rewrite read_integer_digits by done. rewrite <- Es.
  pose proof (make_number_pad false 0 sig b) as M. cbn [repeat app] in M.
  rewrite M by done. f_equal.
  rewrite length_app, repeat_length. subst b. simpl. lia.
Qed.

Lemma string_rev_involutive s : JS.string_rev (JS.string_rev s) = s.
Proof.
  unfold JS.string_rev.
  by rewrite list_ascii_of_string_of_list_ascii, rev_involutive,
    string_of_list_ascii_of_string.
Qed.

(** [trim] leaves a string with no white space at its ends as it is. *)
Lemma trim_trimmed s : JS.trimmed s = true → JS.trim s = s.
Proof.
  unfold JS.trimmed, JS.trim. intros Ht.
  destruct s as [|c r]; [done |]. cbn [list_ascii_of_string] in Ht.
  apply andb_prop in Ht as [Hc%negb_true_iff Hl%negb_true_iff].
  cbn [JS.skip_whitespace]. rewrite Hc.
  assert (E : JS.skip_whitespace (JS.string_rev (String c r))
              = JS.string_rev (String c r)).
  { unfold JS.string_rev. cbn [list_ascii_of_string].
    destruct (rev_head_last c (list_ascii_of_string r)) as [t Et].
    rewrite Et. cbn [string_of_list_ascii JS.skip_whitespace]. by rewrite Hl. }
  rewrite E. apply string_rev_involutive.
Qed.

(** ** The retry wrapper *)

Lemma same_backend_refl w : same_backend w w.
Proof. done. Qed.

Lemma same_backend_trans w v u :
  same_backend w v → same_backend v u → same_backend w u.
Proof. intros (?&?&?) (?&?&?). repeat split; congruence. Qed.

Lemma between_backend name a d e w : same_backend w (between name a d e w).
Proof. done. Qed.

Lemma steady_same_backend w v : steady w → same_backend w v → steady v.
Proof. intros Hs (E & _) n. rewrite <- E. apply Hs. Qed.

Section Retry.
Context {T : Type} (op : M T) (name : string).

(** One iteration of the loop. *)
Lemma attempts_unfold cfg fuel attempt delayMs last w :
  Cache.attempts op name cfg (S fuel) attempt delayMs last w
  = let w0 :=
      if 0 <? attempt
      then add_sleep delayMs
             (set_stats (Cache.updated_stats false false true (stats w)) w)
      else w in
    match op w0 with
    | (Ok a, w') => (Ok a, w')
    | (Throw e, w') =>
        if attempt =? maxRetries cfg
        then (Throw (Cache.retries_exhausted name cfg e), gave_up w')
        else Cache.attempts op name cfg fuel (attempt + 1)
               (if 0 <? attempt
                then Z.min (delayMs * backoffFactor cfg) (maxDelay cfg)
                else delayMs)
               (Some e)
               (add_line (Warn (Cache.retry_warning name attempt cfg e) None) w')
    end.
Proof.
  cbn [Cache.attempts].
  unfold try_catch, bind, ret, Cache.updateStats, delay, modify, console_warn,
    throw, gave_up.
  destruct (0 <? attempt); cbv beta iota; destruct (op _) as [[a|e] w'];
    destruct (attempt =? maxRetries cfg); reflexivity.
Qed.

(** An operation that answers at once is run once. *)
Lemma retry_first_try w a w' :
  op w = (Ok a, w') → Cache.executeWithRetry op name Cache.retryConfig w = (Ok a, w').
Proof.
  intros E. unfold Cache.executeWithRetry.
  change (Z.to_nat (maxRetries Cache.retryConfig + 1)) with 4%nat.
  rewrite attempts_unfold. change (0 <? 0) with false. cbv iota zeta.
  by rewrite E.
Qed.

(** Four failures in a row exhaust the default policy. *)
Lemma retry_four_failures w e1 w1 e2 w2 e3 w3 e4 w4 :
  op w = (Throw e1, w1) →
  op (between name 0 100 e1 w1) = (Throw e2, w2) →
  op (between name 1 200 e2 w2) = (Throw e3, w3) →
  op (between name 2 400 e3 w3) = (Throw e4, w4) →
  Cache.executeWithRetry op name Cache.retryConfig w
  = (Throw (Cache.retries_exhausted name Cache.retryConfig e4), gave_up w4).
Proof.
  intros E1 E2 E3 E4. unfold Cache.executeWithRetry, between in *.
  change (Z.to_nat (maxRetries Cache.retryConfig + 1)) with 4%nat.
  change (initialDelay Cache.retryConfig) with 100.
  rewrite attempts_unfold. change (0 <? 0) with false. cbv iota zeta.
  rewrite E1. change (0 =? maxRetries Cache.retryConfig) with false.
  cbv iota. change (0 + 1) with 1.
  rewrite attempts_unfold. change (0 <? 1) with true. cbv iota zeta.
  cbn [stats add_line]. rewrite E2.
  change (1 =? maxRetries Cache.retryConfig) with false. cbv iota.
  change (1 + 1) with 2.
  change (Z.min (100 * backoffFactor Cache.retryConfig) (maxDelay Cache.retryConfig))
    with 200.
  rewrite attempts_unfold. change (0 <? 2) with true. cbv iota zeta.
  cbn [stats add_line]. rewrite E3.
  change (2 =? maxRetries Cache.retryConfig) with false. cbv iota.
  change (2 + 1) with 3.
  change (Z.min (200 * backoffFactor Cache.retryConfig) (maxDelay Cache.retryConfig))
    with 400.
  rewrite attempts_unfold. change (0 <? 3) with true. cbv iota zeta.
  cbn [stats add_line]. rewrite E4.
  reflexivity.
Qed.

(** The answer of a retried operation is the answer of one of its attempts,
    and that attempt found the backend as the call did. *)
Lemma attempts_ok_origin cfg fuel attempt delayMs last w a w' :
  keeps_backend op →
  Cache.attempts op name cfg fuel attempt delayMs last w = (Ok a, w') →
  ∃ v, same_backend w v ∧ op v = (Ok a, w').
Proof.
  intros Hk. revert attempt delayMs last w.
  induction fuel as [|fuel IH]; intros attempt delayMs last w E; [done |].
  rewrite attempts_unfold in E. cbv zeta in E.
  set (w0 := if 0 <? attempt then _ else w) in E.
  assert (B0 : same_backend w w0) by (subst w0; by destruct (0 <? attempt)).
  destruct (op w0) as [[b|e] w1] eqn:E0.
  - simplify_eq. eauto.
  - destruct (attempt =? maxRetries cfg); [done |].
    apply IH in E as (v & Bv & Ev). exists v. split; [| done].
    eapply same_backend_trans; [exact B0 |].
    eapply same_backend_trans; [exact (Hk _ _ _ E0) |]. exact Bv.
Qed.

Lemma retry_ok_origin cfg w a w' :
  keeps_backend op →
  Cache.executeWithRetry op name cfg w = (Ok a, w') →
  ∃ v, same_backend w v ∧ op v = (Ok a, w').
Proof. intros Hk E. by eapply attempts_ok_origin. Qed.

(** While the connection is up, a stable operation that fails once fails on
    every attempt, with the same error. *)
Lemma retry_stable_throw w e w1 :
  keeps_backend op → stable op → steady w → op w = (Throw e, w1) →
  ∃ w', Cache.executeWithRetry op name Cache.retryConfig w
        = (Throw (Cache.retries_exhausted name Cache.retryConfig e), w')
        ∧ same_backend w w'.
Proof.
  intros Hk Hs Hw E1.
  pose proof (Hk _ _ _ E1) as B1.
  destruct (Hs _ _ _ Hw E1 (between name 0 100 e w1)) as [w2 E2].
  { eapply same_backend_trans; [done | apply between_backend]. }
  pose proof (Hk _ _ _ E2) as B2.
  destruct (Hs _ _ _ Hw E1 (between name 1 200 e w2)) as [w3 E3].
  { unfold same_backend, between in *. cbn in *.
    destruct B1 as (?&?&?), B2 as (?&?&?). repeat split; congruence. }
  pose proof (Hk _ _ _ E3) as B3.
  destruct (Hs _ _ _ Hw E1 (between name 2 400 e w3)) as [w4 E4].
  { unfold same_backend, between in *. cbn in *.
    destruct B1 as (?&?&?), B2 as (?&?&?), B3 as (?&?&?). repeat split; congruence. }
  pose proof (Hk _ _ _ E4) as B4.
  exists (gave_up w4). split.
  - by apply (retry_four_failures w e w1 e w2 e w3 e w4).
  - unfold same_backend, between, gave_up in *. cbn in *.
    destruct B1 as (?&?&?), B2 as (?&?&?), B3 as (?&?&?), B4 as (?&?&?).
    repeat split; congruence.
Qed.

End Retry.


(** ** The engine *)

Section Engine.
Context `{Config} `{JSON Product} `{JSON (list Product)}.


Ltac unfold_monad :=
  unfold console_log, console_warn, console_error, delay,
    Cache.updateStats, Cache.ensureConnection, Cache.client_hGetAll,
    Cache.client_hSet, Cache.client_expire, Cache.client_setEx, Cache.client_get,
    Cache.client_del, Cache.date_now, connected in *;
  unfold bind, ret, throw, try_catch, modify, lift in *;
  cbv beta in *.

Ltac project :=
  cbn [link checks store stats now sleeps console calls table
       set_store set_stats add_sleep add_line add_call set_table asked] in *.

Lemma expire_never_throws k s st e st' : Backend.expire k s st ≠ (Throw e, st').
Proof. unfold Backend.expire. by repeat case_match. Qed.

Lemma hSet_throw_store k f st e st' :
  Backend.hSet k f st = (Throw e, st') → st' = st.
Proof. unfold Backend.hSet. repeat case_match; congruence. Qed.

Lemma setEx_throw_store k s x st e st' :
  Backend.setEx k s x st = (Throw e, st') → st' = st.
Proof. unfold Backend.setEx. repeat case_match; congruence. Qed.

Ltac backend_facts :=
  repeat match goal with
  | E : Backend.expire _ _ _ = (Throw _, _) |- _ =>
      by destruct (expire_never_throws _ _ _ _ _ E)
  | E : Backend.hSet _ _ _ = (Throw _, _) |- _ =>
      apply hSet_throw_store in E; subst
  | E : Backend.setEx _ _ _ _ = (Throw _, _) |- _ =>
      apply setEx_throw_store in E; subst
  end.

(** A failed attempt leaves the backend as it was. *)
Ltac keeps_tac :=
  let w := fresh "w" in let e := fresh "e" in let w' := fresh "w'" in
  let E := fresh "E" in
  intros w e w' E; unfold_monad; destruct w; project;
  repeat (cbv beta in *; project; case_match; simplify_eq; try done);
  project; backend_facts; done.

(** With the connection up, the failure is the backend's. *)
Ltac stable_tac :=
  let w := fresh "w" in let e := fresh "e" in let w' := fresh "w'" in
  let E := fresh "E" in let v := fresh "v" in let Hsb := fresh "Hsb" in
  let Hst := fresh "Hst" in
  intros w e w' Hst E v Hsb; unfold_monad;
  destruct w, v; destruct Hsb as (?&?&?); unfold steady in Hst;
  project; simplify_eq; revert E; rewrite !Hst;
  repeat (cbv beta; project; case_match; simplify_eq; try done);
  intros; simplify_eq; eauto.

Lemma getCachedProduct_attempt_keeps i o : keeps_backend (Cache.getCachedProduct_attempt i o).
Proof. unfold Cache.getCachedProduct_attempt. keeps_tac. Qed.

Lemma getCachedProduct_attempt_stable i o : stable (Cache.getCachedProduct_attempt i o).
Proof. unfold Cache.getCachedProduct_attempt. stable_tac. Qed.

Lemma getCachedProducts_attempt_keeps k o : keeps_backend (Cache.getCachedProducts_attempt k o).
Proof. unfold Cache.getCachedProducts_attempt. keeps_tac. Qed.

Lemma cacheProduct_attempt_keeps p o : keeps_backend (Cache.cacheProduct_attempt p o).
Proof. unfold Cache.cacheProduct_attempt. keeps_tac. Qed.

Lemma updateProductHash_attempt_keeps i f o :
  keeps_backend (Cache.updateProductHash_attempt i f o).
Proof. unfold Cache.updateProductHash_attempt. keeps_tac. Qed.

Lemma invalidateProduct_attempt_keeps i o :
  keeps_backend (Cache.invalidateProduct_attempt i o).
Proof. unfold Cache.invalidateProduct_attempt. keeps_tac. Qed.

(** *** What a hash write leaves, and what a hash read finds *)

Lemma size_lookup (h : gmap string string) k x :
  h !! k = Some x → (0 <? size h)%nat = true.
Proof.
  intros Hk. apply Nat.ltb_lt.
  destruct (decide (size h = 0%nat)) as [E|]; [| lia].
  apply map_size_empty_iff in E. subst. by rewrite lookup_empty in Hk.
Qed.

Lemma toString_truthy x :
  JS.wf_number x = true → JS.truthy (JS.toString x) = true.
Proof.
  destruct x as [|[]| |[] sig pt]; simpl; try done; intros Hc;
    destruct (digits_toString_head sig pt Hc) as (d & r & ->); done.
Qed.

Lemma positive_integer_wf x : JS.positive_integer x = true → JS.wf_number x = true.
Proof. destruct x as [|?| |[] ? ?]; simpl; try done. by intros [? _]%andb_prop. Qed.

Lemma nonnegative_finite_wf x : JS.nonnegative_finite x = true → JS.wf_number x = true.
Proof. by destruct x as [|?| |[] ? ?]. Qed.

(** A hash that carries the printed fields of a valid product reads back as
    the product. *)
Lemma reconstruct_printed (h : gmap string string) p :
  valid_product p = true → JS.below_1e21 (id p) = true →
  h !! "id" = Some (JS.toString (id p)) →
  h !! "name" = Some (name p) →
  h !! "price" = Some (JS.toString (price p)) →
  h !! "category" = Some (category p) →
  Cache.reconstructProductFromHash h = Ok p.
Proof.
  unfold valid_product. intros Hv Hb Hi Hn Hp Hc.
  repeat (apply andb_prop in Hv as [Hv ?]).
  unfold Cache.reconstructProductFromHash, Cache.field.
  rewrite Hi, Hn, Hp, Hc. cbn [Cache.falsy default].
  rewrite !toString_truthy
    by auto using positive_integer_wf, nonnegative_finite_wf.
  replace (JS.truthy (name p)) with true by done.
  replace (JS.truthy (category p)) with true by done.
  cbn [negb orb]. unfold Datatypes.id.
  rewrite parseInt_toString, parseFloat_toString, !trim_trimmed
    by auto using nonnegative_finite_wf.
  destruct p as [i n pr c]; simpl in *.
  destruct i as [|?| |[] ? ?]; try done.
  destruct pr as [|?| |[] ? ?]; try done.
Qed.

Lemma set_fields_product (h : gmap string string) i n p c t :
  let h' := Backend.set_fields
              [("id", i); ("name", n); ("price", p); ("category", c); ("cachedAt", t)] h in
  h' !! "id" = Some i ∧ h' !! "name" = Some n ∧ h' !! "price" = Some p
  ∧ h' !! "category" = Some c ∧ h' !! "cachedAt" = Some t.
Proof. cbn. by simplify_map_eq. Qed.

(** HSET, when it succeeds, merges the fields into the hash of the key (the
    empty hash when the key is new) and keeps the time to live. *)
Lemma hSet_ok k fs st n st' :
  Backend.hSet k fs st = (Ok n, st') →
  ∃ e, st' = <[k := Backend.mkEntry
                      (Backend.VHash (Backend.set_fields fs (hash_at st k))) e]> st
       ∧ (st !! k = None ∧ e = None
          ∨ st !! k = Some (Backend.mkEntry (Backend.VHash (hash_at st k)) e)).
Proof.
  unfold Backend.hSet, hash_at. destruct fs as [|f fs]; [done |].
  destruct (st !! k) as [[[x|h] e]|]; intros; simplify_eq; eauto.
Qed.

Lemma expire_positive k s st r st' :
  0 < s → Backend.expire k s st = (r, st') →
  ∀ x e, st !! k = Some (Backend.mkEntry x e) → st' !! k = Some (Backend.mkEntry x (Some s)).
Proof.
  intros Hs E x e Hk. unfold Backend.expire in E. rewrite Hk in E.
  apply Z.leb_gt in Hs. rewrite Hs in E. simplify_eq. apply lookup_insert_eq.
Qed.

Lemma default_hash o : useHash o ≠ Some false → default true (useHash o) = true.
Proof. by destruct (useHash o) as [[]|]. Qed.

Lemma cacheProduct_attempt_hash p o v w1 :
  useHash o ≠ Some false → 0 < Cache.getProductTTL (ttl o) →
  Cache.cacheProduct_attempt p o v = (Ok tt, w1) →
  ∃ h, store w1 !! Cache.generateHashKey (id p) (prefix o)
       = Some (Backend.mkEntry (Backend.VHash h) (Some (Cache.getProductTTL (ttl o))))
     ∧ h !! "id" = Some (JS.toString (id p))
     ∧ h !! "name" = Some (name p)
     ∧ h !! "price" = Some (JS.toString (price p))
     ∧ h !! "category" = Some (category p).
Proof.
  intros Hh Httl E. unfold Cache.cacheProduct_attempt in E.
  rewrite (default_hash o Hh) in E. unfold_monad.
  destruct v as [lk ck st ss nw sl cn cl tb]; project. destruct (lk ck); [| done].
  destruct (Backend.hSet _ _ _) as [[n|e] st1] eqn:Eh; [| done].
  destruct (Backend.expire _ _ _) as [[b|e] st2] eqn:Ee; [| done].
  project. simplify_eq. project.
  apply hSet_ok in Eh as (e & -> & _).
  eexists. split.
  - eapply expire_positive; [done | exact Ee | apply lookup_insert_eq].
  - pose proof (set_fields_product (hash_at st (Cache.generateHashKey (id p) (prefix o)))
                  (JS.toString (id p)) (name p)
                  (JS.toString (price p)) (category p) nw) as F.
    cbv zeta in F. tauto.
Qed.

(** A hash read of a key that holds a well-formed hash is a hit. *)
Lemma getCachedProduct_attempt_hit i o w h e p :
  connected w = true → useHash o ≠ Some false →
  store w !! Cache.generateHashKey i (prefix o)
    = Some (Backend.mkEntry (Backend.VHash h) e) →
  Cache.reconstructProductFromHash h = Ok p →
  ∃ w', Cache.getCachedProduct_attempt i o w = (Ok (Some p), w').
Proof.
  intros Hc Hh Hk Hr. unfold Cache.getCachedProduct_attempt.
  rewrite (default_hash o Hh). unfold connected in Hc. unfold_monad. rewrite Hc.
  unfold Backend.hGetAll. cbv beta. project. rewrite Hk.
  assert (Hs : (0 <? size h)%nat = true).
  { unfold Cache.reconstructProductFromHash in Hr.
    destruct (h !! "id") eqn:Ei; [by eapply size_lookup | done]. }
  rewrite Hs, Hr. eauto.
Qed.

(** A hash read of a key that holds a hash that does not reconstruct fails
    the attempt, after counting a hit. *)
Lemma getCachedProduct_attempt_malformed i o w h e err :
  connected w = true → useHash o ≠ Some false →
  store w !! Cache.generateHashKey i (prefix o)
    = Some (Backend.mkEntry (Backend.VHash h) e) →
  (0 <? size h)%nat = true →
  Cache.reconstructProductFromHash h = Throw err →
  ∃ w', Cache.getCachedProduct_attempt i o w = (Throw err, w').
Proof.
  intros Hc Hh Hk Hs Hr. unfold Cache.getCachedProduct_attempt.
  rewrite (default_hash o Hh). unfold connected in Hc. unfold_monad. rewrite Hc.
  unfold Backend.hGetAll. cbv beta. project. rewrite Hk, Hs, Hr. eauto.
Qed.



(** A read of an absent key is a miss, in either mode. *)
Lemma getCachedProduct_attempt_miss i o w :
  connected w = true →
  store w !! Cache.generateHashKey i (prefix o) = None →
  store w !! Cache.generateKey ("single:" ++ JS.toString i) (prefix o) = None →
  ∃ w', Cache.getCachedProduct_attempt i o w = (Ok None, w').
Proof.
  intros Hc Hk1 Hk2. unfold Cache.getCachedProduct_attempt.
  unfold connected in Hc. unfold_monad.
  rewrite Hc. unfold Backend.hGetAll, Backend.get.
  destruct (default true (useHash o)); cbv beta; project.
  - rewrite Hk1. rewrite map_size_empty. cbn. eauto.
  - rewrite Hk2. eauto.
Qed.

(** C1, amended. For every product with a positive integer id below 10^21,
    a finite price that is not negative, and a name and a category that are
    not empty and carry no white space at their ends: when [cacheProduct] in
    hash mode returns, with a time to live that is positive, a hash-mode
    [getCachedProduct] of the id under the same prefix, run next with the
    connection up, returns the product itself. *)
Theorem roundtrip_hash_mode p o o' w w1 :
  valid_product p = true → JS.below_1e21 (id p) = true →
  useHash o ≠ Some false → useHash o' ≠ Some false → prefix o' = prefix o →
  0 < Cache.getProductTTL (ttl o) →
  Cache.cacheProduct p o w = (Ok tt, w1) →
  connected w1 = true →
  ∃ w2, Cache.getCachedProduct (id p) o' w1 = (Ok (Some p), w2).
Proof.
  intros Hv Hb Hh Hh' Hp Httl E Hc.
  apply retry_ok_origin in E as (v & _ & E); [| apply cacheProduct_attempt_keeps].
  apply cacheProduct_attempt_hash in E as (h & Hk & Hi & Hn & Hpr & Hcat);
    [| done | done].
  rewrite <- Hp in Hk.
  destruct (getCachedProduct_attempt_hit (id p) o' w1 h _ p Hc Hh' Hk) as [w2 E2].
  { by apply reconstruct_printed. }
  exists w2. by apply retry_first_try.
Qed.



(** *** Partial updates *)

(** The hash after HSET of the update: the supplied fields, the others as
    they were. *)
Lemma set_fields_updates (h : gmap string string) f t k :
  Backend.set_fields (Cache.updates_of f t) h !! k
  = match written f t k with Some x => Some x | None => h !! k end.
Proof.
  unfold Cache.updates_of, written.
  destruct f as [i [n|] [p|] [c|]]; cbn;
    destruct (String.eqb_spec k "cachedAt"); simplify_map_eq; try done;
    destruct (String.eqb_spec k "category"); simplify_map_eq; try done;
    destruct (String.eqb_spec k "price"); simplify_map_eq; try done;
    destruct (String.eqb_spec k "name"); simplify_map_eq; done.
Qed.

Lemma updates_nonempty f t : (0 <? length (Cache.updates_of f t))%nat = true.
Proof.
  unfold Cache.updates_of. rewrite !length_app. apply Nat.ltb_lt. simpl. lia.
Qed.

Lemma hash_at_insert st k h e :
  hash_at (<[k := Backend.mkEntry (Backend.VHash h) e]> st) k = h.
Proof. unfold hash_at. by rewrite lookup_insert_eq. Qed.

(** A successful attempt of [updateProductHash] sends one HSET with the
    update and merges it into the hash of the key. *)
Lemma updateProductHash_attempt_ok i f o v w1 :
  Cache.updateProductHash_attempt i f o v = (Ok tt, w1) →
  let key := Cache.generateHashKey i (prefix o) in
  link w1 = link v ∧ now w1 = now v
  ∧ calls w1 = (calls v ++ [Backend.HSET key (Cache.updates_of f (now v))])%list
  ∧ ∃ e, store w1
         = <[key := Backend.mkEntry
                      (Backend.VHash (Backend.set_fields (Cache.updates_of f (now v))
                                        (hash_at (store v) key))) e]> (store v)
       ∧ (store v !! key = None ∧ e = None
          ∨ store v !! key
            = Some (Backend.mkEntry (Backend.VHash (hash_at (store v) key)) e)).
Proof.
  intros E key. unfold Cache.updateProductHash_attempt in E. unfold_monad.
  destruct v as [lk ck st ss nw sl cn cl tb]; project. destruct (lk ck); [| done].
  rewrite updates_nonempty in E.
  destruct (Backend.hSet _ _ _) as [[n|e] st1] eqn:Eh; [| done].
  project. simplify_eq. project.
  apply hSet_ok in Eh as (e & -> & Hd). eauto 10.
Qed.

(** When the key is absent and the connection up, the attempt succeeds. *)
Lemma updateProductHash_attempt_fresh i f o w :
  connected w = true →
  store w !! Cache.generateHashKey i (prefix o) = None →
  ∃ w1, Cache.updateProductHash_attempt i f o w = (Ok tt, w1).
Proof.
  intros Hc Hk. unfold Cache.updateProductHash_attempt.
  unfold connected in Hc. unfold_monad. destruct w as [lk ck st ss nw sl cn cl tb]; project. rewrite Hc.
  rewrite updates_nonempty. cbv beta. project. unfold Backend.hSet. rewrite Hk.
  destruct (Cache.updates_of f nw) eqn:E; [| project; eauto].
  pose proof (updates_nonempty f nw) as L. by rewrite E in L.
Qed.

(** *** Invalidation *)

Lemma invalidateProduct_attempt_run i o w :
  connected w = true →
  let hashKey := Cache.generateHashKey i (prefix o) in
  let stringKey := Cache.generateKey ("single:" ++ JS.toString i) (prefix o) in
  ∃ w1, Cache.invalidateProduct_attempt i o w = (Ok tt, w1)
        ∧ link w1 = link w ∧ checks w1 = S (checks w)
        ∧ calls w1 = (calls w ++ [Backend.DEL [hashKey; stringKey]])%list
        ∧ store w1 = delete hashKey (delete stringKey (store w)).
Proof.
  intros Hc hashKey stringKey. unfold Cache.invalidateProduct_attempt.
  unfold connected in Hc. unfold_monad. destruct w; project. rewrite Hc.
  unfold Backend.del. project. eauto 10.
Qed.

(** *** Malformed hashes *)

Lemma reconstruct_malformed h :
  malformed h = true →
  ∃ m, Cache.reconstructProductFromHash h = Throw (Error m) ∧ invalid_hash_message m.
Proof.
  unfold malformed, Cache.reconstructProductFromHash, invalid_hash_message.
  destruct (Cache.falsy (h !! "id")), (Cache.falsy (h !! "name")),
    (Cache.falsy (h !! "price")), (Cache.falsy (h !! "category")),
    (JS.isNaN (JS.parseInt _)), (JS.le0 (JS.parseInt _)),
    (JS.isNaN (JS.parseFloat _)), (JS.lt0 (JS.parseFloat _));
    cbn; intros; try done; eauto.
Qed.

(** *** The counters *)

(** A read attempt that returns counts exactly one operation: a hit when it
    found the entry, a miss when it did not. *)
Lemma getCachedProduct_attempt_counts i o w r w' :
  Cache.getCachedProduct_attempt i o w = (Ok r, w') →
  stats w' = Cache.updated_stats (bool_decide (is_Some r)) false false (stats w).
Proof.
  unfold Cache.getCachedProduct_attempt. intros E. unfold_monad.
  destruct w; project.
  repeat (cbv beta in *; project; case_match; simplify_eq; try done).
Qed.

Lemma getCachedProducts_attempt_counts k o w r w' :
  Cache.getCachedProducts_attempt k o w = (Ok r, w') →
  stats w' = Cache.updated_stats (bool_decide (is_Some r)) false false (stats w).
Proof.
  unfold Cache.getCachedProducts_attempt. intros E. unfold_monad.
  destruct w; project.
  repeat (cbv beta in *; project; case_match; simplify_eq; try done).
Qed.

Lemma getCachedProduct_attempt_no_retry i o :
  no_retry_count (Cache.getCachedProduct_attempt i o).
Proof.
  unfold Cache.getCachedProduct_attempt. intros w r w' E. unfold_monad.
  destruct w; project.
  repeat (cbv beta in *; project; case_match; simplify_eq; try done).
Qed.

Lemma getCachedProducts_attempt_no_retry k o :
  no_retry_count (Cache.getCachedProducts_attempt k o).
Proof.
  unfold Cache.getCachedProducts_attempt. intros w r w' E. unfold_monad.
  destruct w; project.
  repeat (cbv beta in *; project; case_match; simplify_eq; try done).
Qed.



(** A partial update that returns merged the supplied fields into the hash
    of the key and touched no other key. *)
Lemma updateProductHash_merges i f o w w1 :
  Cache.updateProductHash i f o w = (Ok tt, w1) →
  let key := Cache.generateHashKey i (prefix o) in
  (∀ k, hash_at (store w1) key !! k
        = match written f (now w) k with
          | Some x => Some x
          | None => hash_at (store w) key !! k
          end)
  ∧ (∀ key', key' ≠ key → store w1 !! key' = store w !! key').
Proof.
  intros E key.
  apply retry_ok_origin in E as (v & (_ & Es & En) & E);
    [| apply updateProductHash_attempt_keeps].
  apply updateProductHash_attempt_ok in E as (_ & _ & _ & e & Est & _).
  fold key in Est. rewrite <- Es, <- En in Est. rewrite Est. split.
  - intros k. rewrite hash_at_insert. apply set_fields_updates.
  - intros key' Hne. by rewrite lookup_insert_ne.
Qed.

(** After a valid product was cached, renaming its hash to X and reading it
    gives the product under the name X. *)
Lemma update_name_then_get p o w w1 w2 :
  valid_product p = true → JS.below_1e21 (id p) = true →
  useHash o ≠ Some false → 0 < Cache.getProductTTL (ttl o) →
  Cache.cacheProduct p o w = (Ok tt, w1) →
  Cache.updateProductHash (id p) (only_name "X") o w1 = (Ok tt, w2) →
  connected w2 = true →
  ∃ w3, Cache.getCachedProduct (id p) o w2 = (Ok (Some (rename p "X")), w3).
Proof.
  intros Hv Hb Hh Httl E1 E2 Hc.
  apply retry_ok_origin in E1 as (v & _ & E1); [| apply cacheProduct_attempt_keeps].
  apply cacheProduct_attempt_hash in E1 as (h & Hk & Hi & Hn & Hpr & Hcat);
    [| done | done].
  pose proof (updateProductHash_merges _ _ _ _ _ E2) as [Hm _]. cbv zeta in Hm.
  apply retry_ok_origin in E2 as (v2 & (_ & Es & _) & E2);
    [| apply updateProductHash_attempt_keeps].
  apply updateProductHash_attempt_ok in E2 as (_ & _ & _ & e & Est & _).
  assert (Hh1 : hash_at (store w1) (Cache.generateHashKey (id p) (prefix o)) = h)
    by (unfold hash_at; by rewrite Hk).
  rewrite Hh1 in Hm.
  set (key := Cache.generateHashKey (id p) (prefix o)) in *.
  assert (Hk2 : store w2 !! key
                = Some (Backend.mkEntry (Backend.VHash (hash_at (store w2) key)) e)).
  { rewrite Est. rewrite lookup_insert_eq. by rewrite hash_at_insert. }
  destruct (getCachedProduct_attempt_hit (id p) o w2 _ _ (rename p "X") Hc Hh Hk2)
    as [w3 E3].
  { apply reconstruct_printed.
    - unfold valid_product in *. cbn [id name price category rename].
      repeat (apply andb_prop in Hv as [Hv ?]).
      repeat (apply andb_true_intro; split); done.
    - done.
    - by rewrite Hm.
    - by rewrite Hm.
    - by rewrite Hm.
    - by rewrite Hm. }
  exists w3. by apply retry_first_try.
Qed.

(** C7. [updateProductHash] merges: when it returns, every field of the
    hash holds the value the caller supplied for it (name, price, category)
    or the refreshed cachedAt, and every other field, the id among them, is
    as it was; no other key changes.  So after a valid product was cached,
    [updateProductHash] with the name X alone followed by [getCachedProduct]
    gives the product with the name X and its price and category as they
    were. *)
Theorem partial_update_is_a_merge :
  (∀ i f o w w1,
     Cache.updateProductHash i f o w = (Ok tt, w1) →
     let key := Cache.generateHashKey i (prefix o) in
     (∀ k, hash_at (store w1) key !! k
           = match written f (now w) k with
             | Some x => Some x
             | None => hash_at (store w) key !! k
             end)
     ∧ (∀ key', key' ≠ key → store w1 !! key' = store w !! key'))
  ∧ (∀ p o w w1 w2,
       valid_product p = true → JS.below_1e21 (id p) = true →
       useHash o ≠ Some false → 0 < Cache.getProductTTL (ttl o) →
       Cache.cacheProduct p o w = (Ok tt, w1) →
       Cache.updateProductHash (id p) (only_name "X") o w1 = (Ok tt, w2) →
       connected w2 = true →
       ∃ w3, Cache.getCachedProduct (id p) o w2 = (Ok (Some (rename p "X")), w3)).
Proof.
  split.
  - intros i f o w w1 E. by apply updateProductHash_merges.
  - intros p o w w1 w2. apply update_name_then_get.
Qed.

(** C10. [updateProductHash] never writes the id field: invoked, with the
    connection up, for an id whose hash entry is absent, it creates an entry
    that holds the supplied fields and cachedAt and nothing else, so no id,
    and that has no time to live; a hash-mode [getCachedProduct] of that id
    then fails with an error (the operation error that wraps the missing
    required fields error) and returns neither a miss nor an entity. *)
Theorem update_of_absent_entry i f o w :
  steady w →
  store w !! Cache.generateHashKey i (prefix o) = None →
  let key := Cache.generateHashKey i (prefix o) in
  ∃ w1 h,
    Cache.updateProductHash i f o w = (Ok tt, w1)
    ∧ store w1 !! key = Some (Backend.mkEntry (Backend.VHash h) None)
    ∧ (∀ k, h !! k = written f (now w) k)
    ∧ h !! "id" = None
    ∧ ∀ o', useHash o' ≠ Some false → prefix o' = prefix o →
        ∃ w2, Cache.getCachedProduct i o' w1
              = (Throw (Cache.retries_exhausted "getCachedProduct" Cache.retryConfig
                          (Error "Invalid product hash data: missing required fields")),
                 w2).
Proof.
  intros Hst Hk key.
  destruct (updateProductHash_attempt_fresh i f o w (Hst _) Hk) as [w1 E].
  pose proof (updateProductHash_attempt_ok _ _ _ _ _ E)
    as (El & _ & _ & e & Est & [[_ ->]|Hk']); [| congruence].
  fold key in Est.
  assert (Eh : hash_at (store w) key = ∅) by (unfold hash_at, key; by rewrite Hk).
  rewrite Eh in Est.
  set (h := Backend.set_fields (Cache.updates_of f (now w)) ∅) in *.
  assert (Hw : ∀ k, h !! k = written f (now w) k).
  { intros k. subst h. rewrite set_fields_updates, lookup_empty. by destruct (written _ _ _). }
  exists w1, h. split; [by apply retry_first_try |].
  split; [by rewrite Est, lookup_insert_eq |].
  split; [done |]. split; [by rewrite Hw |].
  intros o' Hh Hp.
  assert (Hst1 : steady w1) by (intros n; rewrite El; apply Hst).
  destruct (getCachedProduct_attempt_malformed i o' w1 h None
              (Error "Invalid product hash data: missing required fields"))
    as [w2 E2]; try done.
  - apply Hst1.
  - rewrite Hp. fold key. by rewrite Est, lookup_insert_eq.
  - apply (size_lookup h "cachedAt" (now w)). by rewrite Hw.
  - unfold Cache.reconstructProductFromHash. by rewrite (Hw "id").
  - destruct (retry_stable_throw _ "getCachedProduct" w1 _ w2
                (getCachedProduct_attempt_keeps i o')
                (getCachedProduct_attempt_stable i o') Hst1 E2) as (w3 & E3 & _).
    eauto.
Qed.

(** C6. With the connection up, [invalidateProduct] sends one DEL command
    for the hash key and the string key of the id, whatever the keys hold
    (an absent key is no error), and a [getCachedProduct] of the id that
    follows, under the same prefix, is a miss in hash mode and in string
    mode. *)
Theorem invalidate_then_miss i o w :
  connected w = true →
  let hashKey := Cache.generateHashKey i (prefix o) in
  let stringKey := Cache.generateKey ("single:" ++ JS.toString i) (prefix o) in
  ∃ w1, Cache.invalidateProduct i o w = (Ok tt, w1)
        ∧ calls w1 = (calls w ++ [Backend.DEL [hashKey; stringKey]])%list
        ∧ store w1 = delete hashKey (delete stringKey (store w))
        ∧ ∀ o', prefix o' = prefix o → connected w1 = true →
            ∃ w2, Cache.getCachedProduct i o' w1 = (Ok None, w2).
Proof.
  intros Hc hashKey stringKey.
  destruct (invalidateProduct_attempt_run i o w Hc) as (w1 & E & _ & _ & Ecalls & Est).
  exists w1. split; [by apply retry_first_try |]. split; [done |]. split; [done |].
  intros o' Hp Hc1.
  destruct (getCachedProduct_attempt_miss i o' w1 Hc1) as [w2 E2].
  - rewrite Hp, Est. apply lookup_delete_eq.
  - rewrite Hp, Est. fold stringKey hashKey.
    destruct (decide (hashKey = stringKey)) as [->|Hne].
    + apply lookup_delete_eq.
    + rewrite lookup_delete_ne by done. apply lookup_delete_eq.
  - exists w2. by apply retry_first_try.
Qed.

(** C4, amended. A hash-mode [getCachedProduct] that finds, with the
    connection up, a hash that is not empty and is malformed (a required
    field missing or empty, an id that does not read as a positive number,
    a price that does not read as a number that is not negative) does not
    return a miss: every attempt fails and the call raises the operation
    error of the retry wrapper, named getCachedProduct, which wraps a plain
    Error with one of the three invalid-hash messages.  No data-validation
    error is raised. *)
Theorem malformed_hash_read i o w h e :
  steady w → useHash o ≠ Some false →
  store w !! Cache.generateHashKey i (prefix o)
    = Some (Backend.mkEntry (Backend.VHash h) e) →
  h ≠ ∅ → malformed h = true →
  ∃ m err w',
    Cache.getCachedProduct i o w = (Throw err, w')
    ∧ err = Cache.retries_exhausted "getCachedProduct" Cache.retryConfig (Error m)
    ∧ invalid_hash_message m
    ∧ is_operation_error err = true ∧ is_data_error err = false.
Proof.
  intros Hst Hh Hk Hne Hm.
  destruct (reconstruct_malformed h Hm) as (m & Hr & Hmsg).
  destruct (getCachedProduct_attempt_malformed i o w h e (Error m)) as [w1 E1];
    try done.
  - apply Hst.
  - apply Nat.ltb_lt. destruct (decide (size h = 0%nat)) as [E|]; [| lia].
    by apply map_size_empty_iff in E.
  - destruct (retry_stable_throw _ "getCachedProduct" w _ w1
                (getCachedProduct_attempt_keeps i o)
                (getCachedProduct_attempt_stable i o) Hst E1) as (w' & E & _).
    eexists m, _, w'. eauto.
Qed.



(** *** The hit rate *)

Section RetryCount.
Context {T : Type} (op : M T) (name : string) (Hop : no_retry_count op).

Lemma attempts_retries_mono cfg fuel attempt delayMs last w r w' :
  Cache.attempts op name cfg fuel attempt delayMs last w = (r, w') →
  (retries (stats w) ≤ retries (stats w'))%N.
Proof.
  revert attempt delayMs last w.
  induction fuel as [|fuel IH]; intros attempt delayMs last w E.
  { cbn in E. unfold throw in E. simplify_eq. lia. }
  rewrite attempts_unfold in E. cbv zeta in E.
  set (w0 := if 0 <? attempt then _ else w) in E.
  assert (B0 : (retries (stats w) ≤ retries (stats w0))%N).
  { subst w0. destruct (0 <? attempt); cbn; lia. }
  destruct (op w0) as [[b|e] w1] eqn:E0; apply Hop in E0.
  - simplify_eq. lia.
  - destruct (attempt =? maxRetries cfg).
    + simplify_eq. cbn. lia.
    + apply IH in E. cbn in E. lia.
Qed.

(** A call that returns without a retry counted returned at its first
    attempt. *)
Lemma retry_none_counted w a w' :
  Cache.executeWithRetry op name Cache.retryConfig w = (Ok a, w') →
  retries (stats w') = retries (stats w) →
  op w = (Ok a, w').
Proof.
  unfold Cache.executeWithRetry.
  change (Z.to_nat (maxRetries Cache.retryConfig + 1)) with 4%nat.
  rewrite attempts_unfold. change (0 <? 0) with false. cbv iota zeta.
  destruct (op w) as [[b|e] w1] eqn:E0; [congruence |].
  change (0 =? maxRetries Cache.retryConfig) with false. cbv iota.
  change (0 + 1) with 1. rewrite attempts_unfold.
  change (0 <? 1) with true. cbv iota zeta.
  set (w0 := add_sleep _ _).
  assert (B0 : retries (stats w0) = (retries (stats w) + 1)%N).
  { subst w0. cbn. by rewrite (Hop _ _ _ E0). }
  destruct (op w0) as [[b|e2] w2] eqn:E2; apply Hop in E2.
  - intros; simplify_eq. lia.
  - change (1 =? maxRetries Cache.retryConfig) with false. cbv iota.
    intros E Hr. apply attempts_retries_mono in E. cbn in E. lia.
Qed.

Lemma retry_retries_mono w r w' :
  Cache.executeWithRetry op name Cache.retryConfig w = (r, w') →
  (retries (stats w) ≤ retries (stats w'))%N.
Proof. apply attempts_retries_mono. Qed.

End RetryCount.

Lemma counted_update s k m (hit : bool) :
  counted s k m →
  counted (Cache.updated_stats hit false false s)
          (if hit then k + 1 else k)%N (if hit then m else m + 1)%N.
Proof.
  intros (Hh & Hm & Ho & He & Hr & _). unfold counted, Cache.updated_stats.
  cbn [hits misses operations errors retries hitRate Cache.bump negb].
  rewrite Hh, Hm, Ho, He, Hr.
  replace (0 <? k + m + 1)%N with true by (symmetry; apply N.ltb_lt; lia).
  destruct hit; cbn [Cache.bump].
  - repeat split; try lia.
    replace (k + 1 + m =? 0)%N with false by (symmetry; apply N.eqb_neq; lia).
    by replace (k + 1 + m)%N with (k + m + 1)%N by lia.
  - repeat split; try lia.
    replace (k + (m + 1) =? 0)%N with false by (symmetry; apply N.eqb_neq; lia).
    by replace (k + (m + 1))%N with (k + m + 1)%N by lia.
Qed.

Lemma perform_retries_mono r w x w1 :
  perform r w = (x, w1) → (retries (stats w) ≤ retries (stats w1))%N.
Proof.
  destruct r as [i o|k o]; cbn [perform].
  - destruct (Cache.getCachedProduct i o w) as [[f|e] w'] eqn:E; intros; simplify_eq;
      eapply retry_retries_mono; eauto using getCachedProduct_attempt_no_retry.
  - destruct (Cache.getCachedProducts k o w) as [[f|e] w'] eqn:E; intros; simplify_eq;
      eapply retry_retries_mono; eauto using getCachedProducts_attempt_no_retry.
Qed.

Lemma perform_counts r w hit w1 :
  perform r w = (Ok hit, w1) → retries (stats w1) = retries (stats w) →
  stats w1 = Cache.updated_stats hit false false (stats w).
Proof.
  destruct r as [i o|k o]; cbn [perform].
  - destruct (Cache.getCachedProduct i o w) as [[f|e] w'] eqn:E; intros; simplify_eq.
    eapply getCachedProduct_attempt_counts, retry_none_counted;
      eauto using getCachedProduct_attempt_no_retry.
  - destruct (Cache.getCachedProducts k o w) as [[f|e] w'] eqn:E; intros; simplify_eq.
    eapply getCachedProducts_attempt_counts, retry_none_counted;
      eauto using getCachedProducts_attempt_no_retry.
Qed.

Lemma tally_retries_mono rs w k m w' :
  tally rs w = Some (k, m, w') → (retries (stats w) ≤ retries (stats w'))%N.
Proof.
  revert w k m w'. induction rs as [|r rs IH]; intros w k m w' E; cbn in E.
  { simplify_eq. lia. }
  destruct (perform r w) as [[hit|e] w1] eqn:E1; [| done].
  destruct (tally rs w1) as [[[k1 m1] w2]|] eqn:E2; [| done].
  simplify_eq. apply perform_retries_mono in E1. apply IH in E2. lia.
Qed.

Lemma tally_counted rs w k0 m0 k m w' :
  counted (stats w) k0 m0 →
  tally rs w = Some (k, m, w') →
  retries (stats w') = 0%N →
  counted (stats w') (k0 + k) (m0 + m).
Proof.
  revert w k0 m0 k m w'.
  induction rs as [|r rs IH]; intros w k0 m0 k m w' Hc E Hr; cbn in E.
  { simplify_eq. by rewrite !N.add_0_r. }
  destruct (perform r w) as [[hit|e] w1] eqn:E1; [| done].
  destruct (tally rs w1) as [[[k1 m1] w2]|] eqn:E2; [| done].
  simplify_eq.
  pose proof (perform_retries_mono _ _ _ _ E1) as M1.
  pose proof (tally_retries_mono _ _ _ _ _ E2) as M2.
  assert (R0 : retries (stats w) = 0%N) by apply Hc.
  apply perform_counts in E1; [| lia].
  pose proof (counted_update _ _ _ hit Hc) as Hc1. rewrite <- E1 in Hc1.
  pose proof (IH _ _ _ _ _ _ Hc1 E2 Hr) as Hc2.
  destruct hit.
  - by replace (k0 + (k1 + 1))%N with (k0 + 1 + k1)%N by lia.
  - by replace (m0 + (m1 + 1))%N with (m0 + 1 + m1)%N by lia.
Qed.

(** C8. From all-zero statistics, after a sequence of cache reads that all
    return, [k] of them with a hit and [m] with a miss, and none of which
    needed a retry, the hit rate is the binary64 number [(k / (k + m)) * 100],
    the quotient rounded and then the product rounded, and 0 when
    k + m = 0; the hit and miss counters are [k] and [m] and the error
    counter is 0. *)
Theorem hit_rate_of_reads rs w k m w' :
  stats w = Cache.initial_stats →
  tally rs w = Some (k, m, w') →
  retries (stats w') = 0%N →
  hitRate (Cache.getCacheStats w')
  = (if (k + m =? 0)%N then Float64.zero
     else Float64.mul (Float64.div (Float64.of_N k) (Float64.of_N (k + m)))
                      (Float64.of_N 100))
  ∧ hits (Cache.getCacheStats w') = k ∧ misses (Cache.getCacheStats w') = m
  ∧ errors (Cache.getCacheStats w') = 0%N.
Proof.
  intros Hs E Hr.
  assert (Hc : counted (stats w) 0 0) by (rewrite Hs; by repeat split).
  pose proof (tally_counted _ _ _ _ _ _ _ Hc E Hr) as (?&?&?&?&?&?).
  rewrite !N.add_0_l in *. by unfold Cache.getCacheStats.
Qed.


End Engine.

(** ** Exhausting the retries *)

Section RetryExhaustion.
Context {T : Type} (errf : World → JsError) (step : World → World) (name : string).

(** C3. Under the default policy an operation that fails on every attempt
    is run exactly four times: the first time at once, then after sleeps of
    100, 200 and 400 ms, each retry counted and announced by a warning.  The
    call then counts one error and raises the operation error that names the
    operation and wraps the error of the fourth run.  ([step] is what a run
    does to the world and [errf] the error it raises; the last three parts
    say it for a run that does not sleep, that leaves the counters alone,
    and for any count of the runs.) *)
Theorem retry_exhaustion w :
  let op : M T := failing errf step in
  let a1 := step w in
  let b1 := between name 0 100 (errf w) a1 in
  let a2 := step b1 in
  let b2 := between name 1 200 (errf b1) a2 in
  let a3 := step b2 in
  let b3 := between name 2 400 (errf b2) a3 in
  let a4 := step b3 in
  Cache.executeWithRetry op name Cache.retryConfig w
  = (Throw (CacheOperationError
              ("Operation " ++ name ++ " failed after " ++ Z_toString 3
               ++ " retries: " ++ message (errf b3))
              name (errf b3)),
     gave_up a4)
  ∧ ((∀ v, sleeps (step v) = sleeps v) →
     sleeps (gave_up a4) = (sleeps w ++ [100; 200; 400])%list)
  ∧ ((∀ v, stats (step v) = stats v) →
     errors (stats (gave_up a4)) = (errors (stats w) + 1)%N
     ∧ retries (stats (gave_up a4)) = (retries (stats w) + 3)%N)
  ∧ (∀ probe : World → nat,
       (∀ v s, probe (set_stats s v) = probe v) →
       (∀ v ms, probe (add_sleep ms v) = probe v) →
       (∀ v l, probe (add_line l v) = probe v) →
       (∀ v, probe (step v) = S (probe v)) →
       probe (gave_up a4) = (4 + probe w)%nat).
Proof.
  intros op a1 b1 a2 b2 a3 b3 a4. split; [| split; [| split]].
  - by apply (retry_four_failures op name w (errf w) a1 (errf b1) a2 (errf b2) a3
                (errf b3) a4).
  - intros Hs. subst a4 b3 a3 b2 a2 b1 a1. unfold gave_up, between.
    repeat (cbn [sleeps set_stats add_sleep add_line]; rewrite Hs).
    cbn [sleeps set_stats add_sleep add_line]. by rewrite <- !app_assoc.
  - intros Hs. subst a4 b3 a3 b2 a2 b1 a1. unfold gave_up, between.
    repeat (cbn [stats set_stats add_sleep add_line]; rewrite Hs).
    unfold Cache.updated_stats, Cache.bump. cbn [errors retries]. split; lia.
  - intros probe P1 P2 P3 P4. subst a4 b3 a3 b2 a2 b1 a1. unfold gave_up, between.
    by repeat first [rewrite P1 | rewrite P2 | rewrite P3 | rewrite P4].
Qed.

End RetryExhaustion.

Section Service.
Context `{Config} `{Catalog.CacheService} `{Catalog.Repository}.

Ltac run_service :=
  unfold console_log, console_warn, console_error in *;
  unfold bind, ret, throw, try_catch, modify in *; cbv beta in *.

(** C2. Whatever the calls of the cache engine do, throw or not, an
    operation of the catalog service whose persistence calls succeed returns
    its normal result, and a cache call that throws is only logged: the
    world is the one the failed cache call left plus one warning line that
    carries the error.  [createProduct] returns the saved product;
    [getProductById], when the cache read throws or misses, the answer of
    the repository; [getProducts], when the cache read throws or misses, the
    page and the count of the repository; [updateProduct] the saved product
    (and nothing when the repository has none); [deleteProduct] whether rows
    were removed. *)
Theorem cache_failure_never_fails_the_service :
  (∀ data w p w1,
     Catalog.repository_create_save data w = (Ok p, w1) →
     (∃ w', Catalog.createProduct data w = (Ok p, w'))
     ∧ (∀ e w2,
          Catalog.cacheProduct p (mkOptions None None (Some true)) w1 = (Throw e, w2) →
          Catalog.createProduct data w
          = (Ok p, add_line (Warn "Cache operation failed during product creation:"
                                  (Some e)) w2))
     ∧ (∀ w2 e w3,
          Catalog.cacheProduct p (mkOptions None None (Some true)) w1 = (Ok tt, w2) →
          Catalog.invalidateProductLists no_options w2 = (Throw e, w3) →
          Catalog.createProduct data w
          = (Ok p, add_line (Warn "Cache operation failed during product creation:"
                                  (Some e)) w3)))
  ∧ (∀ i w x w1 r w2,
       Catalog.getCachedProduct i (mkOptions None None (Some true)) w = (x, w1) →
       (∀ cached, x ≠ Ok (Some cached)) →
       Catalog.repository_findOne i
         match x with
         | Throw cacheError =>
             add_line (Warn ("Cache read failed for product ID " ++ JS.toString i ++ ":")
                            (Some cacheError)) w1
         | Ok _ => w1
         end
       = (Ok r, w2) →
       (∃ w', Catalog.getProductById i w = (Ok r, w'))
       ∧ (r = None → Catalog.getProductById i w = (Ok None, w2))
       ∧ (∀ found e w3,
            r = Some found →
            Catalog.cacheProduct found
              (mkOptions (Some Catalog.PRODUCTS_TTL) None (Some true)) w2
            = (Throw e, w3) →
            Catalog.getProductById i w
            = (Ok (Some found),
               add_line (Warn ("Cache write failed for product ID " ++ JS.toString i ++ ":")
                              (Some e)) w3)))
  ∧ (∀ options w x w1 rows count w2,
       Catalog.getCachedProducts (Catalog.list_key options) no_options w = (x, w1) →
       (∀ cached, x ≠ Ok (Some cached)) →
       Catalog.repository_getManyAndCount
         (Catalog.buildProductQuery (Catalog.q_category options) (Catalog.q_name options))
         ((default defaultPage (Catalog.q_page options) - 1) * Catalog.actual_limit options)
         (Catalog.actual_limit options)
         match x with
         | Throw cacheError =>
             add_line (Warn "Cache read failed for product list:" (Some cacheError)) w1
         | Ok _ => w1
         end
       = (Ok (rows, count), w2) →
       (∃ w', Catalog.getProducts options w
              = (Ok {| Catalog.products := rows;
                       Catalog.total := count;
                       Catalog.page := default defaultPage (Catalog.q_page options);
                       Catalog.limit := Catalog.actual_limit options;
                       Catalog.totalPages :=
                         Catalog.ceil_div count (Catalog.actual_limit options) |}, w'))
       ∧ (∀ e w3,
            Catalog.cacheProducts rows (Catalog.list_key options)
              (mkOptions (Some Catalog.PRODUCTS_TTL) None None) w2
            = (Throw e, w3) →
            Catalog.getProducts options w
            = (Ok {| Catalog.products := rows;
                     Catalog.total := count;
                     Catalog.page := default defaultPage (Catalog.q_page options);
                     Catalog.limit := Catalog.actual_limit options;
                     Catalog.totalPages :=
                       Catalog.ceil_div count (Catalog.actual_limit options) |},
               add_line (Warn "Cache write failed for product list:" (Some e)) w3)))
  ∧ (∀ i data w w1,
       Catalog.repository_findOne i w = (Ok None, w1) →
       Catalog.updateProduct i data w = (Ok None, w1))
  ∧ (∀ i data w found w1 saved w2,
       Catalog.repository_findOne i w = (Ok (Some found), w1) →
       Catalog.repository_save (Catalog.assign found data) w1 = (Ok saved, w2) →
       (∃ w', Catalog.updateProduct i data w = (Ok (Some saved), w'))
       ∧ (∀ e w3,
            Catalog.updateProductHash i (partial_of saved) no_options w2 = (Throw e, w3) →
            Catalog.updateProduct i data w
            = (Ok (Some saved),
               add_line (Warn "Cache operation failed during product update:"
                              (Some e)) w3))
       ∧ (∀ w3 e w4,
            Catalog.updateProductHash i (partial_of saved) no_options w2 = (Ok tt, w3) →
            Catalog.invalidateProductLists no_options w3 = (Throw e, w4) →
            Catalog.updateProduct i data w
            = (Ok (Some saved),
               add_line (Warn "Cache operation failed during product update:"
                              (Some e)) w4)))
  ∧ (∀ i w affected w1,
       Catalog.repository_delete i w = (Ok affected, w1) →
       (∃ w', Catalog.deleteProduct i w
              = (Ok match affected with Some n => 0 <? n | None => false end, w'))
       ∧ (match affected with Some n => 0 <? n | None => false end = false →
          Catalog.deleteProduct i w = (Ok false, w1))
       ∧ (∀ e w2,
            match affected with Some n => 0 <? n | None => false end = true →
            Catalog.invalidateProduct i no_options w1 = (Throw e, w2) →
            Catalog.deleteProduct i w
            = (Ok true,
               add_line (Warn "Cache operation failed during product deletion:"
                              (Some e)) w2))
       ∧ (∀ w2 e w3,
            match affected with Some n => 0 <? n | None => false end = true →
            Catalog.invalidateProduct i no_options w1 = (Ok tt, w2) →
            Catalog.invalidateProductLists no_options w2 = (Throw e, w3) →
            Catalog.deleteProduct i w
            = (Ok true,
               add_line (Warn "Cache operation failed during product deletion:"
                              (Some e)) w3))).
Proof.
  split; [| split; [| split; [| split; [| split]]]].
  - intros data w p w1 E1. split; [| split].
    + unfold Catalog.createProduct. run_service. rewrite E1.
      destruct (Catalog.cacheProduct _ _ _) as [[[]|e] w2];
        [destruct (Catalog.invalidateProductLists _ _) as [[[]|e] w3] |]; eauto.
    + intros e w2 E. unfold Catalog.createProduct. run_service. by rewrite E1, E.
    + intros w2 e w3 E2 E3. unfold Catalog.createProduct. run_service.
      by rewrite E1, E2, E3.
  - intros i w x w1 r w2 Ec Hx Ef. split; [| split].
    + unfold Catalog.getProductById. run_service. rewrite Ec.
      destruct x as [[c|]|ce]; [by destruct (Hx c) | |]; rewrite Ef;
        (destruct r as [found|]; [| eauto]);
        destruct (Catalog.cacheProduct _ _ _) as [[[]|e] w3]; eauto.
    + intros ->. unfold Catalog.getProductById. run_service. rewrite Ec.
      destruct x as [[c|]|ce]; [by destruct (Hx c) | |]; by rewrite Ef.
    + intros found e w3 -> Ew. unfold Catalog.getProductById. run_service. rewrite Ec.
      destruct x as [[c|]|ce]; [by destruct (Hx c) | |]; by rewrite Ef, Ew.
  - intros options w x w1 rows count w2 Ec Hx Ef.
    unfold Catalog.getProducts, Catalog.list_key, Catalog.actual_limit in *. run_service.
    rewrite Ec. split.
    + destruct x as [[c|]|ce]; [by destruct (Hx c) | |]; rewrite Ef; cbn [fst snd];
        destruct (Catalog.cacheProducts _ _ _ _) as [[[]|e] w3]; eauto.
    + intros e w3 Ew.
      destruct x as [[c|]|ce]; [by destruct (Hx c) | |]; rewrite Ef; cbn [fst snd];
        by rewrite Ew.
  - intros i data w w1 E. unfold Catalog.updateProduct. run_service. by rewrite E.
  - intros i data w found w1 saved w2 E1 E2. split; [| split].
    + unfold Catalog.updateProduct. run_service. rewrite E1, E2.
      destruct (Catalog.updateProductHash _ _ _ _) as [[[]|e] w3];
        [destruct (Catalog.invalidateProductLists _ _) as [[[]|e] w4] |]; eauto.
    + intros e w3 E3. unfold Catalog.updateProduct. run_service. by rewrite E1, E2, E3.
    + intros w3 e w4 E3 E4. unfold Catalog.updateProduct. run_service.
      by rewrite E1, E2, E3, E4.
  - intros i w affected w1 E1. split; [| split; [| split]].
    + unfold Catalog.deleteProduct. run_service. rewrite E1.
      destruct affected as [n|]; [destruct (0 <? n) |]; eauto;
      destruct (Catalog.invalidateProduct _ _ _) as [[[]|e] w2];
        [destruct (Catalog.invalidateProductLists _ _) as [[[]|e] w3] |]; eauto.
    + intros Hr. unfold Catalog.deleteProduct. run_service. by rewrite E1, Hr.
    + intros e w2 Hr E2. unfold Catalog.deleteProduct. run_service.
      by rewrite E1, Hr, E2.
    + intros w2 e w3 Hr E2 E3. unfold Catalog.deleteProduct. run_service.
      by rewrite E1, Hr, E2, E3.
Qed.


(** The answer to a list query served from the cache. *)
Lemma getProducts_hit options w cached w1 :
  Catalog.getCachedProducts (Catalog.list_key options) no_options w = (Ok (Some cached), w1) →
  Catalog.getProducts options w
  = (Ok {| Catalog.products := cached;
           Catalog.total := Z.of_nat (length cached);
           Catalog.page := default defaultPage (Catalog.q_page options);
           Catalog.limit := Catalog.actual_limit options;
           Catalog.totalPages :=
             Catalog.ceil_div (Z.of_nat (length cached)) (Catalog.actual_limit options) |},
     add_line (Log "Cache hit for product list") w1).
Proof.
  intros E. unfold Catalog.getProducts, Catalog.list_key, Catalog.actual_limit in *. run_service.
  by rewrite E.
Qed.

(** The answer to a list query that misses the cache. *)
Lemma getProducts_miss options w w1 rows count w2 :
  Catalog.getCachedProducts (Catalog.list_key options) no_options w = (Ok None, w1) →
  Catalog.repository_getManyAndCount
    (Catalog.buildProductQuery (Catalog.q_category options) (Catalog.q_name options))
    ((default defaultPage (Catalog.q_page options) - 1) * Catalog.actual_limit options)
    (Catalog.actual_limit options) w1 = (Ok (rows, count), w2) →
  ∃ w', Catalog.getProducts options w
        = (Ok {| Catalog.products := rows;
                 Catalog.total := count;
                 Catalog.page := default defaultPage (Catalog.q_page options);
                 Catalog.limit := Catalog.actual_limit options;
                 Catalog.totalPages := Catalog.ceil_div count (Catalog.actual_limit options) |},
           w').
Proof.
  intros E1 E2. unfold Catalog.getProducts, Catalog.list_key, Catalog.actual_limit in *. run_service.
  rewrite E1, E2. cbn [fst snd].
  destruct (Catalog.cacheProducts _ _ _ _) as [[[]|e] w3]; eauto.
Qed.

Lemma ceil_div_page len count lim :
  0 ≤ len ≤ lim → lim < count →
  Catalog.ceil_div len lim ≠ Catalog.ceil_div count lim.
Proof.
  intros Hl Hc. unfold Catalog.ceil_div.
  destruct (Z.eqb_spec lim 0) as [->|Hz].
  - assert (len = 0) as -> by lia. cbn.
    destruct (Z.eqb_spec count 0); [lia | done].
  - assert (0 < lim) by lia.
    assert (- (- len / lim) ≤ 1).
    { assert (- lim ≤ - len) by lia.
      pose proof (Z.div_le_mono (- lim) (- len) lim ltac:(lia) ltac:(lia)) as D.
      replace (- lim / lim) with (-1) in D; [lia |].
      rewrite Z.div_opp_l_z by (try lia; apply Z.mod_same; lia).
      rewrite Z.div_same by lia. done. }
    assert (2 ≤ - (- count / lim)).
    { assert (- count ≤ - lim - 1) by lia.
      pose proof (Z.div_le_mono (- count) (- lim - 1) lim ltac:(lia) ltac:(lia)) as D.
      assert (E : (- lim - 1) / lim = -2).
      { symmetry. apply (Z.div_unique_pos _ _ _ (lim - 1)); lia. }
      lia. }
    intros E. injection E. lia.
Qed.

(** C9. A list query answered from the cache returns as total the length of
    the cached array and as totalPages the ceiling of that length over the
    limit, whatever the repository holds.  So for a query whose cached array
    is at most one page long and whose filter matches more rows than one
    page, the answer on a cache hit and the answer on a cache miss differ in
    total and in totalPages. *)
Theorem cached_list_total_differs options :
  (∀ w cached w1,
     Catalog.getCachedProducts (Catalog.list_key options) no_options w = (Ok (Some cached), w1) →
     ∃ response w',
       Catalog.getProducts options w = (Ok response, w')
       ∧ Catalog.total response = Z.of_nat (length cached)
       ∧ Catalog.totalPages response
         = Catalog.ceil_div (Z.of_nat (length cached)) (Catalog.actual_limit options))
  ∧ (∀ w_hit cached w1 w_miss w2 rows count w3,
       Catalog.getCachedProducts (Catalog.list_key options) no_options w_hit
         = (Ok (Some cached), w1) →
       Catalog.getCachedProducts (Catalog.list_key options) no_options w_miss = (Ok None, w2) →
       Catalog.repository_getManyAndCount
         (Catalog.buildProductQuery (Catalog.q_category options) (Catalog.q_name options))
         ((default defaultPage (Catalog.q_page options) - 1) * Catalog.actual_limit options)
         (Catalog.actual_limit options) w2 = (Ok (rows, count), w3) →
       Z.of_nat (length cached) ≤ Catalog.actual_limit options →
       Catalog.actual_limit options < count →
       ∃ hit w_hit' miss w_miss',
         Catalog.getProducts options w_hit = (Ok hit, w_hit')
         ∧ Catalog.getProducts options w_miss = (Ok miss, w_miss')
         ∧ Catalog.total miss = count
         ∧ Catalog.total hit ≠ Catalog.total miss
         ∧ Catalog.totalPages hit ≠ Catalog.totalPages miss).
Proof.
  split.
  - intros w cached w1 E. rewrite (getProducts_hit _ _ _ _ E). eauto.
  - intros w_hit cached w1 w_miss w2 rows count w3 Eh Em Er Hlen Hcount.
    destruct (getProducts_miss _ _ _ _ _ _ Em Er) as [w' E'].
    rewrite (getProducts_hit _ _ _ _ Eh), E'.
    do 4 eexists. split; [done |]. split; [done |].
    cbn [Catalog.total Catalog.totalPages]. split; [done |]. split; [lia |].
    apply ceil_div_page; lia.
Qed.

End Service.

(** * Further properties *)

(** ** What the readers of numbers and [trim] return *)

Lemma drop_zeros_shape ds :
  (length (JS.drop_zeros ds) ≤ length ds)%nat
  ∧ (JS.drop_zeros ds = [] ∨ ∃ d r, JS.drop_zeros ds = d :: r ∧ JS.is_d0 d = false).
Proof.
  induction ds as [|d ds [IHl IHs]]; [split; [done | by left] |].
  destruct d; cbn [JS.drop_zeros length]; (split; [lia |]); try (right; eauto; fail).
  exact IHs.
Qed.

Lemma drop_zeros_snoc l d :
  JS.is_d0 d = false →
  ∃ l', JS.drop_zeros (l ++ [d])%list = (l' ++ [d])%list
        ∧ (length l' ≤ length l)%nat
        ∧ (l' = [] ∨ ∃ x t, l' = x :: t ∧ JS.is_d0 x = false).
Proof.
  intros Hd. induction l as [|x l (l' & E & Hl & Hs)].
  - exists []. cbn [app]. rewrite drop_zeros_head by done. by repeat split; [| left].
  - destruct (JS.is_d0 x) eqn:Ex.
    + destruct x; try done. cbn [app JS.drop_zeros]. exists l'. rewrite E.
      repeat split; [cbn; lia | done].
    + exists (x :: l). change ((x :: l) ++ [d])%list with (x :: (l ++ [d]))%list.
      rewrite drop_zeros_head by done. repeat split; [done |]. right. eauto.
Qed.

Lemma drop_trailing_zeros_shape d r :
  JS.is_d0 d = false →
  JS.canonical (JS.drop_trailing_zeros (d :: r)) = true
  ∧ (length (JS.drop_trailing_zeros (d :: r)) ≤ length (d :: r))%nat.
Proof.
  intros Hd. unfold JS.drop_trailing_zeros. cbn [rev].
  destruct (drop_zeros_snoc (rev r) d Hd) as (l' & -> & Hl & Hs).
  rewrite rev_app_distr. cbn [rev app]. split.
  - unfold JS.canonical. rewrite Hd. cbn [negb andb].
    destruct Hs as [->|(x & t & -> & Hx)]; [cbn; by rewrite Hd |].
    cbn [rev].
    change (d :: rev t ++ [x])%list with ((d :: rev t) ++ [x])%list.
    rewrite last_last. by rewrite Hx.
  - cbn [length]. rewrite length_rev. rewrite length_rev in Hl. lia.
Qed.

(** [make_number] gives zero or a number in canonical form. *)
Lemma make_number_shape neg ds pt :
  JS.make_number neg ds pt = JS.Zero
  ∨ ∃ sig, JS.make_number neg ds pt
           = JS.Finite neg sig (pt - Z.of_nat (length ds - length (JS.drop_zeros ds)))
         ∧ JS.canonical sig = true
         ∧ (length sig ≤ length (JS.drop_zeros ds))%nat.
Proof.
  unfold JS.make_number.
  destruct (drop_zeros_shape ds) as [Hl [->|(d & r & -> & Hd)]]; [by left |].
  right. destruct (drop_trailing_zeros_shape d r Hd) as [Hc Hlen]. eauto.
Qed.

Lemma make_number_wf neg ds pt : JS.wf_number (JS.make_number neg ds pt) = true.
Proof. destruct (make_number_shape neg ds pt) as [->|(sig & -> & Hc & _)]; done. Qed.

(** A digit sequence read as an integer: zero, or an integer in canonical
    form with the sign asked for. *)
Lemma make_integer_shape neg ds :
  match JS.make_number neg ds (Z.of_nat (length ds)) with
  | JS.Zero => True
  | JS.Finite neg' sig pt =>
      neg' = neg ∧ JS.canonical sig = true ∧ Z.of_nat (length sig) ≤ pt
  | _ => False
  end.
Proof.
  destruct (make_number_shape neg ds (Z.of_nat (length ds)))
    as [->|(sig & -> & Hc & Hl)]; [done |].
  pose proof (drop_zeros_shape ds) as [Hd _]. repeat split; [done | lia].
Qed.

Lemma read_integer_cases neg s :
  JS.read_integer neg s = JS.NaN
  ∨ ∃ ds, JS.read_integer neg s = JS.make_number neg ds (Z.of_nat (length ds)).
Proof. unfold JS.read_integer. repeat case_match; eauto. Qed.

(** A finite number that [parseInt] answers is an integer. *)
Lemma parseInt_shape s :
  match JS.parseInt s with
  | JS.Finite _ sig pt => JS.canonical sig = true ∧ Z.of_nat (length sig) ≤ pt
  | _ => True
  end.
Proof.
  unfold JS.parseInt. destruct (JS.read_sign _) as [neg t].
  destruct (read_integer_cases neg t) as [->|[ds ->]]; [done |].
  pose proof (make_integer_shape neg ds) as M.
  destruct (JS.make_number _ _ _); tauto.
Qed.

Lemma read_decimal_cases neg s :
  JS.read_decimal neg s = JS.NaN ∨ JS.read_decimal neg s = JS.Infinity neg
  ∨ ∃ ds pt, JS.read_decimal neg s = JS.make_number neg ds pt.
Proof. unfold JS.read_decimal. repeat case_match; eauto. Qed.

(** [parseFloat] answers a well-formed number. *)
Lemma parseFloat_wf s : JS.wf_number (JS.parseFloat s) = true.
Proof.
  unfold JS.parseFloat. destruct (JS.read_sign _) as [neg t].
  destruct (read_decimal_cases neg t) as [->|[->|(ds & pt & ->)]]; try done.
  apply make_number_wf.
Qed.

(** What [skip_whitespace] leaves begins with no white space and is the end
    of the text. *)
Lemma skip_whitespace_shape s :
  ∃ pre, list_ascii_of_string s = (pre ++ list_ascii_of_string (JS.skip_whitespace s))%list
         ∧ match JS.skip_whitespace s with
           | String c _ => JS.is_whitespace c = false
           | EmptyString => True
           end.
Proof.
  induction s as [|c s (pre & E & Hs)]; [by exists [] |].
  cbn [JS.skip_whitespace]. destruct (JS.is_whitespace c) eqn:Ec.
  - exists (c :: pre). cbn [list_ascii_of_string app]. by rewrite <- E.
  - exists []. by rewrite Ec.
Qed.

Lemma last_app_cons {A} (pre : list A) x l d :
  List.last (pre ++ x :: l) d = List.last (x :: l) d.
Proof.
  induction pre as [|y pre IH]; [done |].
  change ((y :: pre) ++ x :: l)%list with (y :: (pre ++ x :: l))%list.
  destruct (pre ++ x :: l)%list eqn:E; [by destruct pre | by rewrite <- IH].
Qed.

(** What [trim] returns has no white space at its ends. *)
Lemma trimmed_trim s : JS.trimmed (JS.trim s) = true.
Proof.
  unfold JS.trim.
  destruct (skip_whitespace_shape s) as (pre & _ & Ha).
  set (a := JS.skip_whitespace s) in *.
  destruct (skip_whitespace_shape (JS.string_rev a)) as (pre' & Eb & Hb).
  set (b := JS.skip_whitespace (JS.string_rev a)) in *.
  unfold JS.trimmed, JS.string_rev at 1.
  rewrite list_ascii_of_string_of_list_ascii.
  destruct b as [|c r] eqn:Eqb; [done |].
  cbn [list_ascii_of_string] in *. cbn [rev].
  unfold JS.string_rev in Eb. rewrite list_ascii_of_string_of_list_ascii in Eb.
  (* the last character of [b] is the first of [a] *)
  assert (Hlast : JS.is_whitespace (List.last (c :: list_ascii_of_string r) c) = false).
  { destruct a as [|x a']; [by destruct pre' |].
    cbn [list_ascii_of_string rev] in Eb.
    assert (L : List.last (rev (list_ascii_of_string a') ++ [x])%list c = x) by apply last_last.
    rewrite Eb, last_app_cons in L. by rewrite L. }
  destruct (rev (list_ascii_of_string r) ++ [c])%list as [|y l] eqn:El.
  { by destruct (rev (list_ascii_of_string r)). }
  assert (Hy : y = List.last (c :: list_ascii_of_string r) c).
  { destruct (rev_head_last c (list_ascii_of_string r)) as [t Et].
    cbn [rev] in Et. rewrite El in Et. by injection Et. }
  assert (Hl : List.last (y :: l) y = c).
  { rewrite (last_cons_default y l y c), <- El. apply last_last. }
  rewrite Hl, Hy, Hlast, Hb. done.
Qed.

(** ** The retry wrapper under any policy *)

Section RetryPolicy.
Context {T : Type} (errf : World → JsError) (step : World → World) (name : string).
Context (probe : World → nat).
Hypothesis step_sleeps : ∀ v, sleeps (step v) = sleeps v.
Hypothesis step_stats : ∀ v, stats (step v) = stats v.
Hypothesis step_probe : ∀ v, probe (step v) = S (probe v).
Hypothesis probe_stats : ∀ v s, probe (set_stats s v) = probe v.
Hypothesis probe_sleep : ∀ v ms, probe (add_sleep ms v) = probe v.
Hypothesis probe_line : ∀ v l, probe (add_line l v) = probe v.

Lemma attempts_failing cfg k attempt d last w :
  attempt = maxRetries cfg - Z.of_nat k → 0 < attempt →
  ∃ v,
    Cache.attempts (failing errf step : M T) name cfg (S k) attempt d last w
    = (Throw (Cache.retries_exhausted name cfg (errf v)), gave_up (step v))
    ∧ sleeps v = (sleeps w ++ schedule cfg (S k) d)%list
    ∧ retries (stats v) = (retries (stats w) + N.of_nat (S k))%N
    ∧ errors (stats v) = errors (stats w)
    ∧ probe v = (k + probe w)%nat.
Proof.
  revert attempt d last w. induction k as [|k IH]; intros attempt d last w Ha Hp.
  - rewrite attempts_unfold. cbv zeta.
    replace (0 <? attempt) with true by (symmetry; apply Z.ltb_lt; lia).
    unfold failing at 1.
    replace (attempt =? maxRetries cfg) with true by (symmetry; apply Z.eqb_eq; lia).
    eexists. split; [reflexivity |].
    cbn [sleeps stats set_stats add_sleep schedule].
    rewrite probe_sleep, probe_stats.
    unfold Cache.updated_stats, Cache.bump. cbn [retries errors].
    repeat split; lia.
  - rewrite attempts_unfold. cbv zeta.
    replace (0 <? attempt) with true by (symmetry; apply Z.ltb_lt; lia).
    unfold failing at 1.
    replace (attempt =? maxRetries cfg) with false by (symmetry; apply Z.eqb_neq; lia).
    match goal with |- context [Cache.attempts _ _ _ _ ?a ?d' ?l ?u] =>
      destruct (IH a d' l u ltac:(lia) ltac:(lia)) as (v & E & Hs & Hr & He & Hpr)
    end.
    rewrite E. exists v. split; [reflexivity |].
    rewrite Hs, Hr, He, Hpr.
    cbn [sleeps stats set_stats add_sleep add_line schedule].
    rewrite probe_line, step_sleeps, step_stats, step_probe, probe_sleep, probe_stats.
    cbn [sleeps stats set_stats add_sleep].
    unfold Cache.updated_stats, Cache.bump. cbn [retries errors].
    rewrite <- app_assoc. repeat split; lia.
Qed.

(** X1. [executeWithRetry] under any policy whose number of retries is not
    negative, on an operation that fails at every attempt: the operation is
    run once more than the number of retries; the first retry sleeps the
    initial delay as it is, each later one the delay before it times the
    factor, capped at the maximum; every retry is counted, one error is
    counted, and the error raised names the operation and wraps the error of
    the last run.  ([step] is what a run does to the world and [errf] the
    error it raises, an error object: the wrapper reads its [message];
    [probe] counts the runs.  The last run is the one made in the world [v],
    after as many runs as there are retries: the call raises the error of
    that run, and leaves the world that run left, with the error counted.) *)
Theorem retry_any_policy cfg w :
  (∀ v, errf v ≠ Undefined) →
  0 ≤ maxRetries cfg →
  ∃ v,
    Cache.executeWithRetry (failing errf step : M T) name cfg w
    = (Throw (CacheOperationError
                ("Operation " ++ name ++ " failed after "
                 ++ Z_toString (maxRetries cfg) ++ " retries: " ++ message (errf v))
                name (errf v)),
       gave_up (step v))
    ∧ probe v = (Z.to_nat (maxRetries cfg) + probe w)%nat
    ∧ probe (gave_up (step v)) = (S (Z.to_nat (maxRetries cfg)) + probe w)%nat
    ∧ sleeps (gave_up (step v))
      = (sleeps w ++ schedule cfg (Z.to_nat (maxRetries cfg)) (initialDelay cfg))%list
    ∧ retries (stats (gave_up (step v)))
      = (retries (stats w) + Z.to_N (maxRetries cfg))%N
    ∧ errors (stats (gave_up (step v))) = (errors (stats w) + 1)%N.
Proof.
  intros _ Hm. unfold Cache.executeWithRetry.
  replace (Z.to_nat (maxRetries cfg + 1)) with (S (Z.to_nat (maxRetries cfg))) by lia.
  assert (G : ∀ v, probe (gave_up (step v)) = S (probe v)
                   ∧ sleeps (gave_up (step v)) = sleeps v
                   ∧ retries (stats (gave_up (step v))) = retries (stats v)
                   ∧ errors (stats (gave_up (step v))) = (errors (stats v) + 1)%N).
  { intros v. unfold gave_up. rewrite probe_stats, step_probe.
    cbn [sleeps stats set_stats]. rewrite step_sleeps, step_stats.
    unfold Cache.updated_stats, Cache.bump. cbn [retries errors]. done. }
  rewrite attempts_unfold. change (0 <? 0) with false. cbv iota zeta.
  unfold failing at 1.
  destruct (Z.eqb_spec 0 (maxRetries cfg)) as [E0|E0].
  - exists w. destruct (G w) as (G1 & G2 & G3 & G4).
    split; [reflexivity |]. rewrite G1, G2, G3, G4, <- E0.
    cbn [schedule Z.to_nat Z.to_N]. rewrite app_nil_r. repeat split; lia.
  - destruct (Z.to_nat (maxRetries cfg)) as [|k] eqn:Ek; [lia |].
    match goal with |- context [Cache.attempts _ _ _ _ ?a ?d' ?l ?u] =>
      destruct (attempts_failing cfg k a d' l u ltac:(lia) ltac:(lia))
        as (v & E & Hs & Hr & He & Hpr)
    end.
    rewrite E. exists v. destruct (G v) as (G1 & G2 & G3 & G4).
    split; [reflexivity |]. rewrite G1, G2, G3, G4, Hs, Hr, He, Hpr.
    cbn [sleeps stats add_line]. rewrite probe_line, step_sleeps, step_stats, step_probe.
    repeat split; lia.
Qed.

End RetryPolicy.

Section RetryStats.
Context {T : Type} (op : M T) (name : string).

Lemma attempts_kept P cfg fuel attempt d last w r w' :
  kept P → counts_only op →
  Cache.attempts op name cfg fuel attempt d last w = (r, w') →
  P (stats w) → P (stats w').
Proof.
  intros (K1 & K2 & K3) Hop.
  revert attempt d last w. induction fuel as [|fuel IH]; intros attempt d last w E Hw.
  { cbn in E. unfold throw in E. by simplify_eq. }
  rewrite attempts_unfold in E. cbv zeta in E.
  set (w0 := if 0 <? attempt then _ else w) in E.
  assert (H0 : P (stats w0)).
  { subst w0. destruct (0 <? attempt); [| done]. cbn [stats add_sleep set_stats]. by apply K2. }
  destruct (op w0) as [[a|e] w1] eqn:E0.
  - simplify_eq. by apply (Hop P K1 _ _ _ E0).
  - pose proof (Hop P K1 _ _ _ E0 H0) as H1.
    destruct (attempt =? maxRetries cfg).
    + simplify_eq. unfold gave_up. cbn [stats set_stats]. by apply K3.
    + by apply IH in E.
Qed.

Lemma counts_only_errors w r w' :
  counts_only op → op w = (r, w') → errors (stats w') = errors (stats w).
Proof. intros Hop E. by apply (Hop (λ s, errors s = errors (stats w)) (λ _ _ E', E') _ _ _ E). Qed.

(** How a call ends: with the answer of an attempt and the error counter as
    it was, or with the operation error that wraps the error of the last
    attempt and one error counted. *)
Lemma attempts_end cfg k attempt d last w r w' :
  counts_only op → attempt = maxRetries cfg - Z.of_nat k →
  Cache.attempts op name cfg (S k) attempt d last w = (r, w') →
  match r with
  | Ok a => errors (stats w') = errors (stats w) ∧ ∃ v, op v = (Ok a, w')
  | Throw e =>
      errors (stats w') = (errors (stats w) + 1)%N
      ∧ ∃ cause v v', e = Cache.retries_exhausted name cfg cause
                       ∧ op v = (Throw cause, v')
  end.
Proof.
  intros Hop. revert attempt d last w.
  induction k as [|k IH]; intros attempt d last w Ha E.
  - rewrite attempts_unfold in E. cbv zeta in E.
    set (w0 := if 0 <? attempt then _ else w) in E.
    assert (H0 : errors (stats w0) = errors (stats w)).
    { subst w0. by destruct (0 <? attempt). }
    destruct (op w0) as [[a|e] w1] eqn:E0.
    + simplify_eq. rewrite (counts_only_errors _ _ _ Hop E0). eauto.
    + replace (attempt =? maxRetries cfg) with true in E by (symmetry; apply Z.eqb_eq; lia).
      simplify_eq. unfold gave_up. cbn [stats set_stats Cache.updated_stats errors Cache.bump].
      rewrite (counts_only_errors _ _ _ Hop E0), H0. eauto 6.
  - rewrite attempts_unfold in E. cbv zeta in E.
    set (w0 := if 0 <? attempt then _ else w) in E.
    assert (H0 : errors (stats w0) = errors (stats w)).
    { subst w0. by destruct (0 <? attempt). }
    destruct (op w0) as [[a|e] w1] eqn:E0.
    + simplify_eq. rewrite (counts_only_errors _ _ _ Hop E0). eauto.
    + replace (attempt =? maxRetries cfg) with false in E by (symmetry; apply Z.eqb_neq; lia).
      apply IH in E; [| lia]. cbn [stats add_line] in E.
      rewrite (counts_only_errors _ _ _ Hop E0), H0 in E. done.
Qed.

Lemma retry_end w r w' :
  counts_only op →
  Cache.executeWithRetry op name Cache.retryConfig w = (r, w') →
  match r with
  | Ok a => errors (stats w') = errors (stats w) ∧ ∃ v, op v = (Ok a, w')
  | Throw e =>
      errors (stats w') = (errors (stats w) + 1)%N
      ∧ ∃ cause v v', e = Cache.retries_exhausted name Cache.retryConfig cause
                       ∧ op v = (Throw cause, v')
  end.
Proof. intros Hop. by apply (attempts_end Cache.retryConfig 3 0 100 None w). Qed.

(** The error of a call that fails is the error of its last attempt: the
    attempt made after all the others, whose world the call leaves with the
    error counted. *)
Lemma attempts_last cfg k attempt d last w e w' :
  asks_once op → attempt = maxRetries cfg - Z.of_nat k →
  Cache.attempts op name cfg (S k) attempt d last w = (Throw e, w') →
  ∃ cause v v',
    op v = (Throw cause, v') ∧ checks v = (k + checks w)%nat
    ∧ w' = gave_up v' ∧ e = Cache.retries_exhausted name cfg cause.
Proof.
  intros Hop. revert attempt d last w.
  induction k as [|k IH]; intros attempt d last w Ha E.
  - rewrite attempts_unfold in E. cbv zeta in E.
    set (w0 := if 0 <? attempt then _ else w) in E.
    assert (H0 : checks w0 = checks w) by (subst w0; by destruct (0 <? attempt)).
    destruct (op w0) as [[a|e0] w1] eqn:E0; [done |].
    replace (attempt =? maxRetries cfg) with true in E by (symmetry; apply Z.eqb_eq; lia).
    simplify_eq. exists e0, w0, w1. by rewrite H0.
  - rewrite attempts_unfold in E. cbv zeta in E.
    set (w0 := if 0 <? attempt then _ else w) in E.
    assert (H0 : checks w0 = checks w) by (subst w0; by destruct (0 <? attempt)).
    destruct (op w0) as [[a|e0] w1] eqn:E0; [done |].
    replace (attempt =? maxRetries cfg) with false in E by (symmetry; apply Z.eqb_neq; lia).
    apply IH in E as (cause & v & v' & Ev & Hc & Hw & He); [| lia].
    exists cause, v, v'. repeat split; try done.
    rewrite Hc. cbn [checks add_line]. rewrite (Hop _ _ _ E0), H0. lia.
Qed.

Lemma retry_last w e w' :
  asks_once op →
  Cache.executeWithRetry op name Cache.retryConfig w = (Throw e, w') →
  ∃ cause v v',
    op v = (Throw cause, v') ∧ checks v = (3 + checks w)%nat
    ∧ w' = gave_up v' ∧ e = Cache.retries_exhausted name Cache.retryConfig cause.
Proof. intros Hop. by apply (attempts_last Cache.retryConfig 3 0 100 None w). Qed.

End RetryStats.

Section RetryBeside.
Context {T : Type} (op : M T) (name : string).

Lemma attempts_beside cfg fuel attempt d last w r w' :
  beside_cache op →
  Cache.attempts op name cfg fuel attempt d last w = (r, w') → same_backend w w'.
Proof.
  intros Hop. revert attempt d last w.
  induction fuel as [|fuel IH]; intros attempt d last w E.
  { cbn in E. unfold throw in E. simplify_eq. apply same_backend_refl. }
  rewrite attempts_unfold in E. cbv zeta in E.
  set (w0 := if 0 <? attempt then _ else w) in E.
  assert (B0 : same_backend w w0) by (subst w0; by destruct (0 <? attempt)).
  destruct (op w0) as [[a|e] w1] eqn:E0; apply Hop in E0.
  - simplify_eq. by eapply same_backend_trans.
  - destruct (attempt =? maxRetries cfg).
    + simplify_eq. eapply same_backend_trans; [exact B0 |].
      eapply same_backend_trans; [exact E0 | done].
    + apply IH in E. eapply same_backend_trans; [exact B0 |].
      eapply same_backend_trans; [exact E0 |]. exact E.
Qed.

Lemma attempts_table cfg fuel attempt d last w r w' :
  (∀ v x v', op v = (x, v') → table v' = table v) →
  Cache.attempts op name cfg fuel attempt d last w = (r, w') → table w' = table w.
Proof.
  intros Hop. revert attempt d last w.
  induction fuel as [|fuel IH]; intros attempt d last w E.
  { cbn in E. unfold throw in E. by simplify_eq. }
  rewrite attempts_unfold in E. cbv zeta in E.
  set (w0 := if 0 <? attempt then _ else w) in E.
  assert (B0 : table w0 = table w) by (subst w0; by destruct (0 <? attempt)).
  destruct (op w0) as [[a|e] w1] eqn:E0; apply Hop in E0.
  - simplify_eq. congruence.
  - destruct (attempt =? maxRetries cfg).
    + simplify_eq. unfold gave_up. cbn [table set_stats]. congruence.
    + apply IH in E. cbn [table add_line] in E. congruence.
Qed.

End RetryBeside.

(** ** The retry helper *)

Section Backoff.
Context {T : Type} (errf : World → JsError) (step : World → World).
Context (probe : World → nat).
Hypothesis step_sleeps : ∀ v, sleeps (step v) = sleeps v.
Hypothesis step_stats : ∀ v, stats (step v) = stats v.
Hypothesis step_probe : ∀ v, probe (step v) = S (probe v).
Hypothesis probe_sleep : ∀ v ms, probe (add_sleep ms v) = probe v.

Lemma backoff_attempts_failing m d f k attempt last w :
  attempt = m - Z.of_nat k →
  ∃ v, Helpers.backoff_attempts (failing errf step : M T) m d f (S k) attempt last w
       = (Throw (errf v), step v)
     ∧ sleeps (step v) = (sleeps w ++ powers d f k attempt)%list
     ∧ stats (step v) = stats w
     ∧ probe (step v) = (S k + probe w)%nat.
Proof.
  revert attempt last w. induction k as [|k IH]; intros attempt last w Ha.
  - cbn [Helpers.backoff_attempts]. unfold try_catch, failing.
    replace (attempt =? m) with true by (symmetry; apply Z.eqb_eq; lia).
    unfold throw. exists w. split; [done |].
    cbn [powers]. rewrite step_sleeps, step_stats, step_probe, app_nil_r. done.
  - cbn [Helpers.backoff_attempts]. unfold try_catch, failing at 1.
    replace (attempt =? m) with false by (symmetry; apply Z.eqb_neq; lia).
    cbv zeta. unfold bind, delay, modify.
    destruct (IH (attempt + 1) (Some (errf w))
                (add_sleep (d * f ^ attempt) (step w))) as (v & E & Hs & Hst & Hp); [lia |].
    exists v. split; [exact E |]. rewrite Hs, Hst, Hp.
    cbn [sleeps stats add_sleep powers]. rewrite probe_sleep, step_sleeps, step_stats, step_probe.
    rewrite <- app_assoc. repeat split; lia.
Qed.

(** X20. [retryWithBackoff] on a function that always fails: one run more
    than the retries allowed; before the retry number [k] a sleep of the
    initial delay times the factor to the power [k], with no cap; the last
    error is raised as it is, not wrapped; the counters of the cache are not
    involved. *)
Theorem backoff_exhaustion m d f w :
  0 ≤ m →
  ∃ v, Helpers.retryWithBackoff (failing errf step : M T) m d f w
       = (Throw (errf v), step v)
     ∧ sleeps (step v) = (sleeps w ++ powers d f (Z.to_nat m) 0)%list
     ∧ stats (step v) = stats w
     ∧ probe (step v) = (S (Z.to_nat m) + probe w)%nat.
Proof.
  intros Hm. unfold Helpers.retryWithBackoff.
  replace (Z.to_nat (m + 1)) with (S (Z.to_nat m)) by lia.
  apply backoff_attempts_failing. lia.
Qed.

End Backoff.

(** ** The engine *)

Section EngineFacts.
Context `{Config} `{JSON Product} `{JSON (list Product)}.

Ltac unfold_monad :=
  unfold console_log, console_warn, console_error, delay,
    Cache.updateStats, Cache.ensureConnection, Cache.client_hGetAll,
    Cache.client_hSet, Cache.client_expire, Cache.client_setEx, Cache.client_get,
    Cache.client_del, Cache.date_now, connected in *;
  unfold bind, ret, throw, try_catch, modify, lift in *;
  cbv beta in *.

Ltac project :=
  cbn [link checks store stats now sleeps console calls table
       set_store set_stats add_sleep add_line add_call set_table asked] in *.

Ltac counts_tac :=
  let P := fresh "P" in let HP := fresh "HP" in
  let w := fresh "w" in let r := fresh "r" in let w' := fresh "w'" in
  let E := fresh "E" in let Hw := fresh "Hw" in
  intros P HP w r w' E Hw; unfold_monad; destruct w; project;
  repeat (cbv beta in *; project; case_match; simplify_eq; try done);
  project; eauto.

Ltac beside_tac :=
  let w := fresh "w" in let r := fresh "r" in let w' := fresh "w'" in
  let E := fresh "E" in
  intros w r w' E; unfold_monad; destruct w; project;
  repeat (cbv beta in *; project; case_match; simplify_eq; try done).

Lemma only_calls_refl w : only_calls w w.
Proof. by repeat split. Qed.

Lemma only_calls_trans w v u : only_calls w v → only_calls v u → only_calls w u.
Proof. unfold only_calls. intros (?&?&?&?&?&?&?&?) (?&?&?&?&?&?&?&?). repeat split; congruence. Qed.

Lemma lookup_foldr_delete_keys (st : gmap string Backend.entry) ks k :
  foldr delete st ks !! k = if decide (k ∈ ks) then None else st !! k.
Proof.
  induction ks as [|x ks IH]; cbn [foldr].
  - rewrite decide_False; [done | apply not_elem_of_nil].
  - destruct (decide (k = x)) as [->|Hne].
    + rewrite lookup_delete_eq. rewrite decide_True; [done | apply elem_of_cons; by left].
    + rewrite lookup_delete_ne by done. rewrite IH.
      destruct (decide (k ∈ ks)).
      * rewrite decide_True; [done | apply elem_of_cons; by right].
      * rewrite decide_False; [done | apply not_elem_of_cons; by split].
Qed.

Lemma elem_of_matching pat st k :
  k ∈ matching pat st ↔ Backend.matches pat k = true ∧ is_Some (st !! k).
Proof.
  unfold matching. rewrite list_elem_of_filter, list_elem_of_fmap. split.
  - intros [Hm ([k' v] & -> & Hin)]. split; [done |].
    apply elem_of_map_to_list in Hin. by exists v.
  - intros [Hm [v Hv]]. split; [done |]. exists (k, v). split; [done |].
    by apply elem_of_map_to_list.
Qed.

(** The rounds of SCAN gather every matching key, and change nothing but
    the record of commands. *)
Lemma scan_rounds_all fuel pat cursor keys w :
  (length (map_to_list (store w)).*1 ≤ cursor + 100 * fuel)%nat →
  ∃ w', Cache.scan_rounds fuel pat cursor keys w
        = (Ok (keys ++ filter (λ k, Backend.matches pat k = true)
                         (drop cursor (map_to_list (store w)).*1))%list, w')
        ∧ only_calls w w'.
Proof.
  revert cursor keys w. induction fuel as [|fuel IH]; intros cursor keys w Hlen.
  { cbn [Cache.scan_rounds]. unfold ret. exists w. split; [| apply only_calls_refl].
    rewrite drop_ge by lia. by rewrite filter_nil, app_nil_r. }
  cbn [Cache.scan_rounds]. unfold bind at 1. unfold Cache.client_scan at 1.
  unfold Backend.scan. cbn [fst snd].
  set (ks := (map_to_list (store w)).*1) in *.
  destruct (Nat.ltb_spec (cursor + 100) (length ks)) as [Hlt|Hge].
  - replace (cursor + 100 =? 0)%nat with false by (symmetry; apply Nat.eqb_neq; lia).
    destruct (IH (cursor + 100)%nat
                (keys ++ filter (λ k, Backend.matches pat k = true)
                           (take 100 (drop cursor ks)))%list
                (add_call (Backend.SCAN cursor pat 100) w)) as (w' & E & Hoc).
    { cbn [store add_call]. fold ks. lia. }
    rewrite E. exists w'. split.
    + f_equal. cbn [store add_call]. fold ks.
      rewrite <- app_assoc. f_equal. rewrite <- filter_app. f_equal.
      rewrite <- drop_drop. by rewrite take_drop.
    + eapply only_calls_trans; [| exact Hoc]. by repeat split.
  - cbn [Nat.eqb]. unfold ret. eexists. split.
    + f_equal. f_equal. f_equal. f_equal.
      apply take_ge. rewrite length_drop. lia.
    + by repeat split.
Qed.

Lemma scanKeys_all pat w :
  ∃ w', Cache.scanKeys pat w = (Ok (matching pat (store w)), w') ∧ only_calls w w'.
Proof.
  unfold Cache.scanKeys.
  destruct (scan_rounds_all (S (size (store w))) pat 0 [] w) as (w' & E & Hoc).
  { rewrite length_fmap, length_map_to_list. lia. }
  exists w'. split; [| done]. rewrite E. by rewrite drop_0.
Qed.

(** The loop over the patterns: every key that matches one of them is
    removed, every other key is kept as it is. *)
Lemma delete_patterns_run pats total w :
  ∃ n w', Cache.delete_patterns pats total w = (Ok n, w')
    ∧ link w' = link w ∧ checks w' = checks w ∧ stats w' = stats w
    ∧ now w' = now w ∧ sleeps w' = sleeps w ∧ console w' = console w
    ∧ table w' = table w
    ∧ ∀ k, store w' !! k
           = if existsb (λ p, Backend.matches p k) pats then None else store w !! k.
Proof.
  revert total w. induction pats as [|pat pats IH]; intros total w.
  - exists total, w. by repeat split.
  - cbn [Cache.delete_patterns]. unfold bind at 1.
    destruct (scanKeys_all pat w) as (w1 & -> & (Hl & Hc & Hs & Hst & Hn & Hsl & Hco & Ht)).
    destruct (Nat.ltb_spec 0 (length (matching pat (store w)))) as [Hne|Hem].
    + unfold bind at 1. unfold Cache.client_del at 1. unfold Backend.del.
      match goal with |- context [Cache.delete_patterns pats ?t ?v] =>
        destruct (IH t v) as (n & w' & -> & Hl' & Hc' & Hst' & Hn' & Hsl' & Hco' & Ht' & Hk) end.
      exists n, w'. cbn [link checks stats now sleeps console table add_call set_store store] in *.
      repeat split; try congruence.
      intros k. rewrite Hk. cbn [existsb].
      destruct (existsb _ pats); [by rewrite orb_true_r |]. rewrite orb_false_r.
      rewrite lookup_foldr_delete_keys, Hs.
      destruct (decide (k ∈ matching pat (store w))) as [Hin|Hnin].
      * apply elem_of_matching in Hin as [-> _]. done.
      * destruct (Backend.matches pat k) eqn:Em; [| done].
        destruct (store w !! k) eqn:Ek; [| done].
        exfalso. apply Hnin, elem_of_matching. eauto.
    + destruct (IH total w1) as (n & w' & -> & Hl' & Hc' & Hst' & Hn' & Hsl' & Hco' & Ht' & Hk).
      exists n, w'. repeat split; try congruence.
      intros k. rewrite Hk, Hs. cbn [existsb].
      destruct (existsb _ pats); [by rewrite orb_true_r |]. rewrite orb_false_r.
      destruct (Backend.matches pat k) eqn:Em; [| done].
      destruct (store w !! k) eqn:Ek; [| done].
      assert (Hin : k ∈ matching pat (store w)) by (apply elem_of_matching; eauto).
      destruct (matching pat (store w)); [by apply elem_of_nil in Hin | cbn in Hem; lia].
Qed.

Lemma invalidateProductLists_attempt_run o w :
  connected w = true →
  ∃ w', Cache.invalidateProductLists_attempt o w = (Ok tt, w')
    ∧ link w' = link w ∧ checks w' = S (checks w) ∧ stats w' = stats w
    ∧ ∀ k, store w' !! k
           = if existsb (λ p, Backend.matches p k) (list_patterns o)
             then None else store w !! k.
Proof.
  intros Hc. unfold Cache.invalidateProductLists_attempt.
  unfold bind at 1. unfold Cache.ensureConnection. rewrite Hc.
  unfold bind at 1.
  match goal with |- context [Cache.delete_patterns ?ps ?t ?v] =>
    destruct (delete_patterns_run ps t v)
      as (n & w' & -> & Hl' & Hc' & Hst' & Hn' & Hsl' & Hco' & Ht' & Hk) end.
  unfold console_log, modify. eexists. split; [reflexivity |].
  cbn [link checks stats store add_line asked] in *. by repeat split.
Qed.

Lemma cacheProduct_attempt_counts_only p o : counts_only (Cache.cacheProduct_attempt p o).
Proof. unfold Cache.cacheProduct_attempt. counts_tac. Qed.

Lemma getCachedProduct_attempt_counts_only i o :
  counts_only (Cache.getCachedProduct_attempt i o).
Proof. unfold Cache.getCachedProduct_attempt. counts_tac. Qed.

Lemma cacheProducts_attempt_counts_only l k o :
  counts_only (Cache.cacheProducts_attempt l k o).
Proof. unfold Cache.cacheProducts_attempt. counts_tac. Qed.

Lemma getCachedProducts_attempt_counts_only k o :
  counts_only (Cache.getCachedProducts_attempt k o).
Proof. unfold Cache.getCachedProducts_attempt. counts_tac. Qed.

Lemma invalidateProduct_attempt_counts_only i o :
  counts_only (Cache.invalidateProduct_attempt i o).
Proof. unfold Cache.invalidateProduct_attempt. counts_tac. Qed.

Lemma updateProductHash_attempt_counts_only i f o :
  counts_only (Cache.updateProductHash_attempt i f o).
Proof. unfold Cache.updateProductHash_attempt. counts_tac. Qed.

Lemma invalidateProductLists_attempt_counts_only o :
  counts_only (Cache.invalidateProductLists_attempt o).
Proof.
  intros P HP w r w' E Hw. unfold Cache.invalidateProductLists_attempt in E.
  unfold bind at 1 in E. unfold Cache.ensureConnection in E.
  destruct (connected w); [| by simplify_eq].
  unfold bind at 1 in E.
  match type of E with context [Cache.delete_patterns ?ps ?t ?v] =>
    destruct (delete_patterns_run ps t v)
      as (n & w1 & E1 & _ & _ & Hst & _) end.
  rewrite E1 in E. unfold console_log, modify in E. simplify_eq.
  cbn [stats add_line]. by rewrite Hst.
Qed.

Lemma cacheProduct_attempt_asks_once p o : asks_once (Cache.cacheProduct_attempt p o).
Proof. unfold Cache.cacheProduct_attempt. beside_tac. Qed.

Lemma getCachedProduct_attempt_asks_once i o :
  asks_once (Cache.getCachedProduct_attempt i o).
Proof. unfold Cache.getCachedProduct_attempt. beside_tac. Qed.

Lemma cacheProducts_attempt_asks_once l k o :
  asks_once (Cache.cacheProducts_attempt l k o).
Proof. unfold Cache.cacheProducts_attempt. beside_tac. Qed.

Lemma getCachedProducts_attempt_asks_once k o :
  asks_once (Cache.getCachedProducts_attempt k o).
Proof. unfold Cache.getCachedProducts_attempt. beside_tac. Qed.

Lemma invalidateProduct_attempt_asks_once i o :
  asks_once (Cache.invalidateProduct_attempt i o).
Proof. unfold Cache.invalidateProduct_attempt. beside_tac. Qed.

Lemma updateProductHash_attempt_asks_once i f o :
  asks_once (Cache.updateProductHash_attempt i f o).
Proof. unfold Cache.updateProductHash_attempt. beside_tac. Qed.

Lemma invalidateProductLists_attempt_asks_once o :
  asks_once (Cache.invalidateProductLists_attempt o).
Proof.
  intros w r w' E. unfold Cache.invalidateProductLists_attempt in E.
  unfold bind at 1 in E. unfold Cache.ensureConnection in E.
  destruct (connected w); [| by simplify_eq].
  unfold bind at 1 in E.
  match type of E with context [Cache.delete_patterns ?ps ?t ?v] =>
    destruct (delete_patterns_run ps t v)
      as (n & w1 & E1 & _ & Hck & _) end.
  rewrite E1 in E. unfold console_log, modify in E. simplify_eq.
  cbn [checks add_line]. by rewrite Hck.
Qed.

Lemma kept_coherent : kept coherent.
Proof.
  assert (R : ∀ hit e r s,
             coherent s → (e = false ∨ hit = false) → (r = false ∨ hit = false) →
             (e = false ∨ r = false) →
             coherent (Cache.updated_stats hit e r s)).
  { intros hit e r s (Ho & Hm & Hr) He Hre Her. unfold coherent, Cache.updated_stats.
    cbn [hits misses operations errors retries hitRate].
    replace (0 <? operations s + 1)%N with true by (symmetry; apply N.ltb_lt; lia).
    replace (operations s + 1 =? 0)%N with false by (symmetry; apply N.eqb_neq; lia).
    split; [| split].
    - destruct hit; cbn [Cache.bump negb]; lia.
    - destruct hit, e, r; cbn [Cache.bump negb]; try lia;
        destruct He, Hre, Her; congruence.
    - done. }
  split; [| split]; intros; apply R; auto.
Qed.

Lemma call_kept P r w :
  kept P → P (stats w) → P (stats (call r w).2).
Proof.
  intros K Hw.
  destruct r as [p o|i o|l k o|k o|i o|o|i f o]; cbn [call];
    match goal with |- context [outcome (?f w)] =>
      destruct (f w) as [[a|e] w'] eqn:E end; cbn [outcome snd];
    unfold Cache.cacheProduct, Cache.getCachedProduct, Cache.cacheProducts,
      Cache.getCachedProducts, Cache.invalidateProduct, Cache.invalidateProductLists,
      Cache.updateProductHash, Cache.executeWithRetry in E;
    (eapply attempts_kept; [exact K | | exact E | exact Hw]);
    eauto using cacheProduct_attempt_counts_only, getCachedProduct_attempt_counts_only,
      cacheProducts_attempt_counts_only, getCachedProducts_attempt_counts_only,
      invalidateProduct_attempt_counts_only, invalidateProductLists_attempt_counts_only,
      updateProductHash_attempt_counts_only.
Qed.

(** X3. Whatever the engine is asked, in whatever order and with whatever
    result, its counters stay coherent: the operations are the hits plus the
    misses, the errors and the retries are among the misses, and the hit
    rate is never stale: it is the binary64 number
    [(hits / operations) * 100] of the counters as they are (0 when there
    are no operations). *)
Theorem statistics_stay_coherent rs w :
  coherent (stats w) → coherent (stats (session rs w)).
Proof.
  revert w. induction rs as [|r rs IH]; intros w Hw; cbn [session]; [done |].
  apply IH. by apply call_kept; [apply kept_coherent |].
Qed.

(** X2. Whatever public operation of the engine is called, in whatever
    world: a call that fails raises the operation error that is named after
    the method, says [failed after 3 retries] and wraps what the last
    attempt raised, and counts exactly one error; a call that returns counts
    none.  (The last attempt is the fourth: the one made in the world [v]
    that three connection checks precede, and whose world [v'] the call
    leaves, with the error counted.) *)
Theorem failures_are_operation_errors r w :
  match call r w with
  | (None, w') => errors (stats w') = errors (stats w)
  | (Some e, w') =>
      errors (stats w') = (errors (stats w) + 1)%N
      ∧ ∃ cause v v',
          attempt r v = (Some cause, v')
          ∧ checks v = (3 + checks w)%nat
          ∧ w' = gave_up v'
          ∧ e = CacheOperationError
                  ("Operation " ++ method r ++ " failed after 3 retries: "
                   ++ message cause)
                  (method r) cause
  end.
Proof.
  destruct r as [p o|i o|l k o|k o|i o|o|i f o]; cbn [call method attempt];
    match goal with |- context [outcome (?f w)] =>
      destruct (f w) as [[a|e] w'] eqn:E end; cbn [outcome];
    try (apply retry_end in E;
         eauto using cacheProduct_attempt_counts_only,
           getCachedProduct_attempt_counts_only, cacheProducts_attempt_counts_only,
           getCachedProducts_attempt_counts_only, invalidateProduct_attempt_counts_only,
           invalidateProductLists_attempt_counts_only,
           updateProductHash_attempt_counts_only;
         by destruct E);
    (split;
     [ apply retry_end in E;
       eauto using cacheProduct_attempt_counts_only,
         getCachedProduct_attempt_counts_only, cacheProducts_attempt_counts_only,
         getCachedProducts_attempt_counts_only, invalidateProduct_attempt_counts_only,
         invalidateProductLists_attempt_counts_only,
         updateProductHash_attempt_counts_only;
       by destruct E
     | apply retry_last in E;
       eauto using cacheProduct_attempt_asks_once, getCachedProduct_attempt_asks_once,
         cacheProducts_attempt_asks_once, getCachedProducts_attempt_asks_once,
         invalidateProduct_attempt_asks_once, invalidateProductLists_attempt_asks_once,
         updateProductHash_attempt_asks_once;
       destruct E as (cause & v & v' & Ev & Hc & Hw & He);
       exists cause, v, v'; rewrite Ev; by cbn [outcome] ]).
Qed.

(** *** Matching keys *)

Lemma string_length_app (s t : string) :
  String.length (s ++ t) = (String.length s + String.length t)%nat.
Proof. induction s as [|c s IH]; [done |]. simpl. by rewrite IH. Qed.

Lemma glob_star fuel s :
  (String.length s + 2 ≤ fuel)%nat → Backend.glob fuel "*" s = true.
Proof.
  revert fuel. induction s as [|c s IH]; intros fuel Hf.
  - destruct fuel as [|[|fuel]]; [cbn in Hf; lia | cbn in Hf; lia | reflexivity].
  - destruct fuel as [|fuel]; [cbn in Hf; lia |].
    cbn [Backend.glob]. rewrite IH by (cbn in Hf; lia). apply orb_true_r.
Qed.

Lemma glob_plain_char fuel c pat s :
  plain (String c "") = true →
  Backend.glob (S fuel) (String c pat) (String c s) = Backend.glob fuel pat s.
Proof.
  cbn [plain]. rewrite !andb_true_iff, !negb_true_iff.
  intros (((((Ha & Hb) & _) & _) & _) & _).
  cbn [Backend.glob].
  destruct c as [[] [] [] [] [] [] [] []]; try done; by rewrite ?Ascii.eqb_refl.
Qed.

Lemma glob_plain_prefix p fuel pat s :
  plain p = true →
  Backend.glob (String.length p + fuel) (p ++ pat) (p ++ s) = Backend.glob fuel pat s.
Proof.
  induction p as [|c p IH]; intros Hp; [done |].
  change (Backend.glob (S (String.length p + fuel)) (String c (p ++ pat)) (String c (p ++ s))
          = Backend.glob fuel pat s).
  rewrite glob_plain_char.
  - apply IH. cbn [plain] in Hp. by apply andb_prop in Hp as [_ ?].
  - cbn [plain] in *. rewrite andb_true_r. by apply andb_prop in Hp as [? _].
Qed.

(** A pattern made of a plain text and a final star matches what begins
    with the text. *)
Lemma matches_plain_star p s :
  plain p = true → Backend.matches (p ++ "*") (p ++ s) = true.
Proof.
  intros Hp. unfold Backend.matches.
  replace (S (String.length (p ++ "*") + String.length (p ++ s)))
    with (String.length p + (String.length p + String.length s + 2))%nat.
  - rewrite glob_plain_prefix by done. apply glob_star. lia.
  - rewrite !string_length_app. cbn [String.length]. lia.
Qed.

Lemma plain_app p q : plain (p ++ q) = plain p && plain q.
Proof.
  induction p as [|c p IH]; [done |]. simpl. rewrite IH.
  by rewrite !andb_assoc.
Qed.

Lemma string_app_assoc (a b c : string) : (a ++ b) ++ c = a ++ b ++ c.
Proof.
  induction a as [|x a IH]; [done |].
  change (String x ((a ++ b) ++ c) = String x (a ++ b ++ c)). by rewrite IH.
Qed.

Lemma plain_or_string o d :
  plain_prefix o → plain d = true → plain (or_string (prefix o) d) = true.
Proof.
  intros Hp Hd. unfold or_string. destruct (prefix o) as [p|] eqn:E; [| done].
  destruct (JS.truthy p); [by apply Hp | done].
Qed.

(** The key of a cached list matches the first pattern. *)
Lemma list_key_matches o cacheKey :
  plain_prefix o →
  Backend.matches (or_string (prefix o) Cache.CACHE_PREFIX ++ ":list:*")
    (Cache.generateKey ("list:" ++ cacheKey) (prefix o)) = true.
Proof.
  intros Hp. unfold Cache.generateKey.
  set (P := or_string (prefix o) Cache.CACHE_PREFIX).
  change (P ++ ":list:*") with (P ++ ":list:" ++ "*").
  change (P ++ ":" ++ "list:" ++ cacheKey) with (P ++ ":list:" ++ cacheKey).
  rewrite <- !string_app_assoc. apply matches_plain_star.
  rewrite plain_app. subst P. by rewrite plain_or_string.
Qed.

(** Under a prefix of the caller's, the second pattern matches every key
    made with that prefix. *)
Lemma prefixed_key_matches p rest :
  JS.truthy p = true → plain p = true →
  Backend.matches (or_string (Some p) Cache.LIST_PREFIX ++ ":*") (p ++ ":" ++ rest) = true.
Proof.
  intros Ht Hp. unfold or_string. rewrite Ht.
  change (p ++ ":*") with (p ++ ":" ++ "*").
  rewrite <- !string_app_assoc. apply matches_plain_star.
  rewrite plain_app. by rewrite Hp.
Qed.

(** The default patterns match neither key of a product. *)
Lemma hash_key_unmatched x :
  Backend.matches "product:list:*" ("products_hash:" ++ x) = false
  ∧ Backend.matches "products_list:*" ("products_hash:" ++ x) = false.
Proof. split; reflexivity. Qed.

Lemma string_key_unmatched x :
  Backend.matches "product:list:*" ("product:single:" ++ x) = false
  ∧ Backend.matches "products_list:*" ("product:single:" ++ x) = false.
Proof. split; reflexivity. Qed.

(** *** Lists *)

Lemma getCachedProducts_attempt_miss k o w :
  connected w = true →
  store w !! Cache.generateKey ("list:" ++ k) (prefix o) = None →
  ∃ w', Cache.getCachedProducts_attempt k o w = (Ok None, w').
Proof.
  intros Hc Hk. unfold Cache.getCachedProducts_attempt.
  unfold connected in Hc. unfold_monad. rewrite Hc.
  unfold Backend.get. cbv beta. project. rewrite Hk. eauto.
Qed.

Lemma getCachedProducts_attempt_hit k o w text e l :
  connected w = true →
  store w !! Cache.generateKey ("list:" ++ k) (prefix o)
    = Some (Backend.mkEntry (Backend.VString text) e) →
  JS.truthy text = true → parse text = Some l →
  ∃ w', Cache.getCachedProducts_attempt k o w = (Ok (Some l), w').
Proof.
  intros Hc Hk Ht Hp. unfold Cache.getCachedProducts_attempt.
  unfold connected in Hc. unfold_monad. rewrite Hc.
  unfold Backend.get. cbv beta. project. rewrite Hk, Ht, Hp. eauto.
Qed.

Lemma cacheProducts_attempt_ok l k o v w1 :
  Cache.cacheProducts_attempt l k o v = (Ok tt, w1) →
  0 < Cache.getProductListTTL (ttl o)
  ∧ store w1
    = <[Cache.generateKey ("list:" ++ k) (prefix o)
        := Backend.mkEntry (Backend.VString (stringify l))
                           (Some (Cache.getProductListTTL (ttl o)))]> (store v)
  ∧ link w1 = link v ∧ checks w1 = S (checks v).
Proof.
  intros E. unfold Cache.cacheProducts_attempt in E. unfold_monad.
  destruct v as [lk ck st ss nw sl cn cl tb]; project. destruct (lk ck); [| done].
  unfold Backend.setEx in E.
  destruct (Z.leb_spec (Cache.getProductListTTL (ttl o)) 0); [done |].
  project. simplify_eq. project. done.
Qed.

Lemma cacheProducts_attempt_keeps l k o : keeps_backend (Cache.cacheProducts_attempt l k o).
Proof.
  unfold Cache.cacheProducts_attempt. intros w e w' E. unfold_monad.
  destruct w; project.
  repeat (cbv beta in *; project; case_match; simplify_eq; try done).
  project. unfold Backend.setEx in *. case_match; by simplify_eq.
Qed.

Lemma invalidateProductLists_attempt_keeps o :
  keeps_backend (Cache.invalidateProductLists_attempt o).
Proof.
  intros w e w' E. unfold Cache.invalidateProductLists_attempt in E.
  unfold bind at 1 in E. unfold Cache.ensureConnection in E.
  destruct (connected w); [| by simplify_eq].
  unfold bind at 1 in E.
  match type of E with context [Cache.delete_patterns ?ps ?t ?v] =>
    destruct (delete_patterns_run ps t v) as (n & w1 & E1 & _) end.
  rewrite E1 in E. unfold console_log, modify in E. done.
Qed.

(** X6. A list that was cached is read back under the same key and
    prefix, as the codec reads what it wrote; so is the empty list, whose
    text is not empty. *)
Theorem list_roundtrip l k o o' w w1 :
  prefix o' = prefix o →
  parse (stringify l) = Some l → JS.truthy (stringify l) = true →
  Cache.cacheProducts l k o w = (Ok tt, w1) →
  connected w1 = true →
  ∃ w2, Cache.getCachedProducts k o' w1 = (Ok (Some l), w2).
Proof.
  intros Hp Hl Ht E Hc.
  apply retry_ok_origin in E as (v & _ & E); [| apply cacheProducts_attempt_keeps].
  apply cacheProducts_attempt_ok in E as (_ & Est & _).
  destruct (getCachedProducts_attempt_hit k o' w1 (stringify l)
              (Some (Cache.getProductListTTL (ttl o))) l) as [w2 E2]; try done.
  - rewrite Hp, Est. apply lookup_insert_eq.
  - exists w2. by apply retry_first_try.
Qed.

(** X8. With the connection up, [invalidateProductLists] returns and has
    removed exactly the keys that match one of its two patterns; a list
    read that follows, under the same prefix, is a miss.  (The prefix holds
    no character that a glob pattern gives a meaning to.) *)
Theorem invalidated_lists_are_gone o w :
  connected w = true → plain_prefix o →
  ∃ w', Cache.invalidateProductLists o w = (Ok tt, w')
    ∧ (∀ k, store w' !! k
            = if existsb (λ p, Backend.matches p k) (list_patterns o)
              then None else store w !! k)
    ∧ ∀ cacheKey o', prefix o' = prefix o → connected w' = true →
        ∃ w'', Cache.getCachedProducts cacheKey o' w' = (Ok None, w'').
Proof.
  intros Hc Hp.
  destruct (invalidateProductLists_attempt_run o w Hc) as (w' & E & _ & _ & _ & Hk).
  exists w'. split; [by apply retry_first_try |]. split; [done |].
  intros cacheKey o' Hp' Hc'.
  destruct (getCachedProducts_attempt_miss cacheKey o' w' Hc') as [w'' E''].
  - rewrite Hp', Hk. unfold list_patterns. cbn [existsb].
    by rewrite list_key_matches.
  - exists w''. by apply retry_first_try.
Qed.

(** A call of [invalidateProductLists] that returns, whenever it was made. *)
Lemma invalidateProductLists_ok o w w' :
  Cache.invalidateProductLists o w = (Ok tt, w') →
  ∀ k, store w' !! k
       = if existsb (λ p, Backend.matches p k) (list_patterns o)
         then None else store w !! k.
Proof.
  intros E.
  apply retry_ok_origin in E as (v & (_ & Es & _) & E);
    [| apply invalidateProductLists_attempt_keeps].
  destruct (connected v) eqn:Hc.
  - destruct (invalidateProductLists_attempt_run o v Hc) as (w2 & E2 & _ & _ & _ & Hk).
    rewrite E in E2. simplify_eq. intros k. by rewrite Hk, Es.
  - unfold Cache.invalidateProductLists_attempt in E. unfold bind at 1 in E.
    unfold Cache.ensureConnection in E. by rewrite Hc in E.
Qed.

Lemma default_patterns_spare_products o w w' i :
  prefix o = None →
  Cache.invalidateProductLists o w = (Ok tt, w') →
  store w' !! Cache.generateHashKey i None = store w !! Cache.generateHashKey i None
  ∧ store w' !! Cache.generateKey ("single:" ++ JS.toString i) None
    = store w !! Cache.generateKey ("single:" ++ JS.toString i) None.
Proof.
  intros Hp E. pose proof (invalidateProductLists_ok o w w' E) as Hk.
  unfold list_patterns in Hk. rewrite Hp in Hk.
  split; rewrite Hk;
    match goal with |- (if ?b then _ else _) = _ => by replace b with false end.
Qed.

(** X9. With the default prefixes the list patterns match neither key of a
    product: invalidating the lists leaves the cached products alone, and a
    product whose hash was in the cache is still served. *)
Theorem list_invalidation_keeps_products o w w' :
  prefix o = None →
  Cache.invalidateProductLists o w = (Ok tt, w') →
  ∀ i,
    store w' !! Cache.generateHashKey i None = store w !! Cache.generateHashKey i None
    ∧ store w' !! Cache.generateKey ("single:" ++ JS.toString i) None
      = store w !! Cache.generateKey ("single:" ++ JS.toString i) None
    ∧ ∀ h e p o',
        store w !! Cache.generateHashKey i None
          = Some (Backend.mkEntry (Backend.VHash h) e) →
        Cache.reconstructProductFromHash h = Ok p →
        useHash o' ≠ Some false → prefix o' = None → connected w' = true →
        ∃ w'', Cache.getCachedProduct i o' w' = (Ok (Some p), w'').
Proof.
  intros Hp E i.
  destruct (default_patterns_spare_products o w w' i Hp E) as [K1 K2].
  split; [done |]. split; [done |].
  intros h e p o' Hk Hr Hh Hp' Hc.
  destruct (getCachedProduct_attempt_hit i o' w' h e p Hc Hh) as [w'' E'']; [| done |].
  - by rewrite Hp', K1.
  - exists w''. by apply retry_first_try.
Qed.

(** X10. Under a prefix of the caller's the second pattern is the prefix
    followed by [:*], which every key made with that prefix matches:
    invalidating the lists removes the products cached under the prefix
    too, and a read of any of them, in either mode, is a miss. *)
Theorem prefixed_list_invalidation_drops_products p o w :
  prefix o = Some p → JS.truthy p = true → plain p = true →
  connected w = true →
  ∃ w', Cache.invalidateProductLists o w = (Ok tt, w')
    ∧ ∀ i,
        store w' !! Cache.generateHashKey i (Some p) = None
        ∧ store w' !! Cache.generateKey ("single:" ++ JS.toString i) (Some p) = None
        ∧ ∀ o', prefix o' = Some p → connected w' = true →
            ∃ w'', Cache.getCachedProduct i o' w' = (Ok None, w'').
Proof.
  intros Hp Ht Hpl Hc.
  destruct (invalidateProductLists_attempt_run o w Hc) as (w' & E & _ & _ & _ & Hk).
  exists w'. split; [by apply retry_first_try |]. intros i.
  assert (G1 : Cache.generateHashKey i (Some p) = p ++ ":" ++ JS.toString i)
    by (unfold Cache.generateHashKey, or_string; by rewrite Ht).
  assert (G2 : Cache.generateKey ("single:" ++ JS.toString i) (Some p)
               = p ++ ":" ++ "single:" ++ JS.toString i)
    by (unfold Cache.generateKey, or_string; by rewrite Ht).
  assert (K1 : store w' !! Cache.generateHashKey i (Some p) = None).
  { rewrite Hk. unfold list_patterns. rewrite Hp. cbn [existsb]. rewrite G1.
    rewrite prefixed_key_matches by done. by rewrite orb_true_r. }
  assert (K2 : store w' !! Cache.generateKey ("single:" ++ JS.toString i) (Some p) = None).
  { rewrite Hk. unfold list_patterns. rewrite Hp. cbn [existsb]. rewrite G2.
    rewrite prefixed_key_matches by done. by rewrite orb_true_r. }
  split; [done |]. split; [done |].
  intros o' Hp' Hc'.
  destruct (getCachedProduct_attempt_miss i o' w' Hc') as [w'' E''].
  - by rewrite Hp'.
  - by rewrite Hp'.
  - exists w''. by apply retry_first_try.
Qed.

(** *** The string representation *)

Lemma cacheProduct_attempt_string p o v w1 :
  useHash o = Some false →
  Cache.cacheProduct_attempt p o v = (Ok tt, w1) →
  0 < Cache.getProductTTL (ttl o)
  ∧ store w1
    = <[Cache.generateKey ("single:" ++ JS.toString (id p)) (prefix o)
        := Backend.mkEntry (Backend.VString (stringify p))
                           (Some (Cache.getProductTTL (ttl o)))]> (store v).
Proof.
  intros Hh E. unfold Cache.cacheProduct_attempt in E. rewrite Hh in E.
  change (default true (Some false)) with false in E. unfold_monad.
  destruct v as [lk ck st ss nw sl cn cl tb]; project. destruct (lk ck); [| discriminate].
  unfold Backend.setEx in E.
  destruct (Z.leb_spec (Cache.getProductTTL (ttl o)) 0); [discriminate |].
  project. simplify_eq. project. split; [lia | done].
Qed.

Lemma getCachedProduct_attempt_text i o w text e p :
  connected w = true → useHash o = Some false →
  store w !! Cache.generateKey ("single:" ++ JS.toString i) (prefix o)
    = Some (Backend.mkEntry (Backend.VString text) e) →
  JS.truthy text = true → parse text = Some p →
  ∃ w', Cache.getCachedProduct_attempt i o w = (Ok (Some p), w').
Proof.
  intros Hc Hh Hk Ht Hp. unfold Cache.getCachedProduct_attempt. rewrite Hh.
  change (default true (Some false)) with false. unfold connected in Hc. unfold_monad. rewrite Hc.
  unfold Backend.get. cbv beta. project. rewrite Hk, Ht, Hp. eauto.
Qed.

(** X5. A product cached as a string is read back in string mode as the
    codec reads what it wrote, with no condition on the id, the price or
    the texts: the string holds [JSON.stringify] of the product and the
    read answers [JSON.parse] of it. *)
Theorem roundtrip_string_mode p o o' w w1 :
  useHash o = Some false → useHash o' = Some false → prefix o' = prefix o →
  parse (stringify p) = Some p → JS.truthy (stringify p) = true →
  Cache.cacheProduct p o w = (Ok tt, w1) →
  connected w1 = true →
  ∃ w2, Cache.getCachedProduct (id p) o' w1 = (Ok (Some p), w2).
Proof.
  intros Hh Hh' Hp Hl Ht E Hc.
  apply retry_ok_origin in E as (v & _ & E); [| apply cacheProduct_attempt_keeps].
  apply cacheProduct_attempt_string in E as (_ & Est); [| done].
  destruct (getCachedProduct_attempt_text (id p) o' w1 (stringify p)
              (Some (Cache.getProductTTL (ttl o))) p) as [w2 E2]; try done.
  - rewrite Hp, Est. apply lookup_insert_eq.
  - exists w2. by apply retry_first_try.
Qed.

(** *** The two representations live under different keys *)

Lemma string_app_inv (p a b : string) : p ++ a = p ++ b → a = b.
Proof.
  induction p as [|c p IH]; [done |].
  change (String c (p ++ a) = String c (p ++ b) → a = b). intros E. apply IH. congruence.
Qed.

Lemma keys_differ i pfx :
  Cache.generateHashKey i pfx ≠ Cache.generateKey ("single:" ++ JS.toString i) pfx.
Proof.
  unfold Cache.generateHashKey, Cache.generateKey, or_string.
  destruct pfx as [p|]; [destruct (JS.truthy p) |].
  - intros E%string_app_inv%string_app_inv.
    apply (f_equal String.length) in E. rewrite string_length_app in E.
    cbn [String.length] in E. lia.
  - discriminate.
  - discriminate.
Qed.

Lemma cacheProduct_attempt_frame p o v w1 k :
  Cache.cacheProduct_attempt p o v = (Ok tt, w1) →
  k ≠ (if default true (useHash o)
       then Cache.generateHashKey (id p) (prefix o)
       else Cache.generateKey ("single:" ++ JS.toString (id p)) (prefix o)) →
  store w1 !! k = store v !! k.
Proof.
  intros E Hk. unfold Cache.cacheProduct_attempt in E.
  destruct (default true (useHash o)); unfold_monad;
    destruct v as [lk ck st ss nw sl cn cl tb]; project; (destruct (lk ck); [| discriminate]).
  - destruct (Backend.hSet _ _ _) as [[n|e] st1] eqn:Eh; [| discriminate].
    destruct (Backend.expire _ _ _) as [[b|e] st2] eqn:Ee; [| discriminate].
    project. simplify_eq. project.
    apply hSet_ok in Eh as (e & -> & _).
    unfold Backend.expire in Ee. rewrite lookup_insert_eq in Ee.
    destruct (_ <=? 0); simplify_eq.
    + rewrite lookup_delete_ne by done. by rewrite lookup_insert_ne.
    + rewrite lookup_insert_ne by done. by rewrite lookup_insert_ne.
  - unfold Backend.setEx in E. destruct (_ <=? 0); [discriminate |].
    project. simplify_eq. project. by rewrite lookup_insert_ne.
Qed.

(** X7. The two representations live under different keys, and a read
    looks at the key of its own mode only: what was cached in one mode is a
    miss in the other (when the other key holds nothing). *)
Theorem modes_do_not_mix p o o' w w1 :
  prefix o' = prefix o →
  default true (useHash o') = negb (default true (useHash o)) →
  store w !! (if default true (useHash o')
              then Cache.generateHashKey (id p) (prefix o)
              else Cache.generateKey ("single:" ++ JS.toString (id p)) (prefix o)) = None →
  Cache.cacheProduct p o w = (Ok tt, w1) →
  connected w1 = true →
  ∃ w2, Cache.getCachedProduct (id p) o' w1 = (Ok None, w2).
Proof.
  intros Hp Hm Hk E Hc.
  apply retry_ok_origin in E as (v & (_ & Es & _) & E); [| apply cacheProduct_attempt_keeps].
  pose proof (keys_differ (id p) (prefix o)) as Hd.
  assert (Hk1 : store w1 !! (if default true (useHash o')
                             then Cache.generateHashKey (id p) (prefix o)
                             else Cache.generateKey ("single:" ++ JS.toString (id p))
                                    (prefix o)) = None).
  { rewrite (cacheProduct_attempt_frame _ _ _ _ _ E); [by rewrite <- Es |].
    rewrite Hm. by destruct (default true (useHash o)); cbn [negb]. }
  assert (R : ∃ w2, Cache.getCachedProduct_attempt (id p) o' w1 = (Ok None, w2)).
  { unfold Cache.getCachedProduct_attempt. unfold connected in Hc. unfold_monad.
    rewrite Hc. rewrite Hp. destruct (default true (useHash o')).
    - unfold Backend.hGetAll. cbv beta. project. rewrite Hk1.
      rewrite map_size_empty. cbn. eauto.
    - unfold Backend.get. cbv beta. project. rewrite Hk1. eauto. }
  destruct R as [w2 E2]. exists w2. by apply retry_first_try.
Qed.

(** *** What a malformed hash does to the counters *)

Lemma hits_updated hit e r s :
  hits (Cache.updated_stats hit e r s) = Cache.bump hit (hits s).
Proof. reflexivity. Qed.

Lemma misses_updated hit e r s :
  misses (Cache.updated_stats hit e r s) = Cache.bump (negb hit) (misses s).
Proof. reflexivity. Qed.

Lemma operations_updated hit e r s :
  operations (Cache.updated_stats hit e r s) = (operations s + 1)%N.
Proof. reflexivity. Qed.

Lemma errors_updated hit e r s :
  errors (Cache.updated_stats hit e r s) = Cache.bump e (errors s).
Proof. reflexivity. Qed.

Lemma retries_updated hit e r s :
  retries (Cache.updated_stats hit e r s) = Cache.bump r (retries s).
Proof. reflexivity. Qed.

Lemma getCachedProduct_attempt_malformed_run i o w h e err :
  connected w = true → useHash o ≠ Some false →
  store w !! Cache.generateHashKey i (prefix o)
    = Some (Backend.mkEntry (Backend.VHash h) e) →
  (0 <? size h)%nat = true →
  Cache.reconstructProductFromHash h = Throw err →
  Cache.getCachedProduct_attempt i o w
  = (Throw err,
     add_line (Log ("Cache hit for product " ++ JS.toString i ++ " (hash)"))
       (set_stats (Cache.updated_stats true false false (stats w))
          (add_call (Backend.HGETALL (Cache.generateHashKey i (prefix o))) (asked w)))).
Proof.
  intros Hc Hh Hk Hs Hr. unfold Cache.getCachedProduct_attempt.
  rewrite (default_hash o Hh). unfold connected in Hc. unfold_monad. rewrite Hc.
  unfold Backend.hGetAll. cbv beta. project. by rewrite Hk, Hs, Hr.
Qed.

(** X4. Every attempt to read a malformed hash counts a hit before the
    validation fails it: the call that gives up has asked the backend four
    times and has counted four hits, four misses (three retries and the
    final failure), eight operations and one error. *)
Theorem malformed_read_counts_hits i o w h e :
  steady w → useHash o ≠ Some false →
  store w !! Cache.generateHashKey i (prefix o)
    = Some (Backend.mkEntry (Backend.VHash h) e) →
  h ≠ ∅ → malformed h = true →
  ∃ err w',
    Cache.getCachedProduct i o w = (Throw err, w')
    ∧ hits (stats w') = (hits (stats w) + 4)%N
    ∧ misses (stats w') = (misses (stats w) + 4)%N
    ∧ operations (stats w') = (operations (stats w) + 8)%N
    ∧ errors (stats w') = (errors (stats w) + 1)%N
    ∧ retries (stats w') = (retries (stats w) + 3)%N
    ∧ calls w'
      = (calls w ++ repeat (Backend.HGETALL (Cache.generateHashKey i (prefix o))) 4)%list.
Proof.
  intros Hst Hh Hk Hne Hm.
  destruct (reconstruct_malformed h Hm) as (m & Hr & _).
  assert (Hs : (0 <? size h)%nat = true).
  { apply Nat.ltb_lt. destruct (decide (size h = 0%nat)) as [E|]; [| lia].
    by apply map_size_empty_iff in E. }
  set (key := Cache.generateHashKey i (prefix o)) in *.
  set (run := λ v : World,
         add_line (Log ("Cache hit for product " ++ JS.toString i ++ " (hash)"))
           (set_stats (Cache.updated_stats true false false (stats v))
              (add_call (Backend.HGETALL key) (asked v)))).
  assert (R : ∀ v, link v = link w → store v = store w →
                   Cache.getCachedProduct_attempt i o v = (Throw (Error m), run v)).
  { intros v Hl Hs'. apply (getCachedProduct_attempt_malformed_run i o v h e); try done.
    - unfold connected. rewrite Hl. apply Hst.
    - by rewrite Hs'. }
  pose (w1 := run w).
  pose (w2 := run (between "getCachedProduct" 0 100 (Error m) w1)).
  pose (w3 := run (between "getCachedProduct" 1 200 (Error m) w2)).
  pose (w4 := run (between "getCachedProduct" 2 400 (Error m) w3)).
  exists (Cache.retries_exhausted "getCachedProduct" Cache.retryConfig (Error m)),
    (gave_up w4).
  split.
  - apply (retry_four_failures _ _ w (Error m) w1 (Error m) w2 (Error m) w3 (Error m) w4);
      apply R; done.
  - unfold gave_up, w4, w3, w2, w1, run, between.
    cbn [stats set_stats add_sleep add_line add_call asked calls repeat].
    rewrite !hits_updated, !misses_updated, !operations_updated, !errors_updated,
      !retries_updated.
    unfold Cache.bump. cbn [negb]. rewrite <- !app_assoc.
    repeat split; lia.
Qed.

(** *** Times to live *)

(** X21. A partial update sends no EXPIRE: the time to live of a hash that
    is in the cache is after [updateProductHash] what it was before. *)
Theorem partial_update_keeps_the_expiry i f o w w' h e :
  Cache.updateProductHash i f o w = (Ok tt, w') →
  store w !! Cache.generateHashKey i (prefix o)
    = Some (Backend.mkEntry (Backend.VHash h) e) →
  ∃ h', store w' !! Cache.generateHashKey i (prefix o)
        = Some (Backend.mkEntry (Backend.VHash h') e).
Proof.
  intros E Hk.
  apply retry_ok_origin in E as (v & (_ & Es & _) & E);
    [| apply updateProductHash_attempt_keeps].
  apply updateProductHash_attempt_ok in E as (_ & _ & _ & e' & Est & Hd).
  rewrite <- Es in Hd. rewrite Hk in Hd.
  destruct Hd as [[? _]|Hd]; [done |]. simplify_eq.
  rewrite Est, lookup_insert_eq. eauto.
Qed.

(** X22. A time to live of 0 in the options counts as none given ([||]):
    the product is stored with the configured time to live of products, a
    list with the configured time to live of lists. *)
Theorem zero_ttl_falls_back o :
  ttl o = Some 0 →
  (∀ p w w',
     useHash o ≠ Some false → 0 < productTTL →
     Cache.cacheProduct p o w = (Ok tt, w') →
     ∃ h, store w' !! Cache.generateHashKey (id p) (prefix o)
          = Some (Backend.mkEntry (Backend.VHash h) (Some productTTL)))
  ∧ (∀ p w w',
       useHash o = Some false →
       Cache.cacheProduct p o w = (Ok tt, w') →
       store w' !! Cache.generateKey ("single:" ++ JS.toString (id p)) (prefix o)
       = Some (Backend.mkEntry (Backend.VString (stringify p)) (Some productTTL)))
  ∧ (∀ l k w w',
       Cache.cacheProducts l k o w = (Ok tt, w') →
       store w' !! Cache.generateKey ("list:" ++ k) (prefix o)
       = Some (Backend.mkEntry (Backend.VString (stringify l)) (Some productListTTL))).
Proof.
  intros Httl.
  assert (T1 : Cache.getProductTTL (ttl o) = productTTL) by (by rewrite Httl).
  assert (T2 : Cache.getProductListTTL (ttl o) = productListTTL) by (by rewrite Httl).
  split; [| split].
  - intros p w w' Hh Hpos E.
    apply retry_ok_origin in E as (v & _ & E); [| apply cacheProduct_attempt_keeps].
    apply cacheProduct_attempt_hash in E as (h & Hk & _); [| done | by rewrite T1].
    rewrite T1 in Hk. eauto.
  - intros p w w' Hh E.
    apply retry_ok_origin in E as (v & _ & E); [| apply cacheProduct_attempt_keeps].
    apply cacheProduct_attempt_string in E as (_ & ->); [| done].
    rewrite T1. apply lookup_insert_eq.
  - intros l k w w' E.
    apply retry_ok_origin in E as (v & _ & E); [| apply cacheProducts_attempt_keeps].
    apply cacheProducts_attempt_ok in E as (_ & -> & _).
    rewrite T2. apply lookup_insert_eq.
Qed.

(** The reads leave the backend alone, whatever they answer. *)
Lemma getCachedProduct_beside i o : beside_cache (Cache.getCachedProduct i o).
Proof.
  intros w r w' E. eapply attempts_beside; [| exact E].
  unfold Cache.getCachedProduct_attempt. beside_tac.
Qed.

Lemma getCachedProducts_beside k o : beside_cache (Cache.getCachedProducts k o).
Proof.
  intros w r w' E. eapply attempts_beside; [| exact E].
  unfold Cache.getCachedProducts_attempt. beside_tac.
Qed.

(** Nor do they touch the rows of the database. *)
Lemma getCachedProduct_table i o w r w' :
  Cache.getCachedProduct i o w = (r, w') → table w' = table w.
Proof.
  intros E. eapply attempts_table; [| exact E].
  unfold Cache.getCachedProduct_attempt. clear. beside_tac.
Qed.

Lemma getCachedProducts_table k o w r w' :
  Cache.getCachedProducts k o w = (r, w') → table w' = table w.
Proof.
  intros E. eapply attempts_table; [| exact E].
  unfold Cache.getCachedProducts_attempt. clear. beside_tac.
Qed.

Lemma steady_connected w : steady w → connected w = true.
Proof. intros Hs. apply Hs. Qed.

Lemma steady_link w v : steady w → link v = link w → steady v.
Proof. intros Hs E n. rewrite E. apply Hs. Qed.

(** A hash read of a key that holds nothing. *)
Lemma hash_read_miss i o w :
  connected w = true → useHash o ≠ Some false →
  hash_at (store w) (Cache.generateHashKey i (prefix o)) = ∅ →
  (∀ s e, store w !! Cache.generateHashKey i (prefix o)
          ≠ Some (Backend.mkEntry (Backend.VString s) e)) →
  ∃ w', Cache.getCachedProduct i o w = (Ok None, w').
Proof.
  intros Hc Hh He Hs.
  assert (R : ∃ w', Cache.getCachedProduct_attempt i o w = (Ok None, w')).
  { unfold Cache.getCachedProduct_attempt. rewrite (default_hash o Hh).
    unfold connected in Hc. unfold_monad. rewrite Hc.
    unfold Backend.hGetAll. cbv beta. project. unfold hash_at in He.
    destruct (store w !! Cache.generateHashKey i (prefix o)) as [[[s|h] e]|] eqn:Ek.
    - by destruct (Hs s e).
    - subst h. rewrite map_size_empty. cbn. eauto.
    - rewrite map_size_empty. cbn. eauto. }
  destruct R as [w' E]. exists w'. by apply retry_first_try.
Qed.

Lemma hash_read_hit i o w h e p :
  connected w = true → useHash o ≠ Some false →
  store w !! Cache.generateHashKey i (prefix o)
    = Some (Backend.mkEntry (Backend.VHash h) e) →
  Cache.reconstructProductFromHash h = Ok p →
  ∃ w', Cache.getCachedProduct i o w = (Ok (Some p), w').
Proof.
  intros Hc Hh Hk Hr.
  destruct (getCachedProduct_attempt_hit i o w h e p Hc Hh Hk Hr) as [w' E].
  exists w'. by apply retry_first_try.
Qed.

(** A hash write onto a key that holds nothing or a hash: the fields of the
    product are merged in and the time to live is set. *)
Lemma hash_write_up p o w :
  connected w = true → useHash o ≠ Some false → 0 < Cache.getProductTTL (ttl o) →
  (∀ s e, store w !! Cache.generateHashKey (id p) (prefix o)
          ≠ Some (Backend.mkEntry (Backend.VString s) e)) →
  ∃ w' h,
    Cache.cacheProduct p o w = (Ok tt, w')
    ∧ link w' = link w ∧ now w' = now w
    ∧ store w' = <[Cache.generateHashKey (id p) (prefix o)
                   := Backend.mkEntry (Backend.VHash h)
                        (Some (Cache.getProductTTL (ttl o)))]> (store w)
    ∧ h !! "id" = Some (JS.toString (id p))
    ∧ h !! "name" = Some (name p)
    ∧ h !! "price" = Some (JS.toString (price p))
    ∧ h !! "category" = Some (category p).
Proof.
  intros Hc Hh Httl Hs.
  set (key := Cache.generateHashKey (id p) (prefix o)) in *.
  set (fields := [("id", JS.toString (id p)); ("name", name p);
                  ("price", JS.toString (price p)); ("category", category p);
                  ("cachedAt", now w)]).
  set (h := Backend.set_fields fields (hash_at (store w) key)).
  assert (R : ∃ w', Cache.cacheProduct_attempt p o w = (Ok tt, w')
                    ∧ link w' = link w ∧ now w' = now w
                    ∧ store w' = <[key := Backend.mkEntry (Backend.VHash h)
                                           (Some (Cache.getProductTTL (ttl o)))]> (store w)).
  { unfold Cache.cacheProduct_attempt. rewrite (default_hash o Hh).
    unfold connected in Hc. unfold_monad. rewrite Hc. cbv beta. project.
    fold key. fold fields.
    assert (Eh : ∃ n e, Backend.hSet key fields (store w)
                        = (Ok n, <[key := Backend.mkEntry (Backend.VHash h) e]> (store w))).
    { unfold Backend.hSet, h, hash_at. subst fields.
      destruct (store w !! key) as [[[s|h0] e]|] eqn:Ek.
      - by destruct (Hs s e).
      - eauto.
      - eauto. }
    destruct Eh as (n & e & ->). cbv beta. project.
    unfold Backend.expire. rewrite lookup_insert_eq.
    replace (Cache.getProductTTL (ttl o) <=? 0) with false
      by (symmetry; apply Z.leb_gt; lia).
    cbv beta. project. cbn [Backend.val]. rewrite insert_insert_eq. eauto 10. }
  destruct R as (w' & E & Hl & Hn & Est). exists w', h.
  split; [by apply retry_first_try |]. split; [done |]. split; [done |]. split; [done |].
  pose proof (set_fields_product (hash_at (store w) key) (JS.toString (id p)) (name p)
                (JS.toString (price p)) (category p) (now w)) as F.
  cbv zeta in F. subst h fields. tauto.
Qed.

Lemma list_write_up l k o w :
  connected w = true → 0 < Cache.getProductListTTL (ttl o) →
  ∃ w', Cache.cacheProducts l k o w = (Ok tt, w')
    ∧ link w' = link w ∧ now w' = now w
    ∧ store w' = <[Cache.generateKey ("list:" ++ k) (prefix o)
                   := Backend.mkEntry (Backend.VString (stringify l))
                        (Some (Cache.getProductListTTL (ttl o)))]> (store w).
Proof.
  intros Hc Httl.
  assert (R : ∃ w', Cache.cacheProducts_attempt l k o w = (Ok tt, w')
                    ∧ link w' = link w ∧ now w' = now w
                    ∧ store w' = <[Cache.generateKey ("list:" ++ k) (prefix o)
                                   := Backend.mkEntry (Backend.VString (stringify l))
                                        (Some (Cache.getProductListTTL (ttl o)))]> (store w)).
  { unfold Cache.cacheProducts_attempt. unfold connected in Hc. unfold_monad.
    rewrite Hc. cbv beta. project. unfold Backend.setEx.
    replace (Cache.getProductListTTL (ttl o) <=? 0) with false
      by (symmetry; apply Z.leb_gt; lia).
    project. eauto 10. }
  destruct R as (w' & E & R). exists w'. split; [by apply retry_first_try | done].
Qed.

Lemma list_read_hit k o w text e l :
  connected w = true →
  store w !! Cache.generateKey ("list:" ++ k) (prefix o)
    = Some (Backend.mkEntry (Backend.VString text) e) →
  JS.truthy text = true → parse text = Some l →
  ∃ w', Cache.getCachedProducts k o w = (Ok (Some l), w').
Proof.
  intros Hc Hk Ht Hp.
  destruct (getCachedProducts_attempt_hit k o w text e l Hc Hk Ht Hp) as [w' E].
  exists w'. by apply retry_first_try.
Qed.

Lemma list_read_miss k o w :
  connected w = true →
  store w !! Cache.generateKey ("list:" ++ k) (prefix o) = None →
  ∃ w', Cache.getCachedProducts k o w = (Ok None, w').
Proof.
  intros Hc Hk.
  destruct (getCachedProducts_attempt_miss k o w Hc Hk) as [w' E].
  exists w'. by apply retry_first_try.
Qed.

Lemma invalidateProduct_up i o w :
  connected w = true →
  ∃ w', Cache.invalidateProduct i o w = (Ok tt, w')
    ∧ link w' = link w
    ∧ store w' = delete (Cache.generateHashKey i (prefix o))
                   (delete (Cache.generateKey ("single:" ++ JS.toString i) (prefix o))
                      (store w)).
Proof.
  intros Hc.
  destruct (invalidateProduct_attempt_run i o w Hc) as (w' & E & Hl & _ & _ & Hs).
  exists w'. split; [by apply retry_first_try | done].
Qed.

Lemma invalidateProductLists_up o w :
  connected w = true →
  ∃ w', Cache.invalidateProductLists o w = (Ok tt, w')
    ∧ link w' = link w
    ∧ ∀ k, store w' !! k
           = if existsb (λ p, Backend.matches p k) (list_patterns o)
             then None else store w !! k.
Proof.
  intros Hc.
  destruct (invalidateProductLists_attempt_run o w Hc) as (w' & E & Hl & _ & _ & Hk).
  exists w'. split; [by apply retry_first_try | done].
Qed.

Lemma reconstruct_sound h p :
  Cache.reconstructProductFromHash h = Ok p →
  JS.isNaN (id p) = false ∧ JS.le0 (id p) = false
  ∧ (JS.below_1e21 (id p) = true → JS.positive_integer (id p) = true)
  ∧ JS.isNaN (price p) = false ∧ JS.lt0 (price p) = false
  ∧ JS.trimmed (name p) = true ∧ JS.trimmed (category p) = true.
Proof.
  unfold Cache.reconstructProductFromHash. intros E.
  destruct (_ || _ || _ || _); [done |].
  destruct (JS.isNaN (JS.parseInt _) || _) eqn:Ei; [done |].
  destruct (JS.isNaN (JS.parseFloat _) || _) eqn:Ep; [done |].
  apply orb_false_elim in Ei as [Ei1 Ei2]. apply orb_false_elim in Ep as [Ep1 Ep2].
  simplify_eq. cbn [id name price category].
  repeat split; try done; try apply trimmed_trim.
  pose proof (parseInt_shape (Cache.field h "id")) as S.
  destruct (JS.parseInt _) as [|neg| |neg sig pt]; try done.
  cbn [JS.le0] in Ei2. subst neg. destruct S as [Hc Hl]. cbn [JS.positive_integer].
  intros _. rewrite Hc. cbn [andb]. by apply Z.leb_le.
Qed.

Lemma getCachedProduct_attempt_hit_inv i o w p w' :
  useHash o ≠ Some false →
  Cache.getCachedProduct_attempt i o w = (Ok (Some p), w') →
  ∃ h, Cache.reconstructProductFromHash h = Ok p.
Proof.
  intros Hh E. unfold Cache.getCachedProduct_attempt in E.
  rewrite (default_hash o Hh) in E. unfold_monad.
  destruct w as [lk ck st ss nw sl cn cl tb]; project.
  destruct (lk ck); [| done].
  destruct (Backend.hGetAll _ _) as [h|e]; [| done]. cbv beta in E. project.
  destruct (0 <? size h)%nat; [| done].
  destruct (Cache.reconstructProductFromHash h) as [q|e] eqn:Er; [| done].
  simplify_eq. eauto.
Qed.

(** X11. Whatever a hash read returns has passed the validation of
    [reconstructProductFromHash]: its id is a number above 0, and a positive
    integer when it is below 10^21 (beyond the range of binary64 [parseInt]
    answers Infinity, which passes the check too); its price is a number
    that is not negative (Infinity is one); its name and its category carry
    no white space at their ends. *)
Theorem hash_reads_return_validated_products i o w p w' :
  useHash o ≠ Some false →
  Cache.getCachedProduct i o w = (Ok (Some p), w') →
  JS.isNaN (id p) = false ∧ JS.le0 (id p) = false
  ∧ (JS.below_1e21 (id p) = true → JS.positive_integer (id p) = true)
  ∧ JS.isNaN (price p) = false ∧ JS.lt0 (price p) = false
  ∧ JS.trimmed (name p) = true ∧ JS.trimmed (category p) = true.
Proof.
  intros Hh E.
  apply retry_ok_origin in E as (v & _ & E); [| apply getCachedProduct_attempt_keeps].
  apply getCachedProduct_attempt_hit_inv in E as [h Hr]; [| done].
  by apply reconstruct_sound in Hr.
Qed.

(** X12. The required fields are checked before they are trimmed: in a
    hash that reconstructs, a name that is white space only passes the
    check too, and the product comes back with the empty name. *)
Theorem blank_name_passes_validation (h : gmap string string) p blank :
  Cache.reconstructProductFromHash h = Ok p →
  JS.truthy blank = true → JS.skip_whitespace blank = "" →
  Cache.reconstructProductFromHash (<["name" := blank]> h)
  = Ok {| id := id p; name := ""; price := price p; category := category p |}.
Proof.
  unfold Cache.reconstructProductFromHash, Cache.field. intros E Ht Hb.
  rewrite lookup_insert_eq. rewrite !lookup_insert_ne by done.
  cbn [Cache.falsy default]. rewrite Ht. cbn [negb orb].
  destruct (Cache.falsy (h !! "id")); [done |]. cbn [orb] in *.
  destruct (Cache.falsy (h !! "name")); [done |]. cbn [orb] in *.
  destruct (Cache.falsy (h !! "price")); [done |]. cbn [orb] in *.
  destruct (Cache.falsy (h !! "category")); [done |].
  destruct (_ || _); [done |]. destruct (_ || _); [done |].
  simplify_eq. cbn [id name price category].
  unfold JS.trim, Datatypes.id. rewrite Hb. reflexivity.
Qed.

End EngineFacts.

(** ** The catalog service *)

Section ServiceFacts.
Context `{Config} `{Catalog.CacheService} `{Catalog.Repository}.

Ltac run_service :=
  unfold console_log, console_warn, console_error in *;
  unfold bind, ret, throw, try_catch, modify in *; cbv beta in *.

(** X13. What the caller sees when persistence fails: a unique violation
    (code 23505) on create or update is a conflict that names the product
    (the name of the update data, [undefined] when it has none), every other
    failure a database error that carries the driver's message, whether the
    update fails at looking the product up or at saving it; on create,
    update and delete the world is the one the failed call left plus one
    line of error output, so the cache is not touched.  [getProductById]
    answers a product the cache holds without a call to the repository (the
    world is the one the cache read left, plus one line of output); when the
    cache read misses or fails, a failure of the repository is a database
    error, and so it is for [getProducts]. *)
Theorem persistence_failures_surface :
  (∀ data w e w1,
     Catalog.repository_create_save data w = (Throw e, w1) →
     Catalog.createProduct data w
     = (Throw (if Catalog.unique_violation e
               then ConflictError ("Product with name '" ++ Catalog.new_name data
                                   ++ "' already exists")
               else DatabaseError "Could not create product due to a database error"
                                  (message e)),
        add_line (LogError "Error creating product:" e) w1))
  ∧ (∀ i data w e w1,
       Catalog.repository_findOne i w = (Throw e, w1) →
       Catalog.updateProduct i data w
       = (Throw (if Catalog.unique_violation e
                 then ConflictError ("Product with name '"
                                     ++ default "undefined" (Catalog.upd_name data)
                                     ++ "' already exists")
                 else DatabaseError "Could not update product due to a database error"
                                    (message e)),
          add_line (LogError "Error updating product:" e) w1))
  ∧ (∀ i data w found w1 e w2,
       Catalog.repository_findOne i w = (Ok (Some found), w1) →
       Catalog.repository_save (Catalog.assign found data) w1 = (Throw e, w2) →
       Catalog.updateProduct i data w
       = (Throw (if Catalog.unique_violation e
                 then ConflictError ("Product with name '"
                                     ++ default "undefined" (Catalog.upd_name data)
                                     ++ "' already exists")
                 else DatabaseError "Could not update product due to a database error"
                                    (message e)),
          add_line (LogError "Error updating product:" e) w2))
  ∧ (∀ i w e w1,
       Catalog.repository_delete i w = (Throw e, w1) →
       Catalog.deleteProduct i w
       = (Throw (DatabaseError "Could not delete product due to a database error"
                               (message e)),
          add_line (LogError "Error deleting product:" e) w1))
  ∧ (∀ i w cached w1,
       Catalog.getCachedProduct i by_id w = (Ok (Some cached), w1) →
       Catalog.getProductById i w
       = (Ok (Some cached),
          add_line (Log ("Cache hit for product ID: " ++ JS.toString i)) w1))
  ∧ (∀ i w x w1 e w2,
       Catalog.getCachedProduct i by_id w = (x, w1) →
       (∀ cached, x ≠ Ok (Some cached)) →
       Catalog.repository_findOne i
         match x with
         | Throw cacheError =>
             add_line (Warn ("Cache read failed for product ID " ++ JS.toString i ++ ":")
                            (Some cacheError)) w1
         | Ok _ => w1
         end
       = (Throw e, w2) →
       Catalog.getProductById i w
       = (Throw (DatabaseError "Could not retrieve product due to a database error"
                               (message e)),
          add_line (LogError "Error getting product by ID:" e) w2))
  ∧ (∀ options w x w1 e w2,
       Catalog.getCachedProducts (Catalog.list_key options) no_options w = (x, w1) →
       (∀ cached, x ≠ Ok (Some cached)) →
       Catalog.repository_getManyAndCount
         (Catalog.buildProductQuery (Catalog.q_category options) (Catalog.q_name options))
         ((default defaultPage (Catalog.q_page options) - 1) * Catalog.actual_limit options)
         (Catalog.actual_limit options)
         match x with
         | Throw cacheError =>
             add_line (Warn "Cache read failed for product list:" (Some cacheError)) w1
         | Ok _ => w1
         end
       = (Throw e, w2) →
       Catalog.getProducts options w
       = (Throw (DatabaseError "Could not retrieve product list due to a database error"
                               (message e)),
          add_line (LogError "Error getting product list:" e) w2)).
Proof.
  split; [| split; [| split; [| split; [| split; [| split]]]]].
  - intros data w e w1 E. unfold Catalog.createProduct. run_service. rewrite E.
    by destruct (Catalog.unique_violation e).
  - intros i data w e w1 E. unfold Catalog.updateProduct. run_service. rewrite E.
    by destruct (Catalog.unique_violation e).
  - intros i data w found w1 e w2 E1 E2. unfold Catalog.updateProduct. run_service.
    rewrite E1, E2. by destruct (Catalog.unique_violation e).
  - intros i w e w1 E. unfold Catalog.deleteProduct. run_service. by rewrite E.
  - intros i w cached w1 E. unfold Catalog.getProductById, by_id in *. run_service.
    by rewrite E.
  - intros i w x w1 e w2 E Hx Ef. unfold Catalog.getProductById, by_id in *. run_service.
    rewrite E. destruct x as [[c|]|ce]; [by destruct (Hx c) | |]; by rewrite Ef.
  - intros options w x w1 e w2 E Hx Ef.
    unfold Catalog.getProducts, Catalog.list_key, Catalog.actual_limit in *. run_service.
    rewrite E. destruct x as [[c|]|ce]; [by destruct (Hx c) | |]; by rewrite Ef.
Qed.

(** X14. Every answer of [getProducts], from the cache or from the
    repository, is consistent with itself: the page is the requested one,
    the limit the requested one capped at the configured maximum, and the
    number of pages the ceiling of the total over that limit (for a positive
    limit: the least number of pages that hold the total). *)
Theorem list_response_is_consistent options w response w' :
  Catalog.getProducts options w = (Ok response, w') →
  Catalog.page response = default defaultPage (Catalog.q_page options)
  ∧ Catalog.limit response = Z.min (default defaultLimit (Catalog.q_limit options)) maxLimit
  ∧ Catalog.limit response ≤ maxLimit
  ∧ Catalog.totalPages response
    = Catalog.ceil_div (Catalog.total response) (Catalog.limit response)
  ∧ (0 < Catalog.limit response → 0 ≤ Catalog.total response →
     ∃ n, Catalog.totalPages response = Catalog.Pages n
          ∧ (n - 1) * Catalog.limit response < Catalog.total response
            ≤ n * Catalog.limit response).
Proof.
  intros E.
  assert (R : Catalog.page response = default defaultPage (Catalog.q_page options)
              ∧ Catalog.limit response
                = Z.min (default defaultLimit (Catalog.q_limit options)) maxLimit
              ∧ Catalog.totalPages response
                = Catalog.ceil_div (Catalog.total response) (Catalog.limit response)).
  { unfold Catalog.getProducts in E. run_service.
    destruct (Catalog.getCachedProducts _ _ _) as [[[c|]|e] w1].
    - by simplify_eq.
    - destruct (Catalog.repository_getManyAndCount _ _ _ _) as [[r|e] w2]; [| done].
      destruct (Catalog.cacheProducts _ _ _ _) as [[[]|e] w3]; by simplify_eq.
    - destruct (Catalog.repository_getManyAndCount _ _ _ _) as [[r|e'] w2]; [| done].
      destruct (Catalog.cacheProducts _ _ _ _) as [[[]|e'] w3]; by simplify_eq. }
  destruct R as (Hp & Hl & Ht). repeat split; [done | done | lia | done |].
  intros Hpos Hnn. rewrite Ht. unfold Catalog.ceil_div.
  set (lim := Catalog.limit response) in *. set (tot := Catalog.total response) in *.
  replace (lim =? 0) with false by (symmetry; apply Z.eqb_neq; lia).
  eexists. split; [reflexivity |].
  pose proof (Z.div_mod (- tot) lim ltac:(lia)) as D.
  pose proof (Z.mod_pos_bound (- tot) lim ltac:(lia)) as B. nia.
Qed.

(** *** The key of a cached list *)

Lemma colon_split a b x y :
  colon_free a = true → colon_free b = true →
  a ++ ":" ++ x = b ++ ":" ++ y → a = b ∧ x = y.
Proof.
  revert b. induction a as [|c a IH]; intros b Ha Hb E.
  - destruct b as [|d b]; [split; [done | by injection E] |].
    cbn [colon_free] in Hb. apply andb_prop in Hb as [Hd%negb_true_iff _].
    change (String ":" x = String d (b ++ ":" ++ y)) in E.
    injection E as E1 E2. subst d. by rewrite Ascii.eqb_refl in Hd.
  - cbn [colon_free] in Ha. apply andb_prop in Ha as [Hc%negb_true_iff Ha].
    destruct b as [|d b].
    + change (String c (a ++ ":" ++ x) = String ":" y) in E.
      injection E as E1 E2. subst c. by rewrite Ascii.eqb_refl in Hc.
    + cbn [colon_free] in Hb. apply andb_prop in Hb as [_ Hb].
      change (String c (a ++ ":" ++ x) = String d (b ++ ":" ++ y)) in E.
      injection E as E1 E2. subst d. destruct (IH b Ha Hb E2) as [-> ->]. done.
Qed.

(** X15. The key of a cached list joins the category and the name with a
    colon, so a colon in the category makes it ambiguous: the query for the
    category [a:b] and the query for the category [a] and the name [b:]
    are different queries with the same key.  Among queries for the same
    page and limit whose categories hold no colon, equal keys mean equal
    filters. *)
Theorem list_key_and_colons :
  (∀ page limit a b,
     Catalog.generateProductsCacheKey page limit (Some (a ++ ":" ++ b)) None
     = Catalog.generateProductsCacheKey page limit (Some a) (Some (b ++ ":"))
     ∧ Catalog.buildProductQuery (Some (a ++ ":" ++ b)) None
       ≠ Catalog.buildProductQuery (Some a) (Some (b ++ ":")))
  ∧ (∀ page limit c1 n1 c2 n2,
       colon_free (or_string c1 "") = true → colon_free (or_string c2 "") = true →
       Catalog.generateProductsCacheKey page limit c1 n1
       = Catalog.generateProductsCacheKey page limit c2 n2 →
       Catalog.buildProductQuery c1 n1 = Catalog.buildProductQuery c2 n2).
Proof.
  split.
  - intros page limit a b. split.
    + assert (Ek : or_string (Some (a ++ ":" ++ b)) "" ++ ":" ++ or_string None ""
                   = or_string (Some a) "" ++ ":" ++ or_string (Some (b ++ ":")) "").
      { unfold or_string.
        assert (Ta : JS.truthy (a ++ ":" ++ b) = true) by (by destruct a).
        assert (Tb : JS.truthy (b ++ ":") = true) by (by destruct b).
        rewrite Ta, Tb. destruct a as [|c a]; [done |]. cbn [JS.truthy].
        by rewrite string_app_assoc. }
      unfold Catalog.generateProductsCacheKey. by rewrite Ek.
    + unfold Catalog.buildProductQuery, Catalog.nonempty.
      assert (Tb : JS.truthy (b ++ ":") = true) by (by destruct b).
      rewrite Tb. cbn [JS.truthy]. intros E. by injection E.
  - intros page limit c1 n1 c2 n2 Hc1 Hc2 E.
    unfold Catalog.generateProductsCacheKey in E.
    do 6 apply string_app_inv in E.
    apply colon_split in E as [Ec En]; [| done | done].
    unfold Catalog.buildProductQuery, Catalog.nonempty.
    assert (R : ∀ x y, or_string x "" = or_string y "" →
                  match x with Some t => if JS.truthy t then Some t else None | None => None end
                  = match y with Some t => if JS.truthy t then Some t else None | None => None end).
    { intros [x|] [y|]; unfold or_string; repeat case_match; intros; simplify_eq; try done;
        repeat match goal with Hx : JS.truthy ?s = _ |- _ => destruct s; try done end. }
    rewrite (R _ _ Ec). pose proof (R _ _ En) as Rn.
    destruct n1 as [n1|], n2 as [n2|]; cbn in *; repeat case_match; simplify_eq; done.
Qed.

End ServiceFacts.

(** ** The catalog service over the engine *)

Section Composite.
Context `{Config} `{JSON Product} `{JSON (list Product)} `{Catalog.Repository}.
Local Existing Instance Catalog.redis_cache.

Ltac run_service :=
  unfold console_log, console_warn, console_error in *;
  unfold bind, ret, throw, try_catch, modify in *; cbv beta in *.

(** X16. Read-through: a product the cache does not hold (its key is
    empty, or holds a hash that does not reconstruct) is fetched from the
    repository and written to the cache, so that the next request for it is
    answered from the cache, whatever the repository would say then. *)
Theorem read_through_fills_the_cache i p w :
  steady w →
  (∀ s e, store w !! Cache.generateHashKey i None
          ≠ Some (Backend.mkEntry (Backend.VString s) e)) →
  hash_at (store w) (Cache.generateHashKey i None) = ∅
  ∨ malformed (hash_at (store w) (Cache.generateHashKey i None)) = true →
  valid_product p = true → JS.below_1e21 (id p) = true → id p = i →
  0 < productTTL →
  beside_cache (Catalog.repository_findOne i) →
  (∀ v, table v = table w →
        ∃ v', Catalog.repository_findOne i v = (Ok (Some p), v')) →
  ∃ w1, Catalog.getProductById i w = (Ok (Some p), w1)
    ∧ ∀ other : Catalog.Repository,
        ∃ w2, @Catalog.getProductById _ _ other i w1 = (Ok (Some p), w2).
Proof.
  intros Hst Hs Hm Hv Hb Hid Httl Hbeside Hfind.
  set (key := Cache.generateHashKey i None) in *.
  assert (Hh : useHash by_id ≠ Some false) by done.
  (* the first read does not hit *)
  assert (R1 : ∃ r wa, Cache.getCachedProduct i by_id w = (r, wa)
                       ∧ same_backend w wa
                       ∧ match r with Ok (Some _) => False | _ => True end).
  { assert (Hm' : hash_at (store w) key = ∅
                  ∨ hash_at (store w) key ≠ ∅ ∧ malformed (hash_at (store w) key) = true).
    { destruct (decide (hash_at (store w) key = ∅)); [by left |].
      destruct Hm; [done | by right]. }
    destruct Hm' as [He|[Hne Hmal]].
    - destruct (hash_read_miss i by_id w (steady_connected w Hst) Hh He Hs) as [wa E].
      exists (Ok None), wa. split; [done |]. split; [| done].
      by apply (getCachedProduct_beside i by_id w (Ok None) wa).
    - destruct (Cache.getCachedProduct i by_id w) as [r wa] eqn:E.
      exists r, wa. split; [done |]. split; [by apply (getCachedProduct_beside i by_id w r wa) |].
      destruct r as [[c|]|e]; [| done | done].
      apply retry_ok_origin in E as (v & (Hl & Hst' & _) & E);
        [| apply getCachedProduct_attempt_keeps].
      destruct (reconstruct_malformed _ Hmal) as (m & Hr & _).
      unfold hash_at in Hr, Hmal, Hne. fold key in Hr.
      destruct (store w !! key) as [[[s|h] e]|] eqn:Ek.
      + by destruct (Hs s e).
      + assert (Hc : connected v = true) by (unfold connected; rewrite <- Hl; apply Hst).
        assert (Hsz : (0 <? size h)%nat = true).
        { apply Nat.ltb_lt. destruct (decide (size h = 0%nat)) as [E0|]; [| lia].
          apply map_size_empty_iff in E0. subst h. by destruct Hne. }
        destruct (getCachedProduct_attempt_malformed i by_id v h e (Error m)) as [w' E'];
          try done.
        * cbn [prefix by_id]. fold key. by rewrite <- Hst'.
        * congruence.
      + done. }
  destruct R1 as (r & wa & E1 & (Hla & Hsa & Hna) & Hr).
  pose proof (getCachedProduct_table _ _ _ _ _ E1) as Hta.
  destruct (Hfind (match r with
                   | Throw e =>
                       add_line (Warn ("Cache read failed for product ID "
                                       ++ JS.toString i ++ ":") (Some e)) wa
                   | _ => wa
                   end)) as [wb E2].
  { by destruct r as [[|]|]. }
  pose proof (Hbeside _ _ _ E2) as (Hlb & Hsb & Hnb).
  assert (Hlb' : link wb = link w) by (rewrite <- Hlb; by destruct r as [[|]|]).
  assert (Hsb' : store wb = store w) by (rewrite <- Hsb; by destruct r as [[|]|]).
  destruct (hash_write_up p (mkOptions (Some productTTL) None (Some true)) wb)
    as (wc & h & E3 & Hlc & Hnc & Hsc & Hi & Hn & Hp & Hc); try done.
  { unfold connected. rewrite Hlb'. apply Hst. }
  { cbn [ttl]. unfold Cache.getProductTTL, or_Z. destruct (productTTL =? 0); lia. }
  { cbn [prefix]. rewrite Hid, Hsb'. apply Hs. }
  exists (add_line (Log ("Cached product ID: " ++ JS.toString i)) wc). split.
  - unfold Catalog.getProductById. run_service. fold by_id.
    change (Catalog.getCachedProduct i by_id w) with (Cache.getCachedProduct i by_id w).
    rewrite E1.
    change (Catalog.cacheProduct) with (Cache.cacheProduct).
    unfold Catalog.PRODUCTS_TTL.
    destruct r as [[c|]|e]; [done | |]; rewrite E2, E3; reflexivity.
  - intros other.
    destruct (hash_read_hit i by_id
                (add_line (Log ("Cached product ID: " ++ JS.toString i)) wc) h
                (Some (Cache.getProductTTL (Some productTTL))) p) as [w2 E4]; try done.
    { unfold connected. cbn [link add_line checks]. rewrite Hlc, Hlb'. apply Hst. }
    { cbn [store add_line prefix by_id]. rewrite Hsc. cbn [prefix]. rewrite Hid.
      apply lookup_insert_eq. }
    { by apply reconstruct_printed. }
    exists (add_line (Log ("Cache hit for product ID: " ++ JS.toString i)) w2).
    unfold Catalog.getProductById. run_service. fold by_id.
    change (Catalog.getCachedProduct i by_id) with (Cache.getCachedProduct i by_id).
    by rewrite E4.
Qed.

(** X17. A list answered from the repository is written to the cache under
    the key of the query, with the time to live of single products, and the
    next request for the same query is answered from the cache, whatever the
    repository would say then: with the rows of the page, and with their
    number as the total. *)
Theorem list_read_through options rows count w :
  steady w →
  store w !! Cache.generateKey ("list:" ++ Catalog.list_key options) None = None →
  0 < Cache.getProductListTTL (Some productTTL) →
  parse (stringify rows) = Some rows → JS.truthy (stringify rows) = true →
  (∀ q skip take_, beside_cache (Catalog.repository_getManyAndCount q skip take_)) →
  (∀ v, table v = table w →
     ∃ v', Catalog.repository_getManyAndCount
             (Catalog.buildProductQuery (Catalog.q_category options)
                                        (Catalog.q_name options))
             ((default defaultPage (Catalog.q_page options) - 1)
              * Catalog.actual_limit options)
             (Catalog.actual_limit options) v = (Ok (rows, count), v')) →
  ∃ w1,
    Catalog.getProducts options w
    = (Ok {| Catalog.products := rows;
             Catalog.total := count;
             Catalog.page := default defaultPage (Catalog.q_page options);
             Catalog.limit := Catalog.actual_limit options;
             Catalog.totalPages := Catalog.ceil_div count (Catalog.actual_limit options) |},
       w1)
    ∧ store w1 !! Cache.generateKey ("list:" ++ Catalog.list_key options) None
      = Some (Backend.mkEntry (Backend.VString (stringify rows))
                (Some (Cache.getProductListTTL (Some productTTL))))
    ∧ ∀ other : Catalog.Repository,
        ∃ w2,
          @Catalog.getProducts _ _ other options w1
          = (Ok {| Catalog.products := rows;
                   Catalog.total := Z.of_nat (length rows);
                   Catalog.page := default defaultPage (Catalog.q_page options);
                   Catalog.limit := Catalog.actual_limit options;
                   Catalog.totalPages :=
                     Catalog.ceil_div (Z.of_nat (length rows))
                                      (Catalog.actual_limit options) |},
             w2).
Proof.
  intros Hst Hk Httl Hl Ht Hbeside Hfind.
  set (key := Cache.generateKey ("list:" ++ Catalog.list_key options) None) in *.
  destruct (list_read_miss (Catalog.list_key options) no_options w
              (steady_connected w Hst) Hk) as [wa E1].
  pose proof (getCachedProducts_beside _ _ _ _ _ E1) as (Hla & Hsa & Hna).
  destruct (Hfind wa (getCachedProducts_table _ _ _ _ _ E1)) as [wb E2].
  pose proof (Hbeside _ _ _ _ _ _ E2) as (Hlb & Hsb & Hnb).
  destruct (list_write_up rows (Catalog.list_key options)
              (mkOptions (Some productTTL) None None) wb) as (wc & E3 & Hlc & Hnc & Hsc);
    try done.
  { unfold connected. rewrite <- Hlb, <- Hla. apply Hst. }
  exists (add_line (Log "Cached product list") wc). split; [| split].
  - unfold Catalog.getProducts. run_service.
    fold (Catalog.actual_limit options). fold (Catalog.list_key options).
    change (Catalog.getCachedProducts) with (Cache.getCachedProducts).
    rewrite E1, E2. cbn [fst snd].
    change (Catalog.cacheProducts) with (Cache.cacheProducts).
    unfold Catalog.PRODUCTS_TTL. by rewrite E3.
  - cbn [store add_line]. rewrite Hsc. apply lookup_insert_eq.
  - intros other.
    destruct (list_read_hit (Catalog.list_key options) no_options
                (add_line (Log "Cached product list") wc) (stringify rows)
                (Some (Cache.getProductListTTL (Some productTTL))) rows) as [w2 E4];
      try done.
    { unfold connected. cbn [link add_line checks]. rewrite Hlc, <- Hlb, <- Hla. apply Hst. }
    { cbn [store add_line prefix no_options]. rewrite Hsc. apply lookup_insert_eq. }
    exists (add_line (Log "Cache hit for product list") w2).
    unfold Catalog.getProducts. run_service.
    fold (Catalog.actual_limit options). fold (Catalog.list_key options).
    change (Catalog.getCachedProducts) with (Cache.getCachedProducts).
    by rewrite E4.
Qed.

(** X18. After a delete that removed rows, with the connection up, the
    cache holds neither representation of the product and no list: a read of
    the product is a miss in both modes, and so is the read of any list. *)
Theorem delete_empties_the_cache i n w w1 :
  steady w →
  beside_cache (Catalog.repository_delete i) →
  Catalog.repository_delete i w = (Ok (Some n), w1) → 0 < n →
  ∃ w2, Catalog.deleteProduct i w = (Ok true, w2)
    ∧ steady w2
    ∧ (∀ o, prefix o = None → ∃ w3, Cache.getCachedProduct i o w2 = (Ok None, w3))
    ∧ (∀ k o, prefix o = None → ∃ w3, Cache.getCachedProducts k o w2 = (Ok None, w3)).
Proof.
  intros Hst Hbeside E1 Hn.
  pose proof (Hbeside _ _ _ E1) as (Hl1 & Hs1 & _).
  destruct (invalidateProduct_up i no_options w1) as (wa & E2 & Hla & Hsa).
  { unfold connected. rewrite <- Hl1. apply Hst. }
  destruct (invalidateProductLists_up no_options wa) as (wb & E3 & Hlb & Hkb).
  { unfold connected. rewrite Hla, <- Hl1. apply Hst. }
  assert (Hstb : steady wb) by (intros m; rewrite Hlb, Hla, <- Hl1; apply Hst).
  exists wb. split; [| split; [done | split]].
  - unfold Catalog.deleteProduct. run_service. rewrite E1.
    replace (0 <? n) with true by (symmetry; apply Z.ltb_lt; lia).
    change (Catalog.invalidateProduct) with (Cache.invalidateProduct).
    change (Catalog.invalidateProductLists) with (Cache.invalidateProductLists).
    by rewrite E2, E3.
  - intros o Hp.
    destruct (getCachedProduct_attempt_miss i o wb (steady_connected wb Hstb)) as [w3 E4].
    + rewrite Hp, Hkb. destruct (existsb _ _); [done |].
      rewrite Hsa. cbn [prefix no_options]. apply lookup_delete_eq.
    + rewrite Hp, Hkb. destruct (existsb _ _); [done |].
      rewrite Hsa. cbn [prefix no_options].
      destruct (decide (Cache.generateKey ("single:" ++ JS.toString i) None
                        = Cache.generateHashKey i None)) as [->|Hne].
      * apply lookup_delete_eq.
      * rewrite lookup_delete_ne by done. apply lookup_delete_eq.
    + exists w3. by apply retry_first_try.
  - intros k o Hp.
    destruct (list_read_miss k o wb (steady_connected wb Hstb)) as [w3 E4]; [| eauto].
    rewrite Hp, Hkb. unfold list_patterns. cbn [existsb prefix no_options].
    pose proof (list_key_matches no_options k) as M. cbn [prefix no_options] in M.
    rewrite M; [done |]. intros p0 Hp0. discriminate.
Qed.

(** X19. An update keeps a cached product in step: when the hash of the
    product is in the cache, the read that follows the update answers the
    product as it was saved. *)
Theorem update_refreshes_the_cache i data found saved h e w w1 w2 :
  steady w →
  store w !! Cache.generateHashKey i None = Some (Backend.mkEntry (Backend.VHash h) e) →
  h !! "id" = Some (JS.toString i) →
  beside_cache (Catalog.repository_findOne i) →
  (∀ q, beside_cache (Catalog.repository_save q)) →
  Catalog.repository_findOne i w = (Ok (Some found), w1) →
  Catalog.repository_save (Catalog.assign found data) w1 = (Ok saved, w2) →
  valid_product saved = true → JS.below_1e21 (id saved) = true → id saved = i →
  ∃ w3, Catalog.updateProduct i data w = (Ok (Some saved), w3)
    ∧ ∃ w4, Cache.getCachedProduct i by_id w3 = (Ok (Some saved), w4).
Proof.
  intros Hst Hk Hi Hb1 Hb2 E1 E2 Hv Hb Hid.
  set (key := Cache.generateHashKey i None) in *.
  pose proof (Hb1 _ _ _ E1) as (Hl1 & Hs1 & _).
  pose proof (Hb2 _ _ _ _ E2) as (Hl2 & Hs2 & _).
  assert (Hc2 : connected w2 = true).
  { unfold connected. rewrite <- Hl2, <- Hl1. apply Hst. }
  assert (R : ∃ wa, Cache.updateProductHash_attempt i (partial_of saved) no_options w2
                    = (Ok tt, wa)).
  { unfold Cache.updateProductHash_attempt.
    unfold connected in Hc2.
    unfold Cache.ensureConnection, Cache.date_now, Cache.client_hSet, console_log,
      bind, ret, modify, connected.
    rewrite Hc2. cbv beta.
    cbn [store asked now]. rewrite updates_nonempty.
    unfold Backend.hSet. cbn [prefix no_options]. fold key.
    change (store (asked w2)) with (store w2).
    rewrite <- Hs2, <- Hs1, Hk.
    destruct (Cache.updates_of (partial_of saved) (now w2)) eqn:Eu; [| eauto].
    pose proof (updates_nonempty (partial_of saved) (now w2)) as L. by rewrite Eu in L. }
  destruct R as [wa Ea].
  pose proof (updateProductHash_attempt_ok _ _ _ _ _ Ea) as (Hla & _ & _ & e' & Hsa & _).
  cbn [prefix no_options] in Hsa. fold key in Hsa.
  destruct (invalidateProductLists_up no_options wa) as (wb & E3 & Hlb & Hkb).
  { unfold connected. rewrite Hla, <- Hl2, <- Hl1. apply Hst. }
  exists wb. split.
  - unfold Catalog.updateProduct. run_service. rewrite E1, E2.
    change (Catalog.updateProductHash) with (Cache.updateProductHash).
    change (Catalog.invalidateProductLists) with (Cache.invalidateProductLists).
    assert (Eu : Cache.updateProductHash i (partial_of saved) no_options w2 = (Ok tt, wa))
      by (by apply retry_first_try).
    by rewrite Eu, E3.
  - pose proof (default_patterns_spare_products no_options wa wb i eq_refl E3) as [Kh _].
    fold key in Kh. rewrite Hsa, lookup_insert_eq in Kh.
    eapply (hash_read_hit i by_id wb _ e' saved).
    + unfold connected. rewrite Hlb, Hla, <- Hl2, <- Hl1. apply Hst.
    + done.
    + exact Kh.
    + apply reconstruct_printed; try done.
      * rewrite set_fields_updates. cbn. unfold hash_at. rewrite <- Hs2, <- Hs1, Hk.
        by rewrite Hid.
      * rewrite set_fields_updates. reflexivity.
      * rewrite set_fields_updates. reflexivity.
      * rewrite set_fields_updates. reflexivity.
Qed.

End Composite.

(** * Scenarios *)

Import Fixture.

Lemma steady_fresh : steady fresh.
Proof. intros n. reflexivity. Qed.

(** C1, counterexample. The product with the id 10^21 is valid and is cached,
    under the key of 1e+21, with its id printed as 1e+21; the read that
    follows returns a product whose id is 1. *)
Lemma roundtrip_fails_from_1e21 :
  valid_product hugeProduct = true
  ∧ (Cache.cacheProduct hugeProduct no_options fresh).1 = Ok tt
  ∧ (Cache.getCachedProduct (id hugeProduct) no_options
       (Cache.cacheProduct hugeProduct no_options fresh).2).1
    = Ok (Some {| id := JS.Finite false [JS.d1] 1;
                  name := "Test Product";
                  price := JS.Finite false [JS.d9; JS.d9; JS.d9; JS.d9] 2;
                  category := "Electronics" |})
  ∧ JS.Finite false [JS.d1] 1 ≠ id hugeProduct.
Proof. repeat split; try (vm_compute; reflexivity). discriminate. Qed.

Lemma roundtrip_hash_mode_witness :
  ∃ w2, Cache.getCachedProduct (id mockProduct) no_options cached
        = (Ok (Some mockProduct), w2).
Proof.
  apply (roundtrip_hash_mode mockProduct no_options no_options fresh cached).
  - reflexivity.
  - reflexivity.
  - discriminate.
  - discriminate.
  - reflexivity.
  - reflexivity.
  - vm_compute. reflexivity.
  - reflexivity.
Defined.

(** C4, counterexample. *)
Lemma malformed_read_raises_operation_error :
  (Cache.getCachedProduct (JS.Finite false [JS.d1] 1) no_options corrupted).1
  = Throw (CacheOperationError
             "Operation getCachedProduct failed after 3 retries: Invalid product hash data: invalid ID"
             "getCachedProduct"
             (Error "Invalid product hash data: invalid ID"))
  ∧ is_operation_error
      (CacheOperationError
         "Operation getCachedProduct failed after 3 retries: Invalid product hash data: invalid ID"
         "getCachedProduct"
         (Error "Invalid product hash data: invalid ID")) = true
  ∧ is_data_error
      (CacheOperationError
         "Operation getCachedProduct failed after 3 retries: Invalid product hash data: invalid ID"
         "getCachedProduct"
         (Error "Invalid product hash data: invalid ID")) = false.
Proof. repeat split; vm_compute; reflexivity. Qed.

Lemma malformed_hash_read_witness :
  ∃ m err w',
    Cache.getCachedProduct (JS.Finite false [JS.d1] 1) no_options corrupted
    = (Throw err, w')
    ∧ err = Cache.retries_exhausted "getCachedProduct" Cache.retryConfig (Error m)
    ∧ invalid_hash_message m
    ∧ is_operation_error err = true ∧ is_data_error err = false.
Proof.
  apply (malformed_hash_read (JS.Finite false [JS.d1] 1) no_options corrupted
           corrupted_hash (Some 60)).
  - intros n. reflexivity.
  - discriminate.
  - vm_compute. reflexivity.
  - intros E. apply (f_equal (fun h => h !! "id")) in E. vm_compute in E. discriminate.
  - vm_compute. reflexivity.
Defined.



(** An operation that does nothing but fail, retried on the fresh world. *)
Lemma retry_exhaustion_witness :
  Cache.executeWithRetry (failing (fun _ => Error "boom") (fun v => v) : M unit)
    "probe" Cache.retryConfig fresh
  = (Throw (CacheOperationError "Operation probe failed after 3 retries: boom"
              "probe" (Error "boom")),
     gave_up (between "probe" 2 400 (Error "boom")
                (between "probe" 1 200 (Error "boom")
                   (between "probe" 0 100 (Error "boom") fresh))))
  ∧ sleeps (gave_up (between "probe" 2 400 (Error "boom")
                       (between "probe" 1 200 (Error "boom")
                          (between "probe" 0 100 (Error "boom") fresh))))
    = [100; 200; 400].
Proof.
  pose proof (retry_exhaustion (T := unit) (fun _ => Error "boom") (fun v => v)
                "probe" fresh) as (E & Hs & _).
  split; [exact E | apply Hs; reflexivity].
Defined.

Lemma invalidate_then_miss_witness :
  let hashKey := Cache.generateHashKey (id mockProduct) None in
  let stringKey := Cache.generateKey ("single:" ++ JS.toString (id mockProduct)) None in
  ∃ w1, Cache.invalidateProduct (id mockProduct) no_options cached = (Ok tt, w1)
        ∧ calls w1 = (calls cached ++ [Backend.DEL [hashKey; stringKey]])%list
        ∧ store w1 = delete hashKey (delete stringKey (store cached))
        ∧ ∀ o', prefix o' = None → connected w1 = true →
            ∃ w2, Cache.getCachedProduct (id mockProduct) o' w1 = (Ok None, w2).
Proof.
  apply (invalidate_then_miss (id mockProduct) no_options cached).
  reflexivity.
Defined.

Lemma partial_update_witness :
  (∀ k, hash_at (store renamed) (Cache.generateHashKey (id mockProduct) None) !! k
        = match written (only_name "X") (now cached) k with
          | Some x => Some x
          | None => hash_at (store cached) (Cache.generateHashKey (id mockProduct) None) !! k
          end)
  ∧ ∃ w3, Cache.getCachedProduct (id mockProduct) no_options renamed
          = (Ok (Some (rename mockProduct "X")), w3).
Proof.
  split.
  - apply (proj1 partial_update_is_a_merge (id mockProduct) (only_name "X")
             no_options cached renamed).
    vm_compute. reflexivity.
  - apply (proj2 partial_update_is_a_merge mockProduct no_options fresh cached renamed).
    + reflexivity.
    + reflexivity.
    + discriminate.
    + reflexivity.
    + vm_compute. reflexivity.
    + vm_compute. reflexivity.
    + reflexivity.
Defined.

Lemma hit_rate_of_reads_witness :
  hitRate (Cache.getCacheStats after_reads)
  = (if (1 + 2 =? 0)%N then Float64.zero
     else Float64.mul (Float64.div (Float64.of_N 1) (Float64.of_N (1 + 2)))
                      (Float64.of_N 100))
  ∧ hits (Cache.getCacheStats after_reads) = 1%N
  ∧ misses (Cache.getCacheStats after_reads) = 2%N
  ∧ errors (Cache.getCacheStats after_reads) = 0%N.
Proof.
  apply (hit_rate_of_reads three_reads cached 1 2 after_reads).
  - reflexivity.
  - vm_compute. reflexivity.
  - vm_compute. reflexivity.
Defined.

(** After one hit and two misses the hit rate is the binary64 number
    4691249611844266 * 2^-47, which prints as 33.33333333333333: it lies
    below the rational number 100 * 1 / 3, and it is not the binary64 number
    (33.333333333333336) that the expression [100 * 1 / 3] evaluates to. *)
Lemma hit_rate_is_not_the_exact_quotient :
  stats cached = Cache.initial_stats
  ∧ tally three_reads cached = Some (1%N, 2%N, after_reads)
  ∧ retries (stats after_reads) = 0%N
  ∧ errors (stats after_reads) = 0%N
  ∧ hitRate (Cache.getCacheStats after_reads)
    = S754_finite false 4691249611844266 (-47)
  ∧ (∃ q, Float64.value (hitRate (Cache.getCacheStats after_reads)) = Some q
          ∧ ¬ (q == 100 * 1 / (1 + 2))%Q
          ∧ (3333333333333332 # 100000000000000 < q)%Q
          ∧ (q < 100 * 1 / (1 + 2))%Q)
  ∧ hitRate (Cache.getCacheStats after_reads)
    ≠ Float64.div (Float64.mul (Float64.of_N 100) (Float64.of_N 1))
                  (Float64.of_N (1 + 2)).
Proof.
  split; [reflexivity |]. split; [vm_compute; reflexivity |].
  split; [vm_compute; reflexivity |]. split; [vm_compute; reflexivity |].
  split; [vm_compute; reflexivity |]. split.
  - eexists. split; [vm_compute; reflexivity |].
    split; [| split]; [vm_compute; discriminate | reflexivity | reflexivity].
  - vm_compute. discriminate.
Qed.

Lemma update_of_absent_entry_witness :
  ∃ w1 h,
    Cache.updateProductHash (id mockProduct) (only_name "X") no_options fresh = (Ok tt, w1)
    ∧ store w1 !! Cache.generateHashKey (id mockProduct) None
      = Some (Backend.mkEntry (Backend.VHash h) None)
    ∧ (∀ k, h !! k = written (only_name "X") (now fresh) k)
    ∧ h !! "id" = None
    ∧ ∀ o', useHash o' ≠ Some false → prefix o' = None →
        ∃ w2, Cache.getCachedProduct (id mockProduct) o' w1
              = (Throw (Cache.retries_exhausted "getCachedProduct" Cache.retryConfig
                          (Error "Invalid product hash data: missing required fields")),
                 w2).
Proof.
  apply (update_of_absent_entry (id mockProduct) (only_name "X") no_options fresh).
  - intros n. reflexivity.
  - reflexivity.
Defined.

Lemma cached_list_total_differs_witness :
  ∃ hit w_hit' miss w_miss',
    Catalog.getProducts two_a_page listed = (Ok hit, w_hit')
    ∧ Catalog.getProducts two_a_page stocked = (Ok miss, w_miss')
    ∧ Catalog.total miss = 3
    ∧ Catalog.total hit ≠ Catalog.total miss
    ∧ Catalog.totalPages hit ≠ Catalog.totalPages miss.
Proof.
  apply (proj2 (cached_list_total_differs two_a_page)
           listed [widget JS.d3 "Drill"; widget JS.d2 "Saw"]
           (Catalog.getCachedProducts (Catalog.list_key two_a_page) no_options listed).2
           stocked
           (Catalog.getCachedProducts (Catalog.list_key two_a_page) no_options stocked).2
           [widget JS.d3 "Drill"; widget JS.d2 "Saw"] 3
           (Catalog.getCachedProducts (Catalog.list_key two_a_page) no_options stocked).2).
  - vm_compute. reflexivity.
  - vm_compute. reflexivity.
  - vm_compute. reflexivity.
  - vm_compute. discriminate.
  - reflexivity.
Defined.

Lemma cache_failure_witness :
  Catalog.createProduct widget_data offline
  = (Ok {| id := JS.Finite false [JS.d1] 1; name := "Widget";
           price := JS.Finite false [JS.d9; JS.d9; JS.d9] 1; category := "Tools" |},
     add_line (Warn "Cache operation failed during product creation:"
                 (Some (Cache.retries_exhausted "cacheProduct" Cache.retryConfig
                          (CacheConnectionError "Redis client is not connected"))))
       (Catalog.cacheProduct
          {| id := JS.Finite false [JS.d1] 1; name := "Widget";
             price := JS.Finite false [JS.d9; JS.d9; JS.d9] 1; category := "Tools" |}
          (mkOptions None None (Some true))
          (Catalog.repository_create_save widget_data offline).2).2)
  ∧ Catalog.getProductById one (set_table (table stocked) offline)
    = (Ok (Some hammer),
       add_line (Warn "Cache write failed for product ID 1:"
                   (Some (Cache.retries_exhausted "cacheProduct" Cache.retryConfig
                            (CacheConnectionError "Redis client is not connected"))))
         (Catalog.cacheProduct hammer
            (mkOptions (Some Catalog.PRODUCTS_TTL) None (Some true))
            (add_line
               (Warn "Cache read failed for product ID 1:"
                  (Some (Cache.retries_exhausted "getCachedProduct" Cache.retryConfig
                           (CacheConnectionError "Redis client is not connected"))))
               (Catalog.getCachedProduct one (mkOptions None None (Some true))
                  (set_table (table stocked) offline)).2)).2).
Proof.
  destruct cache_failure_never_fails_the_service as (Hcreate & Hread & _).
  split.
  - assert (E1 : Catalog.repository_create_save widget_data offline
                 = (Ok {| id := JS.Finite false [JS.d1] 1; name := "Widget";
                          price := JS.Finite false [JS.d9; JS.d9; JS.d9] 1;
                          category := "Tools" |},
                    (Catalog.repository_create_save widget_data offline).2))
      by reflexivity.
    apply (proj1 (proj2 (Hcreate widget_data offline _ _ E1))).
    vm_compute. reflexivity.
  - assert (Ec : Catalog.getCachedProduct one (mkOptions None None (Some true))
                   (set_table (table stocked) offline)
                 = (Throw (Cache.retries_exhausted "getCachedProduct" Cache.retryConfig
                             (CacheConnectionError "Redis client is not connected")),
                    (Catalog.getCachedProduct one (mkOptions None None (Some true))
                       (set_table (table stocked) offline)).2))
      by (vm_compute; reflexivity).
    assert (Hx : ∀ cached : Product,
               Throw (Cache.retries_exhausted "getCachedProduct" Cache.retryConfig
                        (CacheConnectionError "Redis client is not connected"))
               ≠ Ok (Some cached)) by discriminate.
    apply (proj2 (proj2 (Hread one _ _ _ (Some hammer) _ Ec Hx eq_refl)) hammer).
    + reflexivity.
    + vm_compute. reflexivity.
Defined.

(** The retry on a connection that is down twice and then up: the write
    succeeds at the third attempt, after two retries and sleeps of 100 and
    200 ms. *)
Example retry_recovers :
  (Cache.cacheProduct mockProduct no_options flaky).1 = Ok tt
  ∧ retries (stats (Cache.cacheProduct mockProduct no_options flaky).2) = 2%N
  ∧ errors (stats (Cache.cacheProduct mockProduct no_options flaky).2) = 0%N
  ∧ sleeps (Cache.cacheProduct mockProduct no_options flaky).2 = [100; 200].
Proof. repeat split; vm_compute; reflexivity. Qed.

(** The retry with the connection down: four checks of the connection, three
    sleeps, one error. *)
Example retry_gives_up :
  (Cache.cacheProduct mockProduct no_options offline).1
  = Throw (CacheOperationError
             "Operation cacheProduct failed after 3 retries: Redis client is not connected"
             "cacheProduct" (CacheConnectionError "Redis client is not connected"))
  ∧ checks (Cache.cacheProduct mockProduct no_options offline).2 = 4%nat
  ∧ sleeps (Cache.cacheProduct mockProduct no_options offline).2 = [100; 200; 400]
  ∧ errors (stats (Cache.cacheProduct mockProduct no_options offline).2) = 1%N.
Proof. repeat split; vm_compute; reflexivity. Qed.

(** The statistics of the unit test: one hit and one miss give 50. *)
Example hit_rate_fifty :
  hitRate (Cache.updated_stats false false false
             (Cache.updated_stats true false false Cache.initial_stats))
  = Float64.of_N 50.
Proof. vm_compute. reflexivity. Qed.

Example toString_9999 :
  JS.toString (JS.Finite false [JS.d9; JS.d9; JS.d9; JS.d9] 2) = "99.99".
Proof. reflexivity. Qed.

Example toString_1e21 : JS.toString (JS.Finite false [JS.d1] 22) = "1e+21".
Proof. reflexivity. Qed.

Example toString_small :
  JS.toString (JS.Finite true [JS.d1; JS.d5] (-6)) = "-1.5e-7".
Proof. reflexivity. Qed.

Example parseFloat_9999 :
  JS.parseFloat "  99.990abc" = JS.Finite false [JS.d9; JS.d9; JS.d9; JS.d9] 2.
Proof. reflexivity. Qed.

Example parseInt_1e21 : JS.parseInt "1e+21" = JS.Finite false [JS.d1] 1.
Proof. reflexivity. Qed.

Example parseInt_abc : JS.parseInt "abc" = JS.NaN.
Proof. reflexivity. Qed.

Example parseInt_hex : JS.parseInt "0x1F" = JS.Finite false [JS.d3; JS.d1] 2.
Proof. reflexivity. Qed.

Example trim_example : JS.trim "  Test Product  " = "Test Product".
Proof. reflexivity. Qed.

(** The unit test of [reconstructProductFromHash]: the name and the category
    are trimmed. *)
Example reconstruct_trims :
  Cache.reconstructProductFromHash
    (Backend.set_fields
       [("id", "1"); ("name", "  Test Product  "); ("price", "99.99");
        ("category", "  Electronics  ")] ∅)
  = Ok mockProduct.
Proof. vm_compute. reflexivity. Qed.

(** ** Instances of the further properties *)

Lemma retry_any_policy_witness :
  ∃ v,
    Cache.executeWithRetry
      (failing (λ u, Error ("run " ++ Z_toString (Z.of_nat (checks u)))) asked : M unit)
      "probe" patient fresh
    = (Throw (CacheOperationError "Operation probe failed after 5 retries: run 5"
                                  "probe" (Error "run 5")),
       gave_up (asked v))
    ∧ checks v = 5%nat
    ∧ checks (gave_up (asked v)) = 6%nat
    ∧ sleeps (gave_up (asked v)) = [300; 900; 1000; 1000; 1000]
    ∧ retries (stats (gave_up (asked v))) = 5%N
    ∧ errors (stats (gave_up (asked v))) = 1%N.
Proof.
  destruct (retry_any_policy (T := unit)
              (λ u, Error ("run " ++ Z_toString (Z.of_nat (checks u)))) asked "probe"
              checks ltac:(reflexivity) ltac:(reflexivity) ltac:(reflexivity)
              ltac:(reflexivity) ltac:(reflexivity) ltac:(reflexivity)
              patient fresh ltac:(discriminate) ltac:(vm_compute; discriminate))
    as (v & E & Hv & Hc & Hs & Hr & He).
  exists v. cbv beta in E. rewrite Hv in E.
  split; [exact E |]. split; [exact Hv |]. split; [exact Hc |].
  split; [exact Hs |]. split; [exact Hr | exact He].
Defined.

Lemma statistics_stay_coherent_witness : coherent (stats (session busy_day offline)).
Proof. apply statistics_stay_coherent. repeat split; reflexivity || done. Defined.

Lemma malformed_read_counts_hits_witness :
  ∃ err w',
    Cache.getCachedProduct one no_options corrupted = (Throw err, w')
    ∧ hits (stats w') = 4%N
    ∧ misses (stats w') = 4%N
    ∧ operations (stats w') = 8%N
    ∧ errors (stats w') = 1%N
    ∧ retries (stats w') = 3%N
    ∧ calls w' = repeat (Backend.HGETALL "products_hash:1") 4.
Proof.
  apply (malformed_read_counts_hits one no_options corrupted corrupted_hash (Some 60)).
  - intros n. reflexivity.
  - discriminate.
  - vm_compute. reflexivity.
  - intros E. apply (f_equal (λ h, h !! "id")) in E. vm_compute in E. discriminate.
  - vm_compute. reflexivity.
Defined.

Lemma roundtrip_string_mode_witness :
  ∃ w2, Cache.getCachedProduct (id mockProduct) as_string written_as_string
        = (Ok (Some mockProduct), w2).
Proof.
  apply (roundtrip_string_mode mockProduct as_string as_string fresh written_as_string);
    reflexivity.
Defined.

Lemma list_roundtrip_witness :
  ∃ w2, Cache.getCachedProducts "products:list:1:10::" no_options mock_list
        = (Ok (Some [mockProduct]), w2).
Proof.
  apply (list_roundtrip [mockProduct] "products:list:1:10::" no_options no_options
           fresh mock_list); reflexivity.
Defined.

Lemma modes_do_not_mix_witness :
  ∃ w2, Cache.getCachedProduct (id mockProduct) as_string cached = (Ok None, w2).
Proof.
  apply (modes_do_not_mix mockProduct no_options as_string fresh cached);
    reflexivity.
Defined.

Lemma invalidated_lists_are_gone_witness :
  ∃ w', Cache.invalidateProductLists no_options listed = (Ok tt, w')
    ∧ (∀ k, store w' !! k
            = if existsb (λ p, Backend.matches p k) (list_patterns no_options)
              then None else store listed !! k)
    ∧ ∀ cacheKey o', prefix o' = None → connected w' = true →
        ∃ w'', Cache.getCachedProducts cacheKey o' w' = (Ok None, w'').
Proof.
  apply (invalidated_lists_are_gone no_options listed).
  - reflexivity.
  - intros p Hp. discriminate.
Defined.

Lemma list_invalidation_keeps_products_witness :
  store (Cache.invalidateProductLists no_options cached).2
    !! Cache.generateHashKey one None
  = store cached !! Cache.generateHashKey one None
  ∧ store (Cache.invalidateProductLists no_options cached).2
      !! Cache.generateKey ("single:" ++ JS.toString one) None
    = store cached !! Cache.generateKey ("single:" ++ JS.toString one) None
  ∧ ∀ h e p o',
      store cached !! Cache.generateHashKey one None
        = Some (Backend.mkEntry (Backend.VHash h) e) →
      Cache.reconstructProductFromHash h = Ok p →
      useHash o' ≠ Some false → prefix o' = None →
      connected (Cache.invalidateProductLists no_options cached).2 = true →
      ∃ w'', Cache.getCachedProduct one o'
               (Cache.invalidateProductLists no_options cached).2
             = (Ok (Some p), w'').
Proof.
  apply (list_invalidation_keeps_products no_options cached
           (Cache.invalidateProductLists no_options cached).2).
  - reflexivity.
  - vm_compute. reflexivity.
Defined.

Lemma prefixed_list_invalidation_witness :
  ∃ w', Cache.invalidateProductLists in_shop shelved = (Ok tt, w')
    ∧ ∀ i,
        store w' !! Cache.generateHashKey i (Some "shop") = None
        ∧ store w' !! Cache.generateKey ("single:" ++ JS.toString i) (Some "shop") = None
        ∧ ∀ o', prefix o' = Some "shop" → connected w' = true →
            ∃ w'', Cache.getCachedProduct i o' w' = (Ok None, w'').
Proof.
  apply (prefixed_list_invalidation_drops_products "shop" in_shop shelved); reflexivity.
Defined.

Lemma hash_reads_witness :
  JS.isNaN (id mockProduct) = false ∧ JS.le0 (id mockProduct) = false
  ∧ (JS.below_1e21 (id mockProduct) = true → JS.positive_integer (id mockProduct) = true)
  ∧ JS.isNaN (price mockProduct) = false ∧ JS.lt0 (price mockProduct) = false
  ∧ JS.trimmed (name mockProduct) = true ∧ JS.trimmed (category mockProduct) = true.
Proof.
  apply (hash_reads_return_validated_products (id mockProduct) no_options cached
           mockProduct (Cache.getCachedProduct (id mockProduct) no_options cached).2).
  - discriminate.
  - vm_compute. reflexivity.
Defined.

Lemma blank_name_witness :
  Cache.reconstructProductFromHash
    (<["name" := "   "]>
       (Backend.set_fields
          [("id", "1"); ("name", "Test Product"); ("price", "99.99");
           ("category", "Electronics")] ∅))
  = Ok {| id := id mockProduct; name := ""; price := price mockProduct;
          category := category mockProduct |}.
Proof.
  apply (blank_name_passes_validation _ mockProduct "   "); reflexivity.
Defined.

Lemma list_response_witness :
  let response :=
    {| Catalog.products := [widget JS.d3 "Drill"; widget JS.d2 "Saw"];
       Catalog.total := 3; Catalog.page := 1; Catalog.limit := 2;
       Catalog.totalPages := Catalog.Pages 2 |} in
  Catalog.limit response ≤ maxLimit
  ∧ Catalog.totalPages response
    = Catalog.ceil_div (Catalog.total response) (Catalog.limit response).
Proof.
  intros response.
  destruct (list_response_is_consistent two_a_page stocked response
              (Catalog.getProducts two_a_page stocked).2) as (_ & _ & Hl & Ht & _).
  - vm_compute. reflexivity.
  - split; assumption.
Defined.

Lemma read_through_witness :
  ∃ w1, Catalog.getProductById one stocked = (Ok (Some hammer), w1)
    ∧ ∀ other : Catalog.Repository,
        ∃ w2, @Catalog.getProductById _ _ other one w1 = (Ok (Some hammer), w2).
Proof.
  apply (read_through_fills_the_cache one hammer stocked).
  - intros n. reflexivity.
  - intros s e. vm_compute. discriminate.
  - left. reflexivity.
  - reflexivity.
  - reflexivity.
  - reflexivity.
  - reflexivity.
  - intros w r w' E. cbn in E. injection E as _ <-. done.
  - intros v Hv. eexists. cbn [Catalog.repository_findOne table_repository].
    rewrite Hv. reflexivity.
Defined.

Lemma list_read_through_witness :
  ∃ w1,
    Catalog.getProducts two_a_page stocked
    = (Ok {| Catalog.products := [widget JS.d3 "Drill"; widget JS.d2 "Saw"];
             Catalog.total := 3; Catalog.page := 1; Catalog.limit := 2;
             Catalog.totalPages := Catalog.Pages 2 |}, w1)
    ∧ store w1 !! "product:list:products:list:1:2::"
      = Some (Backend.mkEntry
                (Backend.VString
                   (stringify [widget JS.d3 "Drill"; widget JS.d2 "Saw"]))
                (Some 60))
    ∧ ∀ other : Catalog.Repository,
        ∃ w2,
          @Catalog.getProducts _ _ other two_a_page w1
          = (Ok {| Catalog.products := [widget JS.d3 "Drill"; widget JS.d2 "Saw"];
                   Catalog.total := 2; Catalog.page := 1; Catalog.limit := 2;
                   Catalog.totalPages := Catalog.Pages 1 |}, w2).
Proof.
  exact (list_read_through two_a_page [widget JS.d3 "Drill"; widget JS.d2 "Saw"] 3 stocked
           ltac:(intros n; reflexivity) eq_refl eq_refl eq_refl eq_refl
           ltac:(intros q sk tk w r w' E; cbn in E; injection E as _ <-; done)
           ltac:(intros v Hv; eexists;
                 cbn [Catalog.repository_getManyAndCount table_repository];
                 rewrite Hv; reflexivity)).
Defined.

Lemma delete_empties_the_cache_witness :
  ∃ w2, Catalog.deleteProduct one served = (Ok true, w2)
    ∧ steady w2
    ∧ (∀ o, prefix o = None → ∃ w3, Cache.getCachedProduct one o w2 = (Ok None, w3))
    ∧ (∀ k o, prefix o = None → ∃ w3, Cache.getCachedProducts k o w2 = (Ok None, w3)).
Proof.
  apply (delete_empties_the_cache one 1 served (Catalog.repository_delete one served).2).
  - intros n. reflexivity.
  - intros w r w' E. cbn in E. injection E as _ <-. done.
  - reflexivity.
  - reflexivity.
Defined.

Lemma update_refreshes_the_cache_witness :
  ∃ w3, Catalog.updateProduct one to_mallet served = (Ok (Some mallet), w3)
    ∧ ∃ w4, Cache.getCachedProduct one by_id w3 = (Ok (Some mallet), w4).
Proof.
  apply (update_refreshes_the_cache one to_mallet hammer mallet
           (hash_at (store served) "products_hash:1") (Some 60) served served
           (Catalog.repository_save mallet served).2).
  - intros n. reflexivity.
  - vm_compute. reflexivity.
  - vm_compute. reflexivity.
  - intros w r w' E. cbn in E. injection E as _ <-. done.
  - intros q w r w' E. cbn in E. injection E as _ <-. done.
  - reflexivity.
  - reflexivity.
  - reflexivity.
  - reflexivity.
  - reflexivity.
Defined.

Lemma backoff_exhaustion_witness :
  ∃ v, Helpers.retryWithBackoff (failing (λ _, Error "boom") asked : M unit) 3 1000 2 fresh
       = (Throw (Error "boom"), asked v)
     ∧ sleeps (asked v) = [1000; 2000; 4000]
     ∧ stats (asked v) = stats fresh
     ∧ checks (asked v) = 4%nat.
Proof.
  apply (backoff_exhaustion (T := unit) (λ _, Error "boom") asked checks);
    try reflexivity.
  lia.
Defined.

Lemma partial_update_keeps_the_expiry_witness :
  ∃ h', store renamed !! "products_hash:1"
        = Some (Backend.mkEntry (Backend.VHash h') (Some 60)).
Proof.
  apply (partial_update_keeps_the_expiry (id mockProduct) (only_name "X") no_options
           cached renamed (hash_at (store cached) "products_hash:1") (Some 60));
    reflexivity.
Defined.

Lemma zero_ttl_falls_back_witness :
  ∃ h, store (Cache.cacheProduct mockProduct no_ttl fresh).2
          !! Cache.generateHashKey (id mockProduct) (prefix no_ttl)
       = Some (Backend.mkEntry (Backend.VHash h) (Some productTTL)).
Proof.
  apply (proj1 (zero_ttl_falls_back no_ttl eq_refl) mockProduct fresh
           (Cache.cacheProduct mockProduct no_ttl fresh).2); try reflexivity.
  discriminate.
Defined.

Lemma failures_are_operation_errors_witness :
  match call (GetCachedProduct one no_options) offline with
  | (None, w') => errors (stats w') = errors (stats offline)
  | (Some e, w') =>
      errors (stats w') = (errors (stats offline) + 1)%N
      ∧ ∃ cause v v',
          attempt (GetCachedProduct one no_options) v = (Some cause, v')
          ∧ checks v = (3 + checks offline)%nat
          ∧ w' = gave_up v'
          ∧ e = CacheOperationError
                  ("Operation " ++ method (GetCachedProduct one no_options)
                   ++ " failed after 3 retries: " ++ message cause)
                  (method (GetCachedProduct one no_options)) cause
  end.
Proof. exact (failures_are_operation_errors (GetCachedProduct one no_options) offline). Defined.

Lemma persistence_failures_witness :
  @Catalog.createProduct _ (refusing taken) widget_data fresh
  = (Throw (ConflictError "Product with name 'Widget' already exists"),
     add_line (LogError "Error creating product:" taken) fresh)
  ∧ @Catalog.getProductById _ _ (refusing taken) one served
    = (Ok (Some hammer),
       add_line (Log "Cache hit for product ID: 1")
                (Cache.getCachedProduct one by_id served).2)
  ∧ @Catalog.getProductById _ _ (refusing taken) one stocked
    = (Throw (DatabaseError "Could not retrieve product due to a database error"
                            (message taken)),
       add_line (LogError "Error getting product by ID:" taken)
                (Cache.getCachedProduct one by_id stocked).2).
Proof.
  destruct (@persistence_failures_surface _ _ (refusing taken))
    as (Hc & _ & _ & _ & Hhit & Hmiss & _).
  split; [| split].
  - apply (Hc widget_data fresh taken fresh). reflexivity.
  - apply (Hhit one served hammer (Cache.getCachedProduct one by_id served).2).
    vm_compute. reflexivity.
  - apply (Hmiss one stocked (Ok None) (Cache.getCachedProduct one by_id stocked).2
             taken (Cache.getCachedProduct one by_id stocked).2).
    + vm_compute. reflexivity.
    + discriminate.
    + reflexivity.
Defined.

Lemma list_key_and_colons_witness :
  Catalog.generateProductsCacheKey 1 10 (Some "a:b") None
  = Catalog.generateProductsCacheKey 1 10 (Some "a") (Some "b:").
Proof. exact (proj1 (proj1 list_key_and_colons 1 10 "a" "b")). Defined.
